(** * Obsidian Code Styler: codeblock parameters, segmentation and references

    A shallow embedding of the parsing and referencing code of the plugin
    ([src/Parsing/CodeblockParsing.ts], [src/Parsing/ReferenceParsing.ts],
    [src/Referencing.ts]) together with the properties its specification
    states about it.

    Conventions of the embedding:
    - a JavaScript string is a [string]; its code units are the 8-bit
      characters of [ascii] (inputs are taken in the Latin-1 range);
    - a JavaScript number is a double: [jsnum] has the integers that a
      double holds exactly as integers of [Z], [NaN], and every other
      double as the [spec_float] of the Standard Library, whose sums,
      differences and comparisons are those of IEEE 754; the line numbers
      of the highlights and the line number offset are integers of [Z];
    - an object used as a dictionary is a [gmap string _];
    - a thrown exception is the [Throw] result of the [result] type;
    - regular expression literals are transcribed into the [regex] syntax of
      module [Rx], which implements the backtracking matcher of ECMAScript
      for the constructs the sources use. *)

From Stdlib Require Import ZArith List Ascii String Permutation Lia SpecFloat.
From stdpp Require Import base gmap strings list fin_maps.

Local Open Scope string_scope.
Local Open Scope Z_scope.
(** [++] is list concatenation throughout; strings are joined with [+:+]. *)
Disable Notation "_ ++ _" : string_scope.

(* ================================================================= *)
(** ** JavaScript strings and arrays *)

Module JS.

Definition chars (s : string) : list ascii := list_ascii_of_string s.
Definition str (l : list ascii) : string := string_of_list_ascii l.

Definition code (c : ascii) : N := N_of_ascii c.

Definition in_range (lo hi : N) (c : ascii) : bool :=
  ((lo <=? code c) && (code c <=? hi))%N.

Definition is_char (a c : ascii) : bool := Ascii.eqb a c.

Fixpoint one_of (l : list ascii) (c : ascii) : bool :=
  match l with
  | [] => false
  | a :: l' => Ascii.eqb a c || one_of l' c
  end.

(** [\d], [\w] and [\s]; white space is TAB, LF, VT, FF, CR, SP and NBSP,
    the white space and line terminators below code unit 256. *)
Definition is_digit : ascii -> bool := in_range 48 57.
Definition is_alpha (c : ascii) : bool := in_range 65 90 c || in_range 97 122 c.
Definition is_word (c : ascii) : bool :=
  is_alpha c || is_digit c || is_char "_" c.
Definition is_space (c : ascii) : bool :=
  in_range 9 13 c || is_char " " c || (code c =? 160)%N.
(** [.] without the [s] flag: anything but a line terminator. *)
Definition is_line_terminator (c : ascii) : bool :=
  (code c =? 10)%N || (code c =? 13)%N.
Definition is_dot (c : ascii) : bool := negb (is_line_terminator c).

Definition LF : ascii := ascii_of_N 10.
Definition CR : ascii := ascii_of_N 13.
Definition NUL : ascii := ascii_of_N 0.
(** The double quote and the single quote. *)
Definition DQ : ascii := ascii_of_N 34.
Definition SQ : ascii := ascii_of_N 39.
Definition is_quote (c : ascii) : bool := is_char DQ c || is_char SQ c.

(** *** Prefixes, suffixes, search *)

Fixpoint starts (p s : list ascii) : bool :=
  match p, s with
  | [], _ => true
  | a :: p', b :: s' => Ascii.eqb a b && starts p' s'
  | _ :: _, [] => false
  end.

Definition startsWith (s p : string) : bool := starts (chars p) (chars s).

Definition endsWith (s p : string) : bool :=
  starts (rev (chars p)) (rev (chars s)).

(** [find_from p s i]: the first position [>= i] (counted from [i] at the
    head of [s]) where [p] occurs in [s]. *)
Fixpoint find_from (p s : list ascii) (i : nat) : option nat :=
  if starts p s then Some i
  else match s with
       | [] => None
       | _ :: s' => find_from p s' (S i)
       end.

(** [s.indexOf(p, from)]; [-1] when [p] does not occur. A position past
    the end is clamped to the length, as the language does. *)
Definition indexOf (s p : string) (from : Z) : Z :=
  let k := Nat.min (Z.to_nat from) (String.length s) in
  match find_from (chars p) (drop k (chars s)) k with
  | Some i => Z.of_nat i
  | None => -1
  end.

(** *** [slice] and [substring] *)

(** Relative index of [Array.prototype.slice] and
    [String.prototype.slice]: negative counts from the end, and the result
    is clamped to [0 .. len]. *)
Definition rel_index (len : nat) (i : Z) : nat :=
  if i <? 0 then Z.to_nat (Z.max (Z.of_nat len + i) 0)
  else Nat.min (Z.to_nat i) len.

Definition slice {A} (l : list A) (from : Z) (to : option Z) : list A :=
  let len := length l in
  let a := rel_index len from in
  let b := match to with Some t => rel_index len t | None => len end in
  take (b - a) (drop a l).

Definition sslice (s : string) (from : Z) (to : option Z) : string :=
  str (slice (chars s) from to).

(** [s.substring(a, b)]: both ends clamped to [0 .. len], swapped when
    [a > b]. *)
Definition substring (s : string) (a : Z) (b : option Z) : string :=
  let len := String.length s in
  let clamp (i : Z) := Nat.min (Z.to_nat i) len in
  let a' := clamp a in
  let b' := match b with Some t => clamp t | None => len end in
  str (take (Nat.max a' b' - Nat.min a' b') (drop (Nat.min a' b') (chars s))).

(** *** [split], [join], [trim], [replace] *)

(** [s.split(sep)] for a separator of one character. *)
Fixpoint split_chars (sep : ascii) (s : list ascii) : list (list ascii) :=
  match s with
  | [] => [[]]
  | c :: s' =>
      if Ascii.eqb c sep then [] :: split_chars sep s'
      else match split_chars sep s' with
           | w :: ws => (c :: w) :: ws
           | [] => [[c]]
           end
  end.

Definition split (s : string) (sep : ascii) : list string :=
  map str (split_chars sep (chars s)).

Fixpoint join (sep : string) (l : list string) : string :=
  match l with
  | [] => EmptyString
  | [x] => x
  | x :: l' => x +:+ sep +:+ join sep l'
  end.

Fixpoint trim_start (s : list ascii) : list ascii :=
  match s with
  | c :: s' => if is_space c then trim_start s' else s
  | [] => []
  end.

Definition trim (s : string) : string :=
  str (rev (trim_start (rev (trim_start (chars s))))).

(** [s.toLowerCase()] on the code units below 256. *)
Definition lower (c : ascii) : ascii :=
  if in_range 65 90 c || (in_range 192 222 c && negb (code c =? 215)%N)
  then ascii_of_N (code c + 32) else c.

Definition toLowerCase (s : string) : string := str (map lower (chars s)).

(** [s.replace(a, b)] with a string pattern [a]: the first occurrence. *)
Definition replace_first (s a b : string) : string :=
  match find_from (chars a) (chars s) 0 with
  | Some i =>
      str (take i (chars s)) +:+ b
        +:+ str (drop (i + String.length a)%nat (chars s))
  | None => s
  end.

(** *** Numbers *)

Definition digit_val (c : ascii) : Z := Z.of_N (code c) - 48.

Definition digits_val (ds : list ascii) : Z :=
  fold_left (fun acc c => 10 * acc + digit_val c) ds 0.

Fixpoint take_while {A} (p : A -> bool) (l : list A) : list A :=
  match l with
  | x :: l' => if p x then x :: take_while p l' else []
  | [] => []
  end.

Definition hex_val (c : ascii) : Z :=
  if is_digit c then digit_val c
  else if in_range 97 102 c then Z.of_N (code c) - 87
  else Z.of_N (code c) - 55.

Definition is_hex (c : ascii) : bool :=
  is_digit c || in_range 97 102 c || in_range 65 70 c.

(** A number of the language is a double: 53 bits of precision, and
    [2 ^ 1024] the first power of two out of range. *)
Definition prec : Z := 53.
Definition emax : Z := 1024.

(** The double nearest to an integer, ties to even; an infinity from
    [2 ^ 1024 - 2 ^ 970] on. *)
Definition Z2SF (z : Z) : spec_float := binary_normalize prec emax z 0 false.

(** The value of a finite double when it is an integer. *)
Definition integer_value (s : bool) (m : positive) (e : Z) : option Z :=
  let v := if s then Z.neg m else Z.pos m in
  if 0 <=? e then Some (v * 2 ^ e)
  else if Z.pos m mod 2 ^ (- e) =? 0 then Some (v / 2 ^ (- e))
  else None.

(** The integers up to [2 ^ 53] in absolute value are the ones below
    which every integer is a double. *)
Definition safe (z : Z) : bool := Z.abs z <=? 2 ^ 53.

(** [parseInt] and the digits of a numeral give an integer, which the
    language then rounds to the nearest double: the integer itself up to
    [2 ^ 53]. From [2 ^ 1024 - 2 ^ 970] on the language has [Infinity],
    for which the integers have no value: there the integer is kept, and
    is outside what the statements about numerals cover. *)
Definition round_double (z : Z) : Z :=
  if safe z then z
  else match Z2SF z with
       | S754_finite s m e => default z (integer_value s m e)
       | _ => z
       end.

(** [parseInt(s)] with no radix: leading white space is skipped, a sign is
    read, a [0x] prefix switches to base 16, and the longest run of digits
    is the value, rounded to a double; [None] is [NaN]. *)
Definition parseInt (s : string) : option Z :=
  let t := trim_start (chars s) in
  let '(sign, t) :=
    match t with
    | c :: t' =>
        if is_char "-" c then (-1, t')
        else if is_char "+" c then (1, t')
        else (1, t)
    | [] => (1, t)
    end in
  let hex_prefix :=
    match t with
    | c :: x :: _ => is_char "0" c && (is_char "x" x || is_char "X" x)
    | _ => false
    end in
  let value :=
    if hex_prefix then
      match take_while is_hex (drop 2 t) with
      | [] => None
      | ds => Some (fold_left (fun acc c => 16 * acc + hex_val c) ds 0)
      end
    else
      match take_while is_digit t with
      | [] => None
      | ds => Some (digits_val ds)
      end in
  match value with
  | Some v => Some (sign * round_double v)
  | None => None
  end.

(** A number where the code computes with it as such. [Num z] is the
    integer [z]; [Dbl f] is the double [f], used for the doubles that are
    no integer up to [2 ^ 53]: fractions, infinities, larger numbers. The
    sign of a zero is not kept: no operation of the code tells the two
    zeros apart. *)
Inductive jsnum := Num (z : Z) | NaN | Dbl (f : spec_float).
Coercion Num : Z >-> jsnum.

Definition of_SF (f : spec_float) : jsnum :=
  match f with
  | S754_nan => NaN
  | S754_zero _ => Num 0
  | S754_infinity _ => Dbl f
  | S754_finite s m e =>
      match integer_value s m e with
      | Some z => if safe z then Num z else Dbl f
      | None => Dbl f
      end
  end.

Definition to_SF (x : jsnum) : spec_float :=
  match x with
  | Num z => Z2SF z
  | NaN => S754_nan
  | Dbl f => f
  end.

(** The number an integer is read as. *)
Definition of_Z (z : Z) : jsnum := if safe z then Num z else of_SF (Z2SF z).

(** A double that is an integer up to [2 ^ 53] is that integer. *)
Definition norm (x : jsnum) : jsnum :=
  match x with
  | Dbl f => of_SF f
  | _ => x
  end.

(** [x + y], [x - y], [x < y] and [x === y]. Between integers they are
    those of [Z], which are those of the doubles as long as the result
    stays within [2 ^ 53] in absolute value; the statements that depend on
    it say so. Everywhere else they are those of IEEE 754. *)
Definition js_add (x y : jsnum) : jsnum :=
  match norm x, norm y with
  | Num a, Num b => Num (a + b)
  | x', y' => of_SF (SFadd prec emax (to_SF x') (to_SF y'))
  end.

Definition js_sub (x y : jsnum) : jsnum :=
  match norm x, norm y with
  | Num a, Num b => Num (a - b)
  | x', y' => of_SF (SFsub prec emax (to_SF x') (to_SF y'))
  end.

Definition js_lt (x y : jsnum) : bool :=
  match norm x, norm y with
  | Num a, Num b => a <? b
  | x', y' => SFltb (to_SF x') (to_SF y')
  end.

Definition js_eq (x y : jsnum) : bool :=
  match norm x, norm y with
  | Num a, Num b => a =? b
  | x', y' => SFeqb (to_SF x') (to_SF y')
  end.

(** The index [slice] makes of a number: [NaN] is [0], a fraction is cut
    towards zero, and the result is taken from the end when negative and
    clamped to [0 .. len]; a double past the end is the end. *)
Definition truncate (s : bool) (m : positive) (e : Z) : Z :=
  let v := if s then Z.neg m else Z.pos m in
  if 0 <=? e then v * 2 ^ e else Z.quot v (2 ^ (- e)).

Definition rel_index_num (len : nat) (x : jsnum) : nat :=
  match norm x with
  | Num z => rel_index len z
  | NaN => 0%nat
  | Dbl (S754_infinity true) => 0%nat
  | Dbl (S754_infinity false) => len
  | Dbl (S754_finite s m e) =>
      let i := truncate s m e in
      if Z.of_nat len <? i then len else rel_index len i
  | Dbl _ => 0%nat
  end.

(** [l.slice(from, to)] with numbers for its two ends. *)
Definition slice_num {A} (l : list A) (from to : jsnum) : list A :=
  let len := length l in
  let a := rel_index_num len from in
  let b := rel_index_num len to in
  take (b - a) (drop a l).

(** *** [Number(s)]

    The string is trimmed; the empty string is [0]; then it is a literal
    in base 16, 8 or 2 after [0x], [0o] or [0b], without a sign, or a
    decimal literal: an optional sign, then [Infinity], or digits with an
    optional fraction and an optional exponent, a digit at least before or
    after the point. Every other string is [NaN]. The value is rounded to
    the nearest double, ties to even. *)
Fixpoint drop_while {A} (p : A -> bool) (l : list A) : list A :=
  match l with
  | x :: l' => if p x then drop_while p l' else l
  | [] => []
  end.

Definition is_octal : ascii -> bool := in_range 48 55.
Definition is_binary : ascii -> bool := in_range 48 49.

Definition radix_val (radix : Z) (ds : list ascii) : Z :=
  fold_left (fun acc c => radix * acc + hex_val c) ds 0.

Definition non_decimal (t : list ascii) : option Z :=
  match t with
  | z :: r :: ds =>
      if is_char "0" z && negb (length ds =? 0)%nat then
        if (is_char "x" r || is_char "X" r) && forallb is_hex ds
        then Some (radix_val 16 ds)
        else if (is_char "o" r || is_char "O" r) && forallb is_octal ds
        then Some (radix_val 8 ds)
        else if (is_char "b" r || is_char "B" r) && forallb is_binary ds
        then Some (radix_val 2 ds)
        else None
      else None
  | _ => None
  end.

(** A sign and what follows it. *)
Definition signed (t : list ascii) : bool * list ascii :=
  match t with
  | c :: t' =>
      if is_char "-" c then (true, t')
      else if is_char "+" c then (false, t')
      else (false, t)
  | [] => (false, t)
  end.

(** The integer after the exponent indicator. *)
Definition signed_integer (t : list ascii) : option Z :=
  let '(neg, ds) := signed t in
  match ds with
  | [] => None
  | _ :: _ =>
      if forallb is_digit ds
      then Some (if neg then - digits_val ds else digits_val ds)
      else None
  end.

(** An unsigned decimal literal, as the integer its digits make and the
    power of ten it is scaled by. *)
Definition unsigned_decimal (t : list ascii) : option (Z * Z) :=
  let int := take_while is_digit t in
  let t := drop_while is_digit t in
  let '(frac, t) :=
    match t with
    | c :: t' =>
        if is_char "." c
        then (take_while is_digit t', drop_while is_digit t')
        else ([], t)
    | [] => ([], t)
    end in
  if (length int =? 0)%nat && (length frac =? 0)%nat then None else
  let digits := digits_val (int ++ frac) in
  let scale := - Z.of_nat (length frac) in
  match t with
  | [] => Some (digits, scale)
  | c :: t' =>
      if is_char "e" c || is_char "E" c then
        match signed_integer t' with
        | Some e => Some (digits, e + scale)
        | None => None
        end
      else None
  end.

(** The double nearest to [digits * 10 ^ scale], with the sign [neg]. *)
Definition decimal_value (neg : bool) (digits scale : Z) : spec_float :=
  if digits =? 0 then S754_zero neg
  else if 0 <=? scale then
    binary_normalize prec emax
      ((if neg then -1 else 1) * (digits * 10 ^ scale)) 0 false
  else
    let '(q, e, l) :=
      SFdiv_core_binary prec emax digits 0 (10 ^ (- scale)) 0 in
    binary_round_aux prec emax neg q e l.

Definition Number (s : string) : jsnum :=
  let t := chars (trim s) in
  match t with
  | [] => Num 0
  | _ :: _ =>
      match non_decimal t with
      | Some v => of_Z v
      | None =>
          let '(neg, u) := signed t in
          if String.eqb (str u) "Infinity" then Dbl (S754_infinity neg)
          else match unsigned_decimal u with
               | Some (digits, scale) => of_SF (decimal_value neg digits scale)
               | None => NaN
               end
      end
  end.

(** Truthiness of a number: neither [NaN] nor zero. *)
Definition truthy (n : option Z) : bool :=
  match n with
  | Some z => negb (z =? 0)
  | None => false
  end.

(** [a.findIndex(p)], [-1] when no element satisfies [p]. *)
Fixpoint findIndex_from {A} (p : A -> bool) (l : list A) (i : Z) : Z :=
  match l with
  | [] => -1
  | x :: l' => if p x then i else findIndex_from p l' (i + 1)
  end.

Definition findIndex {A} (p : A -> bool) (l : list A) : Z :=
  findIndex_from p l 0.

(** A [Set] keeps insertion order and holds a value once. *)
Definition set_add {A} `{EqDecision A} (x : A) (s : list A) : list A :=
  if decide (x ∈ s) then s else s ++ [x].

End JS.

(** An integer stands for itself where a number is expected. *)
Coercion JS.Num : Z >-> JS.jsnum.

(* ================================================================= *)
(** ** Regular expressions *)

Module Rx.

(** The syntax covers what the regular expression literals of the sources
    use: classes, sequence, alternation, greedy and lazy repetition,
    capture groups, back-references, the anchors (no [m] flag), and
    look-ahead and look-behind assertions, positive or negative. *)
Inductive regex :=
| Eps
| Chr (p : ascii -> bool)
| Seq (r1 r2 : regex)
| Alt (r1 r2 : regex)
| Star (greedy : bool) (r : regex)
| Group (n : nat) (r : regex)
| Backref (n : nat)
| Bol
| Eol
| Ahead (negative : bool) (r : regex)
| Behind (negative : bool) (r : regex).

Definition Plus (g : bool) (r : regex) : regex := Seq r (Star g r).
Definition Opt (r : regex) : regex := Alt r Eps.
Definition Lit1 (c : ascii) : regex := Chr (JS.is_char c).
Definition Lit (s : string) : regex :=
  fold_right (fun c r => Seq (Lit1 c) r) Eps (JS.chars s).
Definition Not (p : ascii -> bool) : regex := Chr (fun c => negb (p c)).
Definition Dot : regex := Chr JS.is_dot.

(** [Cat [r1; ...; rn]] is the sequence [r1 ... rn]. *)
Definition Cat (l : list regex) : regex := fold_right Seq Eps l.

(** The matcher state: the characters before the position (nearest
    first), those after it, and the captures so far. *)
Record mstate := MState {
  before : list ascii;
  after : list ascii;
  caps : list (nat * list ascii)
}.

Definition cap (st : mstate) (n : nat) : option (list ascii) :=
  snd <$> List.find (fun e => Nat.eqb (fst e) n) (caps st).

Definition advance (st : mstate) (n : nat) : mstate :=
  MState (rev (take n (after st)) ++ before st) (drop n (after st)) (caps st).

(** The state [n] characters back. *)
Definition rewind (st : mstate) (n : nat) : mstate :=
  MState (drop n (before st)) (rev (take n (before st)) ++ after st) (caps st).

Definition set_cap (n : nat) (from st : mstate) : mstate :=
  MState (before st) (after st)
    ((n, take (length (after from) - length (after st))%nat (after from))
       :: caps st).

(** The loop of a repetition, [step] matching one iteration: a greedy
    repetition tries one more iteration before the continuation, a lazy one
    the continuation first. An iteration that consumed nothing is given up,
    so the loop runs at most once per remaining character, which [n]
    counts. *)
Fixpoint star_loop (greedy : bool)
  (step : mstate -> (mstate -> option mstate) -> option mstate)
  (k : mstate -> option mstate) (n : nat) (st : mstate) : option mstate :=
  match n with
  | O => k st
  | S n' =>
      let iter (_ : unit) :=
        step st (fun st' =>
          if (length (after st') <? length (after st))%nat
          then star_loop greedy step k n' st' else None) in
      if greedy then
        match iter tt with
        | Some x => Some x
        | None => k st
        end
      else
        match k st with
        | Some x => Some x
        | None => iter tt
        end
  end.

(** [m r st k]: match [r] at [st] and continue with [k]; the first
    success in the order of the language's backtracking is the result. A
    look-behind holds when its expression matches some stretch of text that
    ends at the position; captures inside it are not kept. *)
Fixpoint m (r : regex) (st : mstate) (k : mstate -> option mstate)
  {struct r} : option mstate :=
  match r with
  | Eps => k st
  | Chr p =>
      match after st with
      | c :: _ => if p c then k (advance st 1) else None
      | [] => None
      end
  | Seq r1 r2 => m r1 st (fun st' => m r2 st' k)
  | Alt r1 r2 =>
      match m r1 st k with
      | Some x => Some x
      | None => m r2 st k
      end
  | Star g r' => star_loop g (m r') k (length (after st)) st
  | Group n r' => m r' st (fun st' => k (set_cap n st st'))
  | Backref n =>
      match cap st n with
      | None => k st
      | Some s =>
          if JS.starts s (after st) then k (advance st (length s)) else None
      end
  | Bol => match before st with [] => k st | _ => None end
  | Eol => match after st with [] => k st | _ => None end
  | Ahead negative r' =>
      match m r' st Some with
      | Some st' =>
          if negative then None
          else k (MState (before st) (after st) (caps st'))
      | None => if negative then k st else None
      end
  | Behind negative r' =>
      let ends_here (st' : mstate) :=
        if (length (after st') =? length (after st))%nat
        then Some st' else None in
      let found :=
        existsb (fun n => match m r' (rewind st n) ends_here with
                          | Some _ => true
                          | None => false
                          end)
          (seq 0 (S (length (before st)))) in
      if xorb found negative then k st else None
  end.

(** The result of [r.exec(s)]: where the match starts, the matched text
    and the captures, with the text around the match. *)
Record rmatch := RMatch {
  index : nat;
  prefix_text : list ascii;
  matched : list ascii;
  suffix_text : list ascii;
  groups : list (nat * list ascii)
}.

Fixpoint exec_from (r : regex) (bef aft : list ascii) : option rmatch :=
  match m r (MState bef aft []) Some with
  | Some st' =>
      Some (RMatch (length bef) (rev bef)
              (take (length aft - length (after st'))%nat aft)
              (after st') (caps st'))
  | None =>
      match aft with
      | [] => None
      | c :: aft' => exec_from r (c :: bef) aft'
      end
  end.

Definition exec (r : regex) (s : string) : option rmatch :=
  exec_from r [] (JS.chars s).

Definition test (r : regex) (s : string) : bool :=
  match exec r s with Some _ => true | None => false end.

(** [match[n]]; [None] is [undefined]. *)
Definition group (mt : rmatch) (n : nat) : option string :=
  JS.str <$> (snd <$> List.find (fun e => Nat.eqb (fst e) n) (groups mt)).

(** [s.replace(r, template)] without the [g] flag; the template is given
    as a function of the match. *)
Definition replace (r : regex) (s : string) (tpl : rmatch -> string) : string :=
  match exec r s with
  | Some mt =>
      JS.str (prefix_text mt) +:+ tpl mt +:+ JS.str (suffix_text mt)
  | None => s
  end.

Definition group_or_empty (mt : rmatch) (n : nat) : string :=
  default EmptyString (group mt n).

(** *** The [g] flag *)

(** Where the search resumes after a match: at its end, or one character
    further when the match is empty; [None] at the end of the input. *)
Definition resume (mt : rmatch) : option (list ascii * list ascii) :=
  match matched mt, suffix_text mt with
  | [], [] => None
  | [], c :: rest => Some (c :: rev (prefix_text mt), rest)
  | _ :: _, suf => Some (rev (matched mt) ++ rev (prefix_text mt), suf)
  end.

(** The successive matches of an expression with the [g] flag. Every match
    but the last moves the position forward, so the fuel counts the
    characters left. *)
Fixpoint match_all_from (fuel : nat) (r : regex) (bef aft : list ascii)
  : list rmatch :=
  match fuel with
  | O => []
  | S fuel' =>
      match exec_from r bef aft with
      | None => []
      | Some mt =>
          mt :: match resume mt with
                | Some (bef', aft') => match_all_from fuel' r bef' aft'
                | None => []
                end
      end
  end.

Definition match_all (r : regex) (s : string) : list rmatch :=
  match_all_from (S (String.length s)) r [] (JS.chars s).

(** [s.match(r)] with the [g] flag: the matched texts; the empty list
    stands for [null]. *)
Definition match_g (r : regex) (s : string) : list string :=
  map (fun mt => JS.str (matched mt)) (match_all r s).

(** [s.replace(r, template)] with the [g] flag: the text between the
    matches is kept, each match gives way to its template. *)
Fixpoint replace_matches (pos : nat) (s : list ascii) (ms : list rmatch)
  (tpl : rmatch -> string) : list ascii :=
  match ms with
  | [] => drop pos s
  | mt :: ms' =>
      take (index mt - pos) (drop pos s) ++ JS.chars (tpl mt)
        ++ replace_matches (index mt + length (matched mt)) s ms' tpl
  end.

Definition replace_all (r : regex) (s : string) (tpl : rmatch -> string)
  : string :=
  JS.str (replace_matches 0 (JS.chars s) (match_all r s) tpl).

End Rx.

(* ================================================================= *)
(** ** Codeblock parameters and segmentation
    ([src/Parsing/CodeblockParsing.ts]) *)

Module CodeblockParsing.
Import Rx.

(** [Highlights]: the three arrays are the spread of the three [Set]s of
    [parseHighlightedLines], in insertion order. A [RegExp] object is
    recorded by its pattern source; two objects built from one source are
    two entries, as two objects are two members of a [Set]. *)
Record Highlights := mkHighlights {
  lineNumbers : list Z;
  plainText : list string;
  regularExpressions : list string
}.

Record Fold := mkFold { enabled : bool; placeholder : string }.

Record LineNumbers := mkLineNumbers {
  alwaysEnabled : bool;
  alwaysDisabled : bool;
  offset : Z
}.

Record LineUnwrap := mkLineUnwrap {
  unwrapEnabled : bool;
  unwrapDisabled : bool;
  activeWrap : bool
}.

(** [CodeblockParameters]; the fields [lineNumbers] and [highlights] of the
    source are [lineNumbering], [highlights_default] and
    [highlights_alternative] here. *)
Record CodeblockParameters := mkParams {
  language : string;
  title : string;
  reference : string;
  fold : Fold;
  lineNumbering : LineNumbers;
  lineUnwrap : LineUnwrap;
  highlights_default : Highlights;
  highlights_alternative : gmap string Highlights;
  ignore : bool
}.

Definition no_highlights : Highlights := mkHighlights [] [] [].

(** The record [parseCodeblockParameters] starts from. *)
Definition default_parameters : CodeblockParameters :=
  mkParams EmptyString EmptyString EmptyString
    (mkFold false EmptyString)
    (mkLineNumbers false false 0)
    (mkLineUnwrap false false false)
    no_highlights ∅ false.

Definition set_title (t : string) (p : CodeblockParameters) :=
  mkParams (language p) t (reference p) (fold p) (lineNumbering p)
    (lineUnwrap p) (highlights_default p) (highlights_alternative p) (ignore p).
Definition set_reference (r : string) (p : CodeblockParameters) :=
  mkParams (language p) (title p) r (fold p) (lineNumbering p)
    (lineUnwrap p) (highlights_default p) (highlights_alternative p) (ignore p).
Definition set_fold (f : Fold) (p : CodeblockParameters) :=
  mkParams (language p) (title p) (reference p) f (lineNumbering p)
    (lineUnwrap p) (highlights_default p) (highlights_alternative p) (ignore p).
Definition set_lineNumbering (l : LineNumbers) (p : CodeblockParameters) :=
  mkParams (language p) (title p) (reference p) (fold p) l
    (lineUnwrap p) (highlights_default p) (highlights_alternative p) (ignore p).
Definition set_lineUnwrap (u : LineUnwrap) (p : CodeblockParameters) :=
  mkParams (language p) (title p) (reference p) (fold p) (lineNumbering p)
    u (highlights_default p) (highlights_alternative p) (ignore p).
Definition set_highlights_default (h : Highlights) (p : CodeblockParameters) :=
  mkParams (language p) (title p) (reference p) (fold p) (lineNumbering p)
    (lineUnwrap p) h (highlights_alternative p) (ignore p).
Definition set_highlights_alternative (name : string) (h : Highlights)
  (p : CodeblockParameters) :=
  mkParams (language p) (title p) (reference p) (fold p) (lineNumbering p)
    (lineUnwrap p) (highlights_default p)
    (<[name := h]> (highlights_alternative p)) (ignore p).
Definition set_ignore (b : bool) (p : CodeblockParameters) :=
  mkParams (language p) (title p) (reference p) (fold p) (lineNumbering p)
    (lineUnwrap p) (highlights_default p) (highlights_alternative p) b.

(** *** Highlight rules *)

(** [/\d+-\d+/] *)
Definition re_number_range : regex :=
  Cat [Plus true (Chr JS.is_digit); Lit1 "-"; Plus true (Chr JS.is_digit)].
(** The pattern between two slashes: [^], a slash, group 1 of [.*], a
    slash, [$]. *)
Definition re_slashes : regex :=
  Cat [Bol; Lit1 "/"; Group 1 (Star true Dot); Lit1 "/"; Eol].
(** A double quote, [.*], a double quote; and the same with single
    quotes. *)
Definition re_double_quoted : regex :=
  Cat [Lit1 JS.DQ; Star true Dot; Lit1 JS.DQ].
Definition re_single_quoted : regex :=
  Cat [Lit1 JS.SQ; Star true Dot; Lit1 JS.SQ].
(** [/\D/] and [/\d+/] *)
Definition re_non_digit : regex := Not JS.is_digit.
Definition re_digits : regex := Plus true (Chr JS.is_digit).

(** [Array.from({ length: end - start + 1 }, (_, num) => num + start)],
    for a length below [2 ^ 32] and numbers up to [2 ^ 53]. From a length
    of [2 ^ 32] on the language throws a [RangeError], which the functions
    of the parameters, that return their value, do not carry; the
    statements about ranges keep below it. *)
Definition range_lines (start end_ : Z) : list Z :=
  map (fun num => num + start) (seqZ 0 (end_ - start + 1)).

Section Host.

(** [RegExp_new src] is [new RegExp(src)]: the [test] function of the
    expression built from the pattern source, or [None] when the
    constructor throws a syntax error. *)
Variable RegExp_new : string -> option (string -> bool).

(** One turn of the [forEach] of [parseHighlightedLines]. *)
Definition addHighlightRule (h : Highlights) (highlightRule : string)
  : Highlights :=
  if test re_number_range highlightRule then
    let nums := map JS.parseInt (JS.split highlightRule "-") in
    match nums !! 0%nat, nums !! 1%nat with
    | Some (Some start), Some (Some end_) =>
        if JS.truthy (Some start) && JS.truthy (Some end_) && (start <=? end_)
        then mkHighlights
               (fold_left (fun s n => JS.set_add n s)
                  (range_lines start end_) (lineNumbers h))
               (plainText h) (regularExpressions h)
        else h
    | _, _ => h
    end
  else if test re_slashes highlightRule then
    let src := replace re_slashes highlightRule (fun mt => group_or_empty mt 1) in
    match RegExp_new src with
    | Some _ =>
        mkHighlights (lineNumbers h) (plainText h)
          (regularExpressions h ++ [src])
    | None => h
    end
  else if test re_double_quoted highlightRule
          || test re_single_quoted highlightRule then
    mkHighlights (lineNumbers h)
      (JS.set_add
         (JS.substring highlightRule 1
            (Some (Z.of_nat (String.length highlightRule) - 1)))
         (plainText h))
      (regularExpressions h)
  else if test re_non_digit highlightRule then
    mkHighlights (lineNumbers h) (JS.set_add highlightRule (plainText h))
      (regularExpressions h)
  else if test re_digits highlightRule then
    match JS.parseInt highlightRule with
    | Some n =>
        mkHighlights (JS.set_add n (lineNumbers h)) (plainText h)
          (regularExpressions h)
    | None => h
    end
  else h.

Definition parseHighlightedLines (highlightedLinesString : string)
  : Highlights :=
  fold_left addHighlightRule (JS.split highlightedLinesString ",")
    no_highlights.

(** *** Links and titles *)

(** [/\[\[([^\]|\r\n]+?)(?:\|([^\]|\r\n]+?))?\]\]/] *)
Definition wiki_text (c : ascii) : bool :=
  negb (JS.one_of ["]"%char; "|"%char; JS.CR; JS.LF] c).
Definition re_wiki : regex :=
  Cat [Lit "[[";
       Group 1 (Plus false (Chr wiki_text));
       Opt (Cat [Lit1 "|"; Group 2 (Plus false (Chr wiki_text))]);
       Lit "]]"].
(** A markdown link: an opening bracket, group 1 of [.*?], a closing
    bracket and an opening parenthesis, group 2 of [.+], a closing
    parenthesis. *)
Definition re_markdown_link : regex :=
  Cat [Lit1 "["; Group 1 (Star false Dot); Lit "](";
       Group 2 (Plus true Dot); Lit1 ")"].
(** A bare URL: [^], group 1 of an optional double or single quote,
    group 2 of [https?:\/\/] and [.*], the back-reference [\1], [$]. *)
Definition re_url : regex :=
  Cat [Bol; Group 1 (Opt (Chr JS.is_quote));
       Group 2 (Cat [Lit "http"; Opt (Lit1 "s"); Lit "://"; Star true Dot]);
       Backref 1; Eol].

(** A string is truthy when it is not empty. *)
Definition nonempty (s : string) : bool :=
  match s with EmptyString => false | _ => true end.

Definition manageLink (parameterString : string)
  : option (string * string) :=
  match exec re_wiki parameterString with
  | Some refWikiMatch =>
      let title :=
        match group refWikiMatch 2 with
        | Some g2 =>
            if nonempty g2 then JS.trim g2
            else JS.trim (group_or_empty refWikiMatch 1)
        | None => JS.trim (group_or_empty refWikiMatch 1)
        end in
      Some (title, JS.trim (group_or_empty refWikiMatch 1))
  | None =>
      match exec re_markdown_link parameterString with
      | Some refMdMatch =>
          Some (JS.trim (group_or_empty refMdMatch 1),
                JS.trim (group_or_empty refMdMatch 2))
      | None =>
          match exec re_url parameterString with
          | Some urlMatch => Some ("URL", JS.trim (group_or_empty urlMatch 2))
          | None => None
          end
      end
  end.

(** [/(Q?)([^\0x1]+)\1/], where [Q] is the class of the double and the
    single quote. The second class is written [[^\0x1]] in the source:
    every character but NUL, [x] and [1]. *)
Definition re_quoted_text : regex :=
  Cat [Group 1 (Opt (Chr JS.is_quote));
       Group 2 (Plus true (Not (JS.one_of [JS.NUL; "x"%char; "1"%char])));
       Backref 1].

Definition manageTitle (parameterString : string)
  (params : CodeblockParameters) : CodeblockParameters :=
  let params :=
    match exec re_quoted_text
            (JS.sslice parameterString (Z.of_nat (String.length "title:")) None)
    with
    | Some titleMatch => set_title (JS.trim (group_or_empty titleMatch 2)) params
    | None => params
    end in
  let parameterString :=
    JS.sslice parameterString (Z.of_nat (String.length "title:")) None in
  match manageLink parameterString with
  | Some (t, r) => set_reference r (set_title t params)
  | None => params
  end.

(** [/^ref[:=]/] and the other prefixes of the dispatch. *)
Definition re_prefix (word : string) (optional : bool) : regex :=
  Cat [Bol; Lit word;
       if optional then Opt (Chr (JS.one_of [":"%char; "="%char]))
       else Chr (JS.one_of [":"%char; "="%char])].

Definition manageReference (parameterString : string)
  (params : CodeblockParameters) : CodeblockParameters :=
  let parameterString :=
    JS.sslice parameterString
      (Z.of_nat (String.length
                   (if test (re_prefix "ref" false) parameterString
                    then "ref:" else "reference:"))) None in
  match manageLink parameterString with
  | Some (t, r) =>
      let params := set_reference r params in
      if String.eqb (title params) EmptyString then set_title t params
      else params
  | None => params
  end.

Definition manageFolding (parameterString : string)
  (params : CodeblockParameters) : CodeblockParameters :=
  if String.eqb parameterString "fold" then
    set_fold (mkFold true EmptyString) params
  else
    match exec re_quoted_text
            (JS.sslice parameterString (Z.of_nat (String.length "fold:")) None)
    with
    | Some foldPlaceholderMatch =>
        set_fold
          (mkFold true (JS.trim (group_or_empty foldPlaceholderMatch 2)))
          params
    | None => params
    end.

(** [/^\d+$/] *)
Definition re_all_digits : regex :=
  Cat [Bol; Plus true (Chr JS.is_digit); Eol].

Definition manageLineNumbering (parameterString : string)
  (params : CodeblockParameters) : CodeblockParameters :=
  let parameterString :=
    JS.sslice parameterString (Z.of_nat (String.length "ln:")) None in
  if test re_all_digits parameterString then
    match JS.parseInt parameterString with
    | Some n => set_lineNumbering (mkLineNumbers true false (n - 1)) params
    | None => params
    end
  else if String.eqb (JS.toLowerCase parameterString) "true" then
    set_lineNumbering (mkLineNumbers true false 0) params
  else if String.eqb (JS.toLowerCase parameterString) "false" then
    set_lineNumbering (mkLineNumbers false true 0) params
  else params.

Definition manageWrapping (parameterString : string)
  (params : CodeblockParameters) : CodeblockParameters :=
  if String.eqb parameterString "wrap" then
    set_lineUnwrap (mkLineUnwrap false true false) params
  else if String.eqb parameterString "unwrap" then
    set_lineUnwrap (mkLineUnwrap true false false) params
  else
    let parameterString :=
      JS.sslice parameterString (Z.of_nat (String.length "unwrap:")) None in
    if String.eqb (JS.toLowerCase parameterString) "inactive" then
      set_lineUnwrap (mkLineUnwrap true false true) params
    else if String.eqb (JS.toLowerCase parameterString) "true" then
      set_lineUnwrap (mkLineUnwrap true false false) params
    else if String.eqb (JS.toLowerCase parameterString) "false" then
      set_lineUnwrap (mkLineUnwrap false true false) params
    else params.

(** [/^(\w+)[:=](.+)$/] *)
Definition re_named_highlight : regex :=
  Cat [Bol; Group 1 (Plus true (Chr JS.is_word));
       Chr (JS.one_of [":"%char; "="%char]);
       Group 2 (Plus true Dot); Eol].
(** [/^{[\d-,]+}$/] *)
Definition re_braces : regex :=
  Cat [Bol; Lit1 "{";
       Plus true (Chr (fun c => JS.is_digit c
                                || JS.one_of ["-"%char; ","%char] c));
       Lit1 "}"; Eol].

(** The property names every object inherits: [name in obj] holds for
    them whatever the object's own keys. *)
Definition Object_prototype_names : list string :=
  ["constructor"; "hasOwnProperty"; "isPrototypeOf";
   "propertyIsEnumerable"; "toLocaleString"; "toString"; "valueOf";
   "__proto__"; "__defineGetter__"; "__defineSetter__";
   "__lookupGetter__"; "__lookupSetter__"].

Definition js_in (name : string) (keys : gset string) : bool :=
  bool_decide (name ∈ keys) || bool_decide (name ∈ Object_prototype_names).

(** [alternativeHighlights] stands for the keys of
    [theme.colours.light.highlights.alternativeHighlights]. *)
Definition addHighlights (parameterString : string)
  (codeblockParameters : CodeblockParameters)
  (alternativeHighlights : gset string) : CodeblockParameters :=
  match exec re_named_highlight parameterString with
  | Some highlightMatch =>
      let name := group_or_empty highlightMatch 1 in
      let rules := group_or_empty highlightMatch 2 in
      if String.eqb name "hl" then
        set_highlights_default (parseHighlightedLines rules)
          codeblockParameters
      else if js_in name alternativeHighlights then
        set_highlights_alternative name (parseHighlightedLines rules)
          codeblockParameters
      else codeblockParameters
  | None =>
      if test re_braces parameterString then
        set_highlights_default
          (parseHighlightedLines (JS.sslice parameterString 1 (Some (-1))))
          codeblockParameters
      else codeblockParameters
  end.

Definition parseCodeblockParameterString (parameterString : string)
  (params : CodeblockParameters) (alternativeHighlights : gset string)
  : CodeblockParameters :=
  if String.eqb parameterString "ignore" then set_ignore true params
  else if test (re_prefix "title" false) parameterString then
    manageTitle parameterString params
  else if test (re_prefix "ref" false) parameterString
          || test (re_prefix "reference" false) parameterString then
    manageReference parameterString params
  else if test (re_prefix "fold" true) parameterString then
    manageFolding parameterString params
  else if test (re_prefix "ln" false) parameterString then
    manageLineNumbering parameterString params
  else if test (re_prefix "unwrap" true) parameterString
          || String.eqb parameterString "wrap" then
    manageWrapping parameterString params
  else addHighlights parameterString params alternativeHighlights.

End Host.

(** *** Segmentation of a document into codeblocks *)

(** Leading white space and block quote markers: [\s*], then any number
    of [>] each followed by [\s*]. *)
Definition re_quote_prefix : regex :=
  Cat [Star true (Chr JS.is_space);
       Star true (Cat [Lit1 ">"; Star true (Chr JS.is_space)])].
(** A fence: three or more backticks, or three or more tildes. *)
Definition re_fence : regex :=
  Alt (Cat [Lit "``"; Plus true (Lit1 "`")])
      (Cat [Lit "~~"; Plus true (Lit1 "~")]).

(** The expression of [testOpeningLine]: [^], group 1 of the quote
    prefix, group 2 of the fence. *)
Definition re_opening : regex :=
  Cat [Bol; Group 1 re_quote_prefix; Group 2 re_fence].

Definition testOpeningLine (codeblockLine : string) : string :=
  match exec re_opening codeblockLine with
  | None => EmptyString
  | Some lineMatch =>
      let g1 := group_or_empty lineMatch 1 in
      let g2 := group_or_empty lineMatch 2 in
      if JS.indexOf codeblockLine g2
           (Z.of_nat (String.length g1) + Z.of_nat (String.length g2) + 1)
         =? -1
      then g2 else EmptyString
  end.

Definition getOpeningLine (codeblockLines : list string) : option string :=
  List.find (fun line => nonempty (testOpeningLine line)) codeblockLines.

(** The expression that extracts the opening delimiter: [^], the quote
    prefix, group 1 of the fence, [.*], [$]. *)
Definition re_open_delimiter : regex :=
  Cat [Bol; re_quote_prefix; Group 1 re_fence; Star true Dot; Eol].

(** The expression built for the closing fence from the delimiter [d]:
    [^], the quote prefix, [d], a negative look-ahead on the first
    character of [d], [$]. The delimiter is a run of backticks or of
    tildes, which stand for themselves in a pattern. *)
Definition re_close_delimiter (openDelimiter : string) : regex :=
  Cat [Bol; re_quote_prefix; Lit openDelimiter;
       Ahead true (match JS.chars openDelimiter with
                 | c :: _ => Lit1 c
                 | [] => Eps
                 end);
       Eol].

(** The admonition test: [^], the quote prefix, a fence, spaces, [ad-],
    [.*], [$]. *)
Definition re_admonition : regex :=
  Cat [Bol; re_quote_prefix; re_fence; Star true (Lit1 " "); Lit "ad-";
       Star true Dot; Eol].

(** [a.indexOf(x)] on an array of strings. *)
Definition array_indexOf (l : list string) (x : string) : Z :=
  JS.findIndex (String.eqb x) l.

(** [parseCodeblockSection], the local function of [parseCodeblockSource].
    The array [codeblocks] it pushes to is passed and returned. The
    recursion is on sections that get shorter, which the fuel counts;
    [None] is a run that exhausted it. *)
Fixpoint parseCodeblockSection (fuel : nat) (admonitions : bool)
  (codeSection : list string) (codeblocks : list (list string))
  : option (list (list string)) :=
  match fuel with
  | O => None
  | S fuel' =>
      if (length codeSection =? 0)%nat then Some codeblocks else
      match getOpeningLine codeSection with
      | None => Some codeblocks
      | Some openingCodeblockLine =>
          match exec re_open_delimiter openingCodeblockLine with
          | None => Some codeblocks
          | Some dm =>
              let openDelimiter := group_or_empty dm 1 in
              if negb (nonempty openDelimiter) then Some codeblocks else
              let openDelimiterIndex :=
                array_indexOf codeSection openingCodeblockLine in
              let closeDelimiterIndex :=
                JS.findIndex (test (re_close_delimiter openDelimiter))
                  (JS.slice codeSection (openDelimiterIndex + 1) None) in
              let pushed :=
                if negb admonitions
                   || negb (test re_admonition openingCodeblockLine)
                then
                  Some (codeblocks ++
                          [JS.slice codeSection 0
                             (Some (openDelimiterIndex + 2
                                    + closeDelimiterIndex))])
                else
                  parseCodeblockSection fuel' admonitions
                    (JS.slice codeSection (openDelimiterIndex + 1)
                       (Some (openDelimiterIndex + 1 + closeDelimiterIndex)))
                    codeblocks in
              match pushed with
              | None => None
              | Some codeblocks' =>
                  parseCodeblockSection fuel' admonitions
                    (JS.slice codeSection
                       (openDelimiterIndex + 1 + closeDelimiterIndex + 1)
                       None)
                    codeblocks'
              end
          end
      end
  end.

Definition arraysEqual (array1 array2 : list string) : bool :=
  (length array1 =? length array2)%nat
  && forallb (fun el => bool_decide (el ∈ array2)) array1.

(** [parseCodeblockSource]: the codeblock line groups handed to
    [parseCodeblocks], and the [nested] flag. [admonitions] tells whether
    the admonition plugin is installed. *)
Definition parseCodeblockSource (codeSection : list string)
  (admonitions : bool) : option (list (list string) * bool) :=
  match parseCodeblockSection (S (length codeSection)) admonitions
          codeSection [] with
  | None => None
  | Some codeblocks =>
      Some (codeblocks,
            match codeblocks with
            | first :: _ => negb (arraysEqual codeSection first)
            | [] => true
            end)
  end.

(** *** The parameter line of a codeblock *)

Definition set_language (l : string) (p : CodeblockParameters) :=
  mkParams l (title p) (reference p) (fold p) (lineNumbering p)
    (lineUnwrap p) (highlights_default p) (highlights_alternative p) (ignore p).

(** The fence that [parseCodeblockParameters] strips, for the backtick and
    for the tilde: [^], the character three times or more, and a look-ahead
    on a character that is not the fence character, or on the end. *)
Definition re_leading_fence (c : ascii) : regex :=
  Cat [Bol; Lit1 c; Lit1 c; Plus true (Lit1 c);
       Ahead false (Alt (Not (JS.is_char c)) Eol)].

(** The parameters between braces: [^], an opening brace, group 1 of
    [.+], a closing brace, spaces, [$]. *)
Definition re_rmd : regex :=
  Cat [Bol; Lit1 "{"; Group 1 (Plus true Dot); Lit1 "}";
       Star true (Lit1 " "); Eol].

(** One parameter: one or more of a link after [ref:], [reference:] or
    [title:] (a wiki link or a markdown link), a run of characters that
    are neither white space nor quotes, a text between double quotes, a
    text between single quotes. *)
Definition re_parameter : regex :=
  Plus true
    (Alt (Cat [Alt (Lit "ref") (Alt (Lit "reference") (Lit "title"));
               Lit1 ":";
               Alt (Cat [Lit "[["; Star false Dot; Lit "]]"])
                   (Cat [Lit1 "["; Star false Dot; Lit "](";
                         Plus true Dot; Lit1 ")"])])
    (Alt (Plus true (Not (fun c => JS.is_space c || JS.is_quote c)))
    (Alt (Cat [Lit1 JS.DQ; Star true (Not (JS.is_char JS.DQ)); Lit1 JS.DQ])
         (Cat [Lit1 JS.SQ; Star true (Not (JS.is_char JS.SQ));
               Lit1 JS.SQ])))).

(** A comma at the start or at the end: [^,] or [,$]. *)
Definition re_edge_comma : regex :=
  Alt (Cat [Bol; Lit1 ","]) (Cat [Lit1 ","; Eol]).

(** [parseCodeblockParameters]; as in [addHighlights], the theme is
    present by the names of its alternative highlights. *)
Definition parseCodeblockParameters
  (RegExp_new : string -> option (string -> bool)) (parameterLine : string)
  (alternativeHighlights : gset string) : CodeblockParameters :=
  let codeblockParameters := default_parameters in
  let stripped :=
    if JS.startsWith parameterLine "```" then
      Some (replace (re_leading_fence "`") parameterLine
              (fun _ => EmptyString))
    else if JS.startsWith parameterLine "~~~" then
      Some (replace (re_leading_fence "~") parameterLine
              (fun _ => EmptyString))
    else None in
  match stripped with
  | None => codeblockParameters
  | Some parameterLine =>
      let rmdMatch := exec re_rmd parameterLine in
      let parameterLine :=
        match rmdMatch with
        | Some mt => group_or_empty mt 1
        | None => parameterLine
        end in
      let languageBreak := JS.indexOf parameterLine " " 0 in
      let codeblockParameters :=
        set_language
          (JS.toLowerCase
             (JS.sslice parameterLine 0
                (Some (if negb (languageBreak =? -1) then languageBreak
                       else Z.of_nat (String.length parameterLine)))))
          codeblockParameters in
      if languageBreak =? -1 then codeblockParameters else
      let parameterLine := JS.sslice parameterLine (languageBreak + 1) None in
      let parameterLine :=
        match rmdMatch with
        | Some _ => "title:" +:+ parameterLine
        | None => parameterLine
        end in
      fold_left
        (fun params parameterString =>
           parseCodeblockParameterString RegExp_new
             (replace_all re_edge_comma parameterString
                (fun _ => EmptyString))
             params alternativeHighlights)
        (match_g re_parameter parameterLine) codeblockParameters
  end.

Definition trimParameterLine (parameterLine : string) : string :=
  JS.trim parameterLine.

(** The expression of [cleanParameterLine]: [^], any number of [>] each
    followed by white space, group 1 of the fence. *)
Definition re_quoted_fence : regex :=
  Cat [Bol; Star true (Cat [Lit1 ">"; Star true (Chr JS.is_space)]);
       Group 1 re_fence].

Definition cleanParameterLine (parameterLine : string) : string :=
  replace re_quoted_fence (trimParameterLine parameterLine)
    (fun mt => group_or_empty mt 1).

(** A block quote marker before the fence: [>], white space, a backtick or
    a tilde. *)
Definition re_quote_then_fence : regex :=
  Cat [Lit1 ">"; Star true (Chr JS.is_space);
       Chr (JS.one_of ["`"%char; "~"%char])].

(** [getParameterLine]; [None] is [undefined]. *)
Definition getParameterLine (codeblockLines : list string) : option string :=
  match getOpeningLine codeblockLines with
  | None => None
  | Some openingCodeblockLine =>
      if nonempty openingCodeblockLine
         && (negb (bool_decide (codeblockLines !! 0%nat
                                = Some openingCodeblockLine))
             || test re_quote_then_fence openingCodeblockLine)
      then Some (cleanParameterLine openingCodeblockLine)
      else Some openingCodeblockLine
  end.

End CodeblockParsing.

(* ================================================================= *)
(** ** Results and effects *)

(** What a [throw] carries: the constructor of the error and its message. *)
Inductive exn :=
| Error (msg : string)
| TypeError (msg : string)
| SyntaxError (msg : string).

(** The text of an error inside a template literal. *)
Definition exn_to_string (e : exn) : string :=
  match e with
  | Error msg => "Error: " +:+ msg
  | TypeError msg => "TypeError: " +:+ msg
  | SyntaxError msg => "SyntaxError: " +:+ msg
  end.

(** [error.message] *)
Definition exn_message (e : exn) : string :=
  match e with
  | Error msg => msg
  | TypeError msg => msg
  | SyntaxError msg => msg
  end.

Inductive result (A : Type) :=
| Ok (a : A)
| Throw (e : exn).
Arguments Ok {A} a.
Arguments Throw {A} e.

Global Instance result_ret : MRet result := @Ok.
Global Instance result_bind : MBind result :=
  fun A B f r =>
    match r with
    | Ok a => f a
    | Throw e => Throw e
    end.
Global Instance result_fmap : FMap result :=
  fun A B f r =>
    match r with
    | Ok a => Ok (f a)
    | Throw e => Throw e
    end.

(** A computation with effects on a state [S] (the files of the vault, the
    requests sent); a [throw] keeps the state reached. *)
Definition M (S A : Type) : Type := S -> result A * S.

Global Instance M_ret {S} : MRet (M S) := fun A a s => (Ok a, s).
Global Instance M_bind {S} : MBind (M S) :=
  fun A B f c s =>
    match c s with
    | (Ok a, s') => f a s'
    | (Throw e, s') => (Throw e, s')
    end.

Definition throw {S A} (e : exn) : M S A := fun s => (Throw e, s).
Definition get {S} : M S S := fun s => (Ok s, s).
Definition modify {S} (f : S -> S) : M S unit := fun s => (Ok tt, f s).
Definition lift {S A} (r : result A) : M S A := fun s => (r, s).
(** [try { c } catch (error) { h error }] *)
Definition try_catch {S A} (c : M S A) (h : exn -> M S A) : M S A :=
  fun s =>
    match c s with
    | (Ok a, s') => (Ok a, s')
    | (Throw e, s') => h e s'
    end.

(* ================================================================= *)
(** ** Reference parameters and remote content
    ([src/Parsing/ReferenceParsing.ts]) *)

Module ReferenceParsing.
Import Rx.

Definition LOCAL_PREFIX : string := "@/".

(** [LineIdentifier]: [null], a number, a string, or a [RegExp] object,
    recorded by its pattern source. *)
Inductive LineIdentifier :=
| LNull
| LNum (n : JS.jsnum)
| LStr (s : string)
| LRegExp (src : string).

Record ExtRefParams := mkExtRefParams {
  id : string;
  rawUrl : string;
  hostname : string;
  headers : gmap string string;
  ext_storePath : string
}.

Record RefParams := mkRefParams {
  path : string;
  storePath : string;
  language : string;
  start : LineIdentifier;
  end_ : LineIdentifier;
  external : option ExtRefParams
}.

(** [Partial<ExtRefMetadata>]: the fields that are set, by name; the two
    fields of [refInfo] are [refInfo.ref] and [refInfo.type]. *)
Record ExtRef := mkExtRef {
  ref_id : string;
  content : string;
  metadata : gmap string string;
  params : ExtRefParams
}.

(** A scalar of the YAML body: [start] and [end] are strings or numbers. *)
Inductive scalar :=
| SStr (s : string)
| SNum (n : JS.jsnum).

(** [ParsedParams]; a key that is absent or [null] is [None]. *)
Record ParsedParams := mkParsedParams {
  pp_filePath : option string;
  pp_file : option string;
  pp_path : option string;
  pp_link : option string;
  pp_language : option string;
  pp_lang : option string;
  pp_start : option scalar;
  pp_end : option scalar;
  pp_headers : option (gmap string string)
}.

Definition no_params : ParsedParams :=
  mkParsedParams None None None None None None None None None.

(** What [parseYaml] returns: [null], a string, a mapping read as
    [ParsedParams], or a value with none of its keys (a number, a boolean,
    a sequence). *)
Inductive yaml :=
| YNull
| YString (s : string)
| YMapping (p : ParsedParams)
| YOther.

(** The fields of a [URL] object the code reads. *)
Record URL := mkURL {
  protocol : string;
  url_hostname : string;
  pathname : string;
  search : string
}.

(** *** The scheme of a URL

    With no base URL, the URL parser fails on an input that does not
    start with a scheme: a letter, then letters, digits, [+], [-] and [.],
    then a colon. Before that it strips leading and trailing C0 control
    characters and spaces, and removes tabs and newlines. *)
Definition is_c0_or_space (c : ascii) : bool := (JS.code c <=? 32)%N.
Definition is_tab_or_newline (c : ascii) : bool :=
  (JS.code c =? 9)%N || (JS.code c =? 10)%N || (JS.code c =? 13)%N.

Fixpoint strip_start (l : list ascii) : list ascii :=
  match l with
  | c :: l' => if is_c0_or_space c then strip_start l' else l
  | [] => []
  end.

Definition url_input (s : string) : list ascii :=
  List.filter (fun c => negb (is_tab_or_newline c))
    (rev (strip_start (rev (strip_start (JS.chars s))))).

Definition is_scheme_char (c : ascii) : bool :=
  JS.is_alpha c || JS.is_digit c || JS.one_of ["+"%char; "-"%char; "."%char] c.

(** The scheme, lower-cased, and what follows its colon. *)
Definition split_scheme (input : list ascii)
  : option (string * string) :=
  match input with
  | c :: _ =>
      if JS.is_alpha c then
        let scheme := JS.take_while is_scheme_char input in
        match drop (length scheme) input with
        | ":"%char :: rest =>
            Some (JS.toLowerCase (JS.str scheme), JS.str rest)
        | _ => None
        end
      else None
  | [] => None
  end.

Section Host.

(** The host application and the platform. *)

(** [parseYaml] of the host; it throws on malformed YAML. *)
Variable parseYaml : string -> result yaml.
(** The URL parser after the scheme: given the scheme and the rest of
    the input, the host name, path and query, or a failure. *)
Variable URL_after_scheme : string -> string -> option (string * string * string).
(** [plugin.refContentPath], declared in the plugin's main module. *)
Variable refContentPath : string -> string.
(** [metadataCache.getFirstLinkpathDest(linkpath, sourcePath)?.path] *)
Variable getFirstLinkpathDest : string -> string -> option string.
(** [normalizePath] of the host and [extname] of the platform. *)
Variable normalizePath : string -> string.
Variable extname : string -> string.
(** [new RegExp(src)], as in [CodeblockParsing]. *)
Variable RegExp_new : string -> option (string -> bool).

(** [new URL(path)], with no base: [None] is the [TypeError] it
    throws. *)
Definition new_URL (input : string) : option URL :=
  match split_scheme (url_input input) with
  | None => None
  | Some (scheme, rest) =>
      match URL_after_scheme scheme rest with
      | Some (host, pathname, search) =>
          Some (mkURL (scheme +:+ ":") host pathname search)
      | None => None
      end
  end.

(** The first character of a relative path: [^], then any character but
    the less-than sign, colon, double quote, slash, backslash,
    greater-than sign, question mark, bar and star. *)
Definition re_relative_start : regex :=
  Cat [Bol;
       Not (JS.one_of ["<"%char; ":"%char; JS.DQ; "/"%char; "\"%char;
                       ">"%char; "?"%char; "|"%char; "*"%char])].

(** [a.pop()] on an array: the array without its last element, and
    whether there was one. *)
Definition pop {A} (l : list A) : list A * bool :=
  match l with
  | [] => ([], false)
  | _ => (removelast l, true)
  end.

(** The [while] loop of [getRelativePath]; one turn per [../]. The fuel
    bounds the turns by the length of the path. *)
Fixpoint climb (fuel : nat) (path : string) (vaultDirs : list string)
  : result (string * list string) :=
  match fuel with
  | O => Ok (path, vaultDirs)
  | S fuel' =>
      if JS.startsWith path "../" then
        match pop vaultDirs with
        | (_, false) =>
            Throw (Error ("Path references outside vault, too many "
                            +:+ String JS.DQ "../" +:+ String JS.DQ "s used"))
        | (vaultDirs', true) =>
            climb fuel' (JS.substring path 3 None) vaultDirs'
        end
      else Ok (path, vaultDirs)
  end.

Definition getRelativePath (path sourcePath : string) : result string :=
  let path :=
    if JS.startsWith path "./" then JS.substring path 2 None else path in
  let vaultDirs := fst (pop (JS.split sourcePath "/")) in
  '(path, vaultDirs) ← climb (String.length path) path vaultDirs;
  Ok (normalizePath (JS.join "/" (vaultDirs ++ [path]))).

(** [sourcePath] is a string at every call, so the test for a missing
    source path never holds and is left out. *)
Definition resolveLocalPath (path sourcePath : string) : result string :=
  let path := JS.trim path in
  if JS.startsWith path "[[" && JS.endsWith path "]]" then
    Ok (default path
          (getFirstLinkpathDest (JS.sslice path 2 (Some (-2))) sourcePath))
  else
    let path := JS.replace_first path "\" "/" in
    if JS.startsWith path LOCAL_PREFIX then Ok (JS.substring path 2 None)
    else if JS.startsWith path "./" || test re_relative_start path then
      getRelativePath path (JS.trim sourcePath)
    else if JS.startsWith path "/" then
      Throw (Error ("Path should not start with " +:+ String JS.DQ "/"
                      +:+ String JS.DQ ", use " +:+ String JS.DQ LOCAL_PREFIX
                      +:+ String JS.DQ
                      " to reference a path relative to the vault root folder"))
    else Throw (Error "Cannot resolve path").

Definition getLanguage (path : string) : string :=
  let path :=
    if JS.startsWith path "[[" && JS.endsWith path "]]"
    then JS.sslice path 2 (Some (-2)) else path in
  JS.sslice (extname path) 1 None.

(** The pattern between slashes of [CodeblockParsing], used again. *)
Definition re_slashes : regex := CodeblockParsing.re_slashes.
Definition unslash (s : string) : string :=
  replace re_slashes s (fun mt => group_or_empty mt 1).

Definition getLineIdentifier (lineIdentifier : option scalar)
  : result LineIdentifier :=
  match lineIdentifier with
  | None => Ok LNull
  | Some (SNum n) => Ok (LNum n)
  | Some (SStr lineIdentifier) =>
      if test re_slashes lineIdentifier then
        match RegExp_new (unslash lineIdentifier) with
        | Some _ => Ok (LRegExp (unslash lineIdentifier))
        | None => Throw (Error "Invalid Regular Expression")
        end
      else if test CodeblockParsing.re_double_quoted lineIdentifier
              || test CodeblockParsing.re_single_quoted lineIdentifier then
        Ok (LStr (JS.substring lineIdentifier 1
                    (Some (Z.of_nat (String.length lineIdentifier) - 1))))
      else if test CodeblockParsing.re_non_digit lineIdentifier then
        Ok (LStr lineIdentifier)
      else if test CodeblockParsing.re_digits lineIdentifier then
        match JS.parseInt lineIdentifier with
        | Some n => Ok (LNum (JS.of_Z n))
        | None => Ok (LNum JS.NaN)
        end
      else Ok LNull
  end.

(** The two rewrites of the body before it is parsed. The first puts a
    space after the colon of the first line: [^], group 1 of [[^:]+], a
    colon, group 2 of [.+], a newline. The second quotes a wiki link
    that has no double quote on either side. *)
Definition re_first_key : regex :=
  Cat [Bol; Group 1 (Plus true (Not (JS.is_char ":"))); Lit1 ":";
       Group 2 (Plus true Dot); Lit1 JS.LF].
Definition re_bare_wiki : regex :=
  Cat [Behind true (Lit1 JS.DQ); Lit "[["; Group 1 (Star false Dot);
       Lit "]]"; Ahead true (Lit1 JS.DQ)].

Definition prepare_source (source : string) : string :=
  let source :=
    replace re_first_key source
      (fun mt => group_or_empty mt 1 +:+ ": " +:+ group_or_empty mt 2
                 +:+ String JS.LF EmptyString) in
  replace re_bare_wiki source
    (fun mt => String JS.DQ "[[" +:+ group_or_empty mt 1 +:+ "]]"
               +:+ String JS.DQ EmptyString).

(** [a ?? b] *)
Definition orElse {A} (a b : option A) : option A :=
  match a with Some _ => a | None => b end.

Definition parseRefParams (source sourcePath : string) : result RefParams :=
  let source := prepare_source source in
  parsed ← parseYaml source;
  params ← match parsed with
           | YNull => Throw (Error "YAML Parse Error")
           | YString s =>
               if String.eqb s source then Throw (Error "YAML Parse Error")
               else Ok no_params
           | YMapping p => Ok p
           | YOther => Ok no_params
           end;
  match orElse (pp_filePath params)
          (orElse (pp_file params) (orElse (pp_path params) (pp_link params)))
  with
  | None => Throw (Error "No path specified")
  | Some path =>
      if String.eqb path EmptyString then Throw (Error "No path specified")
      else
        match new_URL path with
        | None => Throw (TypeError "Invalid URL")
        | Some url =>
            '(storePath, extRefParams) ←
              (if String.eqb (protocol url) "http:"
                  || String.eqb (protocol url) "https:" then
                 let id :=
                   JS.join "-"
                     (url_hostname url
                        :: JS.split (pathname url +:+ search url) "/") in
                 let storePath := refContentPath id in
                 Ok (storePath,
                     Some (mkExtRefParams id path (url_hostname url)
                             (default ∅ (pp_headers params)) storePath))
               else
                 storePath ← resolveLocalPath path sourcePath;
                 Ok (storePath, None));
            let language :=
              default (getLanguage path)
                (orElse (pp_language params) (pp_lang params)) in
            e ← getLineIdentifier (pp_end params);
            s ← getLineIdentifier (pp_start params);
            Ok (mkRefParams path storePath language s e extRefParams)
        end
  end.

(** *** Line limits *)

(** [startIndex] and [endIndex] of [getLineLimits], for one anchor. A
    [RegExp] object has no [startsWith] method, so the call on it is a
    [TypeError]; its message is the engine's, given here as V8 words it
    for the optional call of the source. *)
Definition anchor_index (lines : list string) (anchor : string)
  : result Z :=
  if JS.startsWith anchor "/" && JS.endsWith anchor "/" then
    match RegExp_new (unslash anchor) with
    | Some regex_test => Ok (JS.findIndex regex_test lines)
    | None => Throw (SyntaxError "Invalid regular expression")
    end
  else Ok (JS.findIndex (fun line => -1 <? JS.indexOf line anchor 0) lines).

Definition startIndex_of (lines : list string) (start : LineIdentifier)
  : result JS.jsnum :=
  match start with
  | LNull => Ok (JS.Num 0)
  | LNum n => Ok (JS.js_sub n 1)
  | LStr s => JS.Num <$> anchor_index lines s
  | LRegExp _ =>
      Throw (TypeError "params.start?.startsWith is not a function")
  end.

Definition endIndex_of (lines : list string) (startIndex : JS.jsnum)
  (end_ : LineIdentifier) : result JS.jsnum :=
  match end_ with
  | LNull => Ok (JS.Num (Z.of_nat (length lines) - 1))
  | LNum n => Ok (JS.js_sub n 1)
  | LStr s =>
      if JS.startsWith s "/" && JS.endsWith s "/" then
        JS.Num <$> anchor_index lines s
      else if JS.startsWith s "+" then
        Ok (JS.js_add startIndex (JS.Number (JS.sslice s 1 None)))
      else JS.Num <$> anchor_index lines s
  | LRegExp _ => Throw (TypeError "params.end?.startsWith is not a function")
  end.

Record LineLimits := mkLineLimits {
  codeSection : string;
  startLine : JS.jsnum
}.

Definition getLineLimits (codeContent : string) (params : RefParams)
  : result LineLimits :=
  let lines := JS.split codeContent JS.LF in
  startIndex ← startIndex_of lines (start params);
  endIndex ← endIndex_of lines startIndex (end_ params);
  if JS.js_lt endIndex startIndex then
    Throw (Error "Specified Start line is after the specified End line")
  else if JS.js_eq startIndex (-1) then
    Throw (Error "Start line could not be found")
  else if JS.js_eq endIndex (-1) then
    Throw (Error "End line could not be found")
  else
    Ok (mkLineLimits
          (JS.join (String JS.LF EmptyString)
             (JS.slice_num lines startIndex (JS.js_add endIndex 1)))
          (JS.js_add startIndex 1)).

(** *** Fetching remote content *)

(** A request as [requestUrl] takes it; [request(url)] is the request
    for [url] with method [GET] and no header of its own. *)
Record Request := mkRequest {
  url : string;
  method : string;
  req_headers : gmap string string
}.

(** The network: the JSON body [requestUrl] answers with, its fields
    by name ([commit.author.date] for a nested one), and the text
    [request] answers with; either can throw. *)
Variable requestUrl_json : Request -> result (gmap string string).
Variable request_text : string -> result string.
(** [decodeURIComponent(escape(atob(x)))] for the field [x] of the
    answer, which may be missing. *)
Variable decodeContent : option string -> result string.
(** [timeStamp()], the local time of the call. *)
Variable timeStamp : string.

(** The state of a fetch is the list of the requests sent so far. *)
Definition requestUrl (r : Request) : M (list Request) (gmap string string) :=
  _ ← modify (fun sent => sent ++ [r]);
  lift (requestUrl_json r).

Definition request (u : string) : M (list Request) string :=
  _ ← modify (fun sent => sent ++ [mkRequest u "GET" ∅]);
  lift (request_text u).

(** [{ ...base, ...extra }]: the keys of [extra] win. *)
Definition spread (base extra : gmap string string) : gmap string string :=
  extra ∪ base.

(** A field of a metadata object that may be [undefined]. *)
Definition field (name : string) (v : option string)
  (o : gmap string string) : gmap string string :=
  match v with
  | Some x => <[name := x]> o
  | None => o
  end.

Definition not_slash (c : ascii) : bool := negb (JS.is_char "/" c).

(** The expression of [fetchGitHubSCM]: the owner, the repository, the
    ref and the path of a GitHub URL are its groups 1 to 4. *)
Definition re_github : regex :=
  Cat [Bol; Lit "http"; Opt (Lit1 "s"); Lit "://"; Opt (Lit "raw.");
       Lit "github"; Opt (Lit "usercontent"); Lit ".com/";
       Group 1 (Plus true (Chr not_slash)); Lit1 "/";
       Group 2 (Plus true (Chr not_slash)); Lit1 "/";
       Opt (Alt (Lit "blob/") (Lit "raw/"));
       Opt (Cat [Lit "refs/"; Alt (Lit "heads") (Lit "tags"); Lit1 "/"]);
       Group 3 (Plus true (Chr not_slash)); Lit1 "/";
       Group 4 (Plus true Dot); Eol].

(** The headers [fetchGitHubSCM] sends with both of its requests. *)
Definition GitHub_HEADERS (params : ExtRefParams) : gmap string string :=
  spread
    (<["Accept" := "application/vnd.github+json"]>
       (<["X-GitHub-Api-Version" := "2022-11-28"]>
          (<["User-Agent" := "Obsidian-Code-Styler"]> ∅)))
    (headers params).

Definition fetchGitHubSCM (params : ExtRefParams)
  : M (list Request) ExtRef :=
  let host := "https://api.github.com" in
  match exec re_github (rawUrl params) with
  | None => throw (Error "invalid GitHub url")
  | Some partial =>
      let owner := group_or_empty partial 1 in
      let repo := group_or_empty partial 2 in
      let ref := group_or_empty partial 3 in
      let path := group_or_empty partial 4 in
      let HEADERS := GitHub_HEADERS params in
      content ← requestUrl
        (mkRequest
           (host +:+ "/repos/" +:+ owner +:+ "/" +:+ repo +:+ "/contents/"
              +:+ path +:+ "?ref=" +:+ ref)
           "GET" HEADERS);
      commit ← requestUrl
        (mkRequest
           (host +:+ "/repos/" +:+ owner +:+ "/" +:+ repo +:+ "/commits/"
              +:+ ref)
           "GET" HEADERS);
      text ← lift (decodeContent (content !! "content"));
      mret (mkExtRef (id params) text
              (field "site" (Some "github")
              (field "title" (content !! "name")
              (field "datetime"
                 (Some (default timeStamp (commit !! "commit.author.date")))
              (field "displayUrl" (content !! "html_url")
              (field "author" (commit !! "commit.author.name")
              (field "repository" (Some repo)
              (field "path" (content !! "path")
              (field "refInfo.ref" (Some ref)
              (field "refInfo.type" (Some "tree") ∅)))))))))
              params)
  end.

(** The three expressions of the GitLab branch: [raw] between slashes
    after [gitlab.com/.*/.*/]; the author, the text between
    [^https?://gitlab.com/] and the next slash; the repository, the text
    one path segment further. The dot of [gitlab.com] is unescaped in
    all three. *)
Definition re_gitlab_host : regex :=
  Cat [Bol; Lit "http"; Opt (Lit1 "s"); Lit "://gitlab"; Dot; Lit "com/"].
Definition re_gitlab_raw : regex :=
  Cat [Behind false
         (Cat [Lit "gitlab"; Dot; Lit "com/"; Star true Dot; Lit1 "/";
               Star true Dot; Lit1 "/"]);
       Lit "raw"; Ahead false (Lit1 "/")].
Definition re_gitlab_author : regex :=
  Cat [Behind false re_gitlab_host; Star false Dot; Ahead false (Lit1 "/")].
Definition re_gitlab_repository : regex :=
  Cat [Behind false (Cat [re_gitlab_host; Star false Dot; Lit1 "/"]);
       Star false Dot; Ahead false (Lit1 "/")].

Definition matched_or_empty (r : regex) (s : string) : string :=
  match exec r s with
  | Some mt => JS.str (matched mt)
  | None => EmptyString
  end.

Definition with_rawUrl (u : string) (params : ExtRefParams) : ExtRefParams :=
  mkExtRefParams (id params) u (hostname params) (headers params)
    (ext_storePath params).

(** [_fetchExtRef]. The GitLab branch assigns to [params.rawUrl]; the
    object is the one the result and the caller hold, so the result
    carries the updated parameters. *)
Definition _fetchExtRef (params : ExtRefParams) : M (list Request) ExtRef :=
  try_catch
    (if String.eqb (hostname params) "github.com"
        || String.eqb (hostname params) "raw.githubusercontent.com"
     then fetchGitHubSCM params
     else
       let HEADERS :=
         spread
           (<["Accept" := "application/json"]>
              (<["Content-Type" := "application/json"]> ∅))
           (headers params) in
       if String.eqb (hostname params) "gitlab.com" then
         let params :=
           with_rawUrl
             (replace re_gitlab_raw
                (default EmptyString (JS.split (rawUrl params) "?" !! 0%nat))
                (fun _ => "blob"))
             params in
         info ← requestUrl (mkRequest (rawUrl params) "GET" HEADERS);
         text ← request ("https://gitlab.com"
                           +:+ default "undefined" (info !! "raw_path"));
         mret (mkExtRef (id params) text
                 (field "title" (info !! "name")
                 (field "datetime" (Some timeStamp)
                 (field "displayUrl" (Some (rawUrl params))
                 (field "author"
                    (Some (matched_or_empty re_gitlab_author (rawUrl params)))
                 (field "repository"
                    (Some (matched_or_empty re_gitlab_repository
                             (rawUrl params)))
                 (field "path" (info !! "path")
                 (field "refInfo.ref" (Some EmptyString)
                 (field "refInfo.type" (Some EmptyString) ∅))))))))
                 params)
       else
         (* bitbucket.org, sourceforge.com and every other host *)
         text ← request (rawUrl params);
         mret (mkExtRef (id params) text
                 (field "datetime" (Some timeStamp) ∅) params))
    (fun error =>
       throw (Error ("Could not fetch external URL: "
                       +:+ exn_to_string error))).

End Host.

End ReferenceParsing.

(* ================================================================= *)
(** ** The reference cache ([src/Referencing.ts]) *)

Module Referencing.
Import ReferenceParsing.

Record IdCache := mkIdCache {
  sourcePaths : list string;
  extRefParams : ExtRefParams
}.

(** [Cache] is [Record<string, IdCache>]: a [gmap string IdCache].

    The world the referencing code acts on: the files of the vault by
    path; the metadata files, by path, as the objects they hold; the cache
    file as the [Cache] it parses to ([None] when it is missing or is not
    the JSON of a cache); and the requests sent over the network. *)
Record World := mkWorld {
  vault : gmap string string;
  metadataFiles : gmap string (gmap string string);
  cacheFile : option (gmap string IdCache);
  sent : list Request
}.

Section Host.

Variable requestUrl_json : Request -> result (gmap string string).
Variable request_text : string -> result string.
Variable decodeContent : option string -> result string.
Variable timeStamp : string.
(** [plugin.refMetadataPath], declared in the plugin's main module. *)
Variable refMetadataPath : string -> string.

(** [plugin.app.vault.adapter.exists] and [read]. *)
Definition adapter_exists (path : string) : M World bool :=
  w ← get; mret (bool_decide (is_Some (vault w !! path))).

Definition adapter_read (path : string) : M World string :=
  w ← get;
  match vault w !! path with
  | Some text => mret text
  | None => throw (Error ("ENOENT: no such file or directory, open '"
                            +:+ path +:+ "'"))
  end.

(** Modelled from the spec: [plugin.update(path, data)] is declared in
    the plugin's main module, which is not among the sources; the
    specification has the content of a reference, its metadata and the
    cache persisted as a whole at their paths. *)
Definition update_content (path text : string) : M World unit :=
  modify (fun w => mkWorld (<[path := text]> (vault w)) (metadataFiles w)
                     (cacheFile w) (sent w)).

(** The same for a metadata object, and for the cache ([writeCache] passes
    the cache to [plugin.update]). *)
Definition update_metadata (path : string) (data : gmap string string)
  : M World unit :=
  modify (fun w => mkWorld (vault w) (<[path := data]> (metadataFiles w))
                     (cacheFile w) (sent w)).

Definition writeCache (cache : gmap string IdCache) : M World unit :=
  modify (fun w => mkWorld (vault w) (metadataFiles w) (Some cache) (sent w)).

(** [readCache]: the parsed cache file, or the empty cache when reading
    or parsing it throws. *)
Definition readCache : M World (gmap string IdCache) :=
  w ← get; mret (default ∅ (cacheFile w)).

Definition readExtRefMetadata (id : string) : M World (gmap string string) :=
  w ← get; mret (default ∅ (metadataFiles w !! refMetadataPath id)).

(** A fetch runs on the list of requests of the world. *)
Definition network {A} (c : M (list Request) A) : M World A :=
  fun w =>
    let '(r, sent') := c (sent w) in
    (r, mkWorld (vault w) (metadataFiles w) (cacheFile w) sent').

Definition updateExtRef (params : ExtRefParams) : M World ExtRef :=
  ref ← network (_fetchExtRef requestUrl_json request_text decodeContent
                   timeStamp params);
  _ ← update_content (ext_storePath params) (content ref);
  _ ← update_metadata (refMetadataPath (id params)) (metadata ref);
  mret ref.

Definition push_sourcePath (sourcePath : string) (entry : IdCache) : IdCache :=
  mkIdCache (sourcePaths entry ++ [sourcePath]) (extRefParams entry).

(** [fetchExtRef]. After [updateExtRef] the object [params] is the one
    the fetch may have assigned to, which the result holds. *)
Definition fetchExtRef (params : ExtRefParams) (sourcePath : string)
  : M World ExtRef :=
  present ← adapter_exists (ext_storePath params);
  ref ← (if negb present then updateExtRef params
         else
           text ← adapter_read (ext_storePath params);
           data ← readExtRefMetadata (id params);
           mret (mkExtRef (id params) text data params));
  let params := ReferenceParsing.params ref in
  cache ← readCache;
  _ ← (if negb (match cache !! id params with
                | Some entry => bool_decide (sourcePath ∈ sourcePaths entry)
                | None => false
                end)
       then
         let cache :=
           match cache !! id params with
           | None => <[id params := mkIdCache [] params]> cache
           | Some _ => cache
           end in
         let cache := alter (push_sourcePath sourcePath) (id params) cache in
         writeCache cache
       else mret tt);
  mret ref.

End Host.

(** *** Reference blocks and the collection of the cache *)

(** [Ref], declared in [src/Parsing/ReferenceParsing.ts]: what a reference
    block renders to. *)
Record Ref := mkRef {
  code : string;
  ref_startLine : JS.jsnum;
  ref_language : string;
  ref_path : string;
  ref_external : option ExtRef
}.

(** A section of a note as the host's metadata cache describes it: its
    type, its first line and its last line. *)
Record SectionCache := mkSectionCache {
  section_type : string;
  start_line : Z;
  end_line : Z
}.

(** [ReferenceByFile] is [Record<string, string[]>]; its keys are kept in
    the order of their insertion, which [Object.keys] follows. A source
    path is the path of a note, and none of the property names an object
    inherits. *)
Definition ReferenceByFile : Type := list (string * list string).

(** [s.includes(sub)] *)
Definition includes (s sub : string) : bool :=
  negb (JS.indexOf s sub 0 =? -1).

(** A loop whose body can throw. *)
Fixpoint foldM {A B} (f : A -> B -> result A) (l : list B) (a : A)
  : result A :=
  match l with
  | [] => Ok a
  | x :: l' => a' ← f a x; foldM f l' a'
  end.

(** The body of the [forEach] of [cacheToReferencesByFile]. *)
Fixpoint add_reference (result : ReferenceByFile) (sourcePath id : string)
  : ReferenceByFile :=
  match result with
  | [] => [(sourcePath, [id])]
  | (key, ids) :: rest =>
      if String.eqb key sourcePath then (key, ids ++ [id]) :: rest
      else (key, ids) :: add_reference rest sourcePath id
  end.

(** [cacheToReferencesByFile], on the keys of the cache with their values,
    in the order of [Object.keys]. *)
Definition cacheToReferencesByFile (cache : list (string * IdCache))
  : ReferenceByFile :=
  fold_left
    (fun result '(id, entry) =>
       fold_left (fun result sourcePath => add_reference result sourcePath id)
         (sourcePaths entry) result)
    cache [].

(** The body of the [forEach] of [refsByFileToCache]. Reading
    [cache[id].extRefParams] for an [id] the cache does not have is a
    [TypeError]. *)
Definition add_sourcePath (cache : gmap string IdCache) (sourcePath : string)
  (newCache : gmap string IdCache) (id : string)
  : result (gmap string IdCache) :=
  match newCache !! id with
  | None =>
      match cache !! id with
      | Some entry =>
          Ok (<[id := mkIdCache [sourcePath] (extRefParams entry)]> newCache)
      | None =>
          Throw (TypeError
                   "Cannot read properties of undefined (reading 'extRefParams')")
      end
  | Some entry =>
      if negb (bool_decide (sourcePath ∈ sourcePaths entry))
      then Ok (<[id := push_sourcePath sourcePath entry]> newCache)
      else Ok newCache
  end.

Definition refsByFileToCache (refsByFile : ReferenceByFile)
  (cache : gmap string IdCache) : result (gmap string IdCache) :=
  foldM
    (fun newCache '(sourcePath, ids) =>
       foldM (add_sourcePath cache sourcePath) ids newCache)
    refsByFile ∅.

Section Documents.

(** The host, as above and in [ReferenceParsing]. *)
Variable parseYaml : string -> result yaml.
Variable URL_after_scheme : string -> string -> option (string * string * string).
Variable refContentPath : string -> string.
Variable getFirstLinkpathDest : string -> string -> option string.
Variable normalizePath : string -> string.
Variable extname : string -> string.
Variable RegExp_new : string -> option (string -> bool).
Variable requestUrl_json : Request -> result (gmap string string).
Variable request_text : string -> result string.
Variable decodeContent : option string -> result string.
Variable timeStamp : string.
Variable refMetadataPath : string -> string.
(** [REF_CODEBLOCK], declared in the plugin's settings module: the
    language name of a reference block. *)
Variable REF_CODEBLOCK : string.
(** [metadataCache.getCache(sourcePath)?.sections ?? []] *)
Variable sections : string -> list SectionCache.
(** The keys of a cache read from its file, each with its value, in the
    order of [Object.keys]; the map does not record that order. *)
Variable Object_entries : gmap string IdCache -> list (string * IdCache).

(** [getRef]. Everything thrown inside is caught and turned into a
    notice. *)
Definition getRef (lines : list string) (sourcePath : string) : M World Ref :=
  try_catch
    (params ← lift (parseRefParams parseYaml URL_after_scheme refContentPath
                      getFirstLinkpathDest normalizePath extname RegExp_new
                      (JS.join (String JS.LF EmptyString)
                         (JS.slice lines 1 (Some (-1))))
                      sourcePath);
     extRef ← match external params with
              | Some ext =>
                  ref ← fetchExtRef requestUrl_json request_text decodeContent
                          timeStamp refMetadataPath ext sourcePath;
                  mret (Some ref)
              | None => mret None
              end;
     present ← adapter_exists (storePath params);
     _ ← (if negb present
          then throw (Error ("Local file '" +:+ storePath params
                               +:+ "' not exist"))
          else mret tt);
     text ← adapter_read (storePath params);
     let content := JS.trim text in
     sectionInfo ← lift (getLineLimits RegExp_new content params);
     first ← match lines !! 0%nat with
             | Some line => mret line
             | None =>
                 throw (TypeError
                          "Cannot read properties of undefined (reading 'substring')")
             end;
     mret (mkRef
             ("```" +:+ language params +:+ " "
                +:+ JS.trim (JS.substring first
                               (Z.of_nat (String.length REF_CODEBLOCK)) None)
                +:+ String JS.LF EmptyString +:+ codeSection sectionInfo
                +:+ String JS.LF EmptyString +:+ "```")
             (startLine sectionInfo) (language params) (path params) extRef))
    (fun error =>
       mret (mkRef
               ("> [!error] "
                  +:+ Rx.replace_all (Rx.Lit1 JS.LF) (exn_message error)
                        (fun _ => String JS.LF ">"))
               1 EmptyString EmptyString None)).

(** [getFileContentLines], declared in [src/Parsing/CodeblockParsing.ts]. *)
Definition getFileContentLines (sourcePath : string)
  : M World (list string) :=
  text ← adapter_read sourcePath;
  mret (JS.split text JS.LF).

(** The [for] loop of [getFileExtRefParams] over the sections. *)
Fixpoint scan_sections (lines : list string) (sourcePath : string)
  (secs : list SectionCache) (refs : list ExtRefParams)
  : result (list ExtRefParams) :=
  match secs with
  | [] => Ok refs
  | section :: secs' =>
      if negb (String.eqb (section_type section) "code") then
        scan_sections lines sourcePath secs' refs
      else
        let codeblockLines :=
          JS.slice lines (start_line section) (Some (end_line section))
            ++ [EmptyString] in
        let first := default EmptyString (codeblockLines !! 0%nat) in
        if negb (includes first "```reference")
           && negb (includes first "~~~reference") then
          scan_sections lines sourcePath secs' refs
        else
          params ← parseRefParams parseYaml URL_after_scheme refContentPath
                     getFirstLinkpathDest normalizePath extname RegExp_new
                     (JS.join (String JS.LF EmptyString)
                        (JS.slice codeblockLines 1 (Some (-1))))
                     sourcePath;
          scan_sections lines sourcePath secs'
            (match external params with
             | Some ext => refs ++ [ext]
             | None => refs
             end)
  end.

Definition getFileExtRefParams (sourcePath : string)
  : M World (list ExtRefParams) :=
  lines ← getFileContentLines sourcePath;
  lift (scan_sections lines sourcePath (sections sourcePath) []).

(** Modelled from the spec: [plugin.delete(path)] is declared in the
    plugin's main module, which is not among the sources; the
    specification has the content and the metadata files of a reference
    deleted from the disk. *)
Definition plugin_delete (path : string) : M World unit :=
  modify (fun w => mkWorld (delete path (vault w))
                     (delete path (metadataFiles w)) (cacheFile w) (sent w)).

(** The first loop of [cleanExternalReferencedFiles]: for each key of
    [refsByFile], in order, the note is read again and its list is
    filtered. *)
Fixpoint rescan (refsByFile : ReferenceByFile) : M World ReferenceByFile :=
  match refsByFile with
  | [] => mret []
  | (sourcePath, ids) :: rest =>
      params ← getFileExtRefParams sourcePath;
      let extRefIds := map id params in
      rest' ← rescan rest;
      mret ((sourcePath,
             List.filter (fun id => bool_decide (id ∈ extRefIds)) ids)
              :: rest')
  end.

(** Its second loop, over the keys of the old cache. *)
Fixpoint sweep (ids : list string) (newCache : gmap string IdCache)
  : M World unit :=
  match ids with
  | [] => mret tt
  | id :: rest =>
      _ ← (if bool_decide (is_Some (newCache !! id)) then mret tt
           else
             _ ← plugin_delete (refContentPath id);
             plugin_delete (refMetadataPath id));
      sweep rest newCache
  end.

Definition cleanExternalReferencedFiles : M World unit :=
  cache ← readCache;
  let refsByFile := cacheToReferencesByFile (Object_entries cache) in
  refsByFile ← rescan refsByFile;
  newCache ← lift (refsByFileToCache refsByFile cache);
  _ ← sweep (map fst (Object_entries cache)) newCache;
  writeCache newCache.

(** The loop of [updateExternalReferencedFiles]. The object [ref] is the
    one the fetch may have assigned to; assigning to a property of
    [cache[ref.id]] when the cache does not have the key is a
    [TypeError]. *)
Fixpoint refresh (refs : list ExtRefParams) (cache : gmap string IdCache)
  : M World (gmap string IdCache) :=
  match refs with
  | [] => mret cache
  | ref :: rest =>
      fetched ← updateExtRef requestUrl_json request_text decodeContent
                  timeStamp refMetadataPath ref;
      match cache !! id ref with
      | None =>
          throw (TypeError
                   "Cannot set properties of undefined (setting 'extRefParams')")
      | Some entry =>
          refresh rest
            (<[id ref := mkIdCache (sourcePaths entry) (params fetched)]> cache)
      end
  end.

(** [updateExternalReferencedFiles]; its last call renders the reading
    view again, which does not touch the files. *)
Definition updateExternalReferencedFiles (sourcePath : option string)
  : M World unit :=
  _ ← cleanExternalReferencedFiles;
  cache ← readCache;
  refs ← match sourcePath with
         | Some sourcePath => getFileExtRefParams sourcePath
         | None => mret (map (fun e => extRefParams (snd e))
                           (Object_entries cache))
         end;
  cache ← refresh refs cache;
  writeCache cache.

End Documents.

End Referencing.

(* ================================================================= *)
(** * Auxiliary definitions *)

(** A decimal numeral, as a highlight rule writes a line number, and the
    number it denotes. *)
Definition numeral (s : string) : Prop :=
  s <> EmptyString /\ forallb JS.is_digit (JS.chars s) = true.

Definition value (s : string) : Z := JS.digits_val (JS.chars s).

(** A text between double quotes. *)
Definition quoted (s : string) : string :=
  String JS.DQ (s +:+ String JS.DQ EmptyString).

(** The opening line of a section and the delimiter read from it, when
    [parseCodeblockSection] gets past its three early returns. *)
Definition opening (codeSection : list string) : option (string * string) :=
  if (length codeSection =? 0)%nat then None else
  match CodeblockParsing.getOpeningLine codeSection with
  | None => None
  | Some line =>
      match Rx.exec CodeblockParsing.re_open_delimiter line with
      | None => None
      | Some dm =>
          if CodeblockParsing.nonempty (Rx.group_or_empty dm 1)
          then Some (line, Rx.group_or_empty dm 1)
          else None
      end
  end.

(** The index of the closing fence for the delimiter [d], counted from the
    line after the opening line; [-1] when there is none. *)
Definition close_index (s : list string) (line d : string) : Z :=
  JS.findIndex (Rx.test (CodeblockParsing.re_close_delimiter d))
    (JS.slice s (CodeblockParsing.array_indexOf s line + 1) None).

(** In the words of the specification, the input is itself exactly one
    top-level codeblock: its first line opens a codeblock, and its last
    line is the first line after it that closes the delimiter. This is the
    specification's reading of [nested = false], not a function of the
    source. *)
Definition exactly_one_codeblock (codeSection : list string) : bool :=
  match codeSection with
  | line :: body =>
      match opening [line] with
      | Some (_, d) =>
          (0 <? length body)%nat
          && (JS.findIndex (Rx.test (CodeblockParsing.re_close_delimiter d))
                body
              =? Z.of_nat (length body) - 1)
      | None => false
      end
  | [] => false
  end.


(** The [id] of an external reference, from the URL alone. *)
Definition id_of_URL (u : ReferenceParsing.URL) : string :=
  JS.join "-"
    (ReferenceParsing.url_hostname u
       :: JS.split (ReferenceParsing.pathname u +:+ ReferenceParsing.search u)
            "/").

(** The cache as [readCache] sees it. *)
Definition cache_of (w : Referencing.World) : gmap string Referencing.IdCache :=
  default ∅ (Referencing.cacheFile w).

(** The value of a result that is not a [Throw]. *)
Definition ok_or {A} (d : A) (r : result A) : A :=
  match r with
  | Ok a => a
  | Throw _ => d
  end.

(** A number whose integer arithmetic is that of the code: an integer
    is at most [2 ^ 53] in absolute value; the other numbers are doubles as
    they are. *)
Definition exact_number (x : JS.jsnum) : Prop :=
  match x with
  | JS.Num z => Z.abs z <= 2 ^ 53
  | _ => True
  end.

(** A path that climbs [n] directories: [n] times [../] before [rest]. *)
Definition climbing (n : nat) (rest : string) : string :=
  Nat.iter n (fun s => "../" +:+ s) rest.

(** A name that holds no slash. *)
Definition segment (s : string) : Prop :=
  forallb (fun c => negb (Ascii.eqb c "/")) (JS.chars s) = true.

(** The parameters of a codeblock agree with each other: line numbers are
    not both forced on and off, nor is unwrapping; wrapping on hover comes
    with unwrapping; an offset and a fold placeholder come with line
    numbers forced on and with folding. *)
Definition consistent (p : CodeblockParsing.CodeblockParameters) : Prop :=
  let ln := CodeblockParsing.lineNumbering p in
  let un := CodeblockParsing.lineUnwrap p in
  let fd := CodeblockParsing.fold p in
  (CodeblockParsing.alwaysEnabled ln = true ->
   CodeblockParsing.alwaysDisabled ln = false)
  /\ (CodeblockParsing.offset ln <> 0 ->
      CodeblockParsing.alwaysEnabled ln = true)
  /\ (CodeblockParsing.unwrapEnabled un = true ->
      CodeblockParsing.unwrapDisabled un = false)
  /\ (CodeblockParsing.activeWrap un = true ->
      CodeblockParsing.unwrapEnabled un = true)
  /\ (CodeblockParsing.placeholder fd <> EmptyString ->
      CodeblockParsing.enabled fd = true).

(** Highlights that hold no line number and no plain text twice. *)
Definition duplicate_free (h : CodeblockParsing.Highlights) : Prop :=
  NoDup (CodeblockParsing.lineNumbers h)
  /\ NoDup (CodeblockParsing.plainText h).

(** A fence of three characters, and a language name as it follows such
    a fence: free of spaces, and starting neither with the fence character
    nor with an opening brace. *)
Definition fence3 (c : ascii) : string :=
  String c (String c (String c EmptyString)).

Definition language_name (c : ascii) (lang : string) : Prop :=
  forallb (fun x => negb (Ascii.eqb x " ")) (JS.chars lang) = true
  /\ match JS.chars lang with
     | x :: _ => x <> c /\ x <> "{"%char
     | [] => True
     end.

(** A line inside [n] block quotes: [n] times the marker [> ] before
    it. *)
Definition block_quoted (n : nat) (line : string) : string :=
  Nat.iter n (fun s => "> " +:+ s) line.

(** A parameter as it stands between spaces: not empty, with no white
    space, quote or opening bracket in it, and no comma at its ends. *)
Definition plain_parameter (t : string) : Prop :=
  t <> EmptyString
  /\ forallb (fun c => negb (JS.is_space c || JS.is_quote c
                             || Ascii.eqb c "["))
       (JS.chars t) = true
  /\ JS.startsWith t "," = false
  /\ JS.endsWith t "," = false.

(** The edges of a [ReferenceByFile]: the note [d] lists the reference
    [i]. *)
Definition lists_reference (refsByFile : Referencing.ReferenceByFile)
  (d i : string) : Prop :=
  exists ids, (d, ids) ∈ refsByFile /\ i ∈ ids.

(** A cache [newCache] built from the edges [P] and the parameters of
    [cache]: an entry lists, once each, the notes that [P] relates to its
    reference, at least one, and has the parameters of the entry of
    [cache]; a reference with no note has no entry. *)
Definition built_from (cache newCache : gmap string Referencing.IdCache)
  (P : string -> string -> Prop) : Prop :=
  forall i,
    match newCache !! i with
    | Some e' =>
        NoDup (Referencing.sourcePaths e')
        /\ Referencing.sourcePaths e' <> []
        /\ (forall d, d ∈ Referencing.sourcePaths e' <-> P d i)
        /\ exists e, cache !! i = Some e
                     /\ Referencing.extRefParams e'
                        = Referencing.extRefParams e
    | None => forall d, ~ P d i
    end.

(** A text with every slash turned into a dash. *)
Definition dashed (s : string) : string :=
  JS.str (map (fun c => if Ascii.eqb c "/" then "-"%char else c) (JS.chars s)).

(* ================================================================= *)
(** * Sample inputs *)

(** A caller who sets [Accept] on a GitHub reference. *)
Definition accept_plain : ReferenceParsing.ExtRefParams :=
  ReferenceParsing.mkExtRefParams "github.com--o-r-blob-main-f.py"
    "https://github.com/o/r/blob/main/f.py" "github.com"
    {["Accept" := "text/plain"]} "refs/github.com--o-r-blob-main-f.py".

(** ... and one who sets no header. *)
Definition no_header : ReferenceParsing.ExtRefParams :=
  ReferenceParsing.mkExtRefParams "github.com--o-r-blob-main-f.py"
    "https://github.com/o/r/blob/main/f.py" "github.com"
    ∅ "refs/github.com--o-r-blob-main-f.py".

(** A network that answers every request with an empty body. *)
Definition quiet_fetch (params : ReferenceParsing.ExtRefParams) :=
  ReferenceParsing._fetchExtRef (fun _ => Ok ∅) (fun _ => Ok EmptyString)
    (fun _ => Ok EmptyString) "2026-01-01 00:00" params [].

(** The rule list of the specification's example, as the value of [hl:]
    and between braces. *)
Definition example_rules : string :=
  "2-4,/foo.*/," +:+ quoted "bar" +:+ ",7".
Definition example_hl_token : string := "hl:" +:+ example_rules.
Definition example_brace_token : string := "{" +:+ example_rules +:+ "}".

(** A platform on which every pattern compiles. *)
Definition any_pattern : string -> option (string -> bool) :=
  fun _ => Some (fun _ => true).

(** The title tokens of the specification's examples. *)
Definition title_example_token : string := "title:" +:+ quoted "Example".

(** The parameters of the specification's example of [getLineLimits]: a
    start written as a pattern between slashes, and a relative end. *)
Definition def_plus_ten : ReferenceParsing.RefParams :=
  ReferenceParsing.mkRefParams "lib/util.py" "lib/util.py" "py"
    (ReferenceParsing.LStr "/^def /") (ReferenceParsing.LStr "+10") None.

(** A file of fourteen lines, two of them starting with [def]. *)
Definition sample_lines : list string :=
  ["import x"; "def f():"; "  pass"; "def g():"; "  return 1"; "six";
   "seven"; "eight"; "nine"; "ten"; "eleven"; "twelve"; "thirteen";
   "fourteen"].
Definition sample_content : string :=
  JS.join (String JS.LF EmptyString) sample_lines.

(** A platform that compiles the one pattern [^def ], with the matcher of
    [Rx]. *)
Definition def_pattern : string -> option (string -> bool) :=
  fun src =>
    if String.eqb src "^def "
    then Some (Rx.test (Rx.Cat [Rx.Bol; Rx.Lit "def "]))
    else None.

(** A start line below the first, and an end text that no line holds. *)
Definition negative_start : ReferenceParsing.RefParams :=
  ReferenceParsing.mkRefParams "lib/util.py" "lib/util.py" "py"
    (ReferenceParsing.LNum (-3)) (ReferenceParsing.LStr "zzz") None.

(** The start and end swapped: line 3 to line 2. *)
Definition three_to_two : ReferenceParsing.RefParams :=
  ReferenceParsing.mkRefParams "lib/util.py" "lib/util.py" "py"
    (ReferenceParsing.LNum 3) (ReferenceParsing.LNum 2) None.

(** From the second line, an end one line and a half before the start. *)
Definition fraction_before_start : ReferenceParsing.RefParams :=
  ReferenceParsing.mkRefParams "lib/util.py" "lib/util.py" "py"
    (ReferenceParsing.LNum 2) (ReferenceParsing.LStr "+-1.5") None.

(** An end text that no line holds, from the first line. *)
Definition missing_end : ReferenceParsing.RefParams :=
  ReferenceParsing.mkRefParams "lib/util.py" "lib/util.py" "py"
    ReferenceParsing.LNull (ReferenceParsing.LStr "zzz") None.

(** A note with two codeblocks, one in a block quote, and text around
    them; and a codeblock alone. *)
Definition sample_note : list string :=
  ["intro"; "```python title:x"; "print(1)"; "```"; "middle"; "> ~~~js";
   "> x"; "> ~~~"; "tail"].
Definition sample_block : list string := ["```python"; "print(1)"; "```"].

(** A line of text before a codeblock, and before a fence left open. *)
Definition prose_then_block : list string :=
  ["intro"; "```python"; "print(1)"; "```"].
Definition prose_then_open_fence : list string := ["intro"; "```python"].

(** A reference body whose only key is [path]. *)
Definition path_only (p : string) : ReferenceParsing.ParsedParams :=
  ReferenceParsing.mkParsedParams None None (Some p) None None None None None
    None.

(** The local path shapes of the specification. *)
Definition local_shapes : list string :=
  ["./utils/helper.py"; "@/utils/helper.py"; "[[helper]]";
   "/utils/helper.py"; "utils/helper.py"; "../shared/helper.py"].

(** A host for the examples: a YAML parser that reads the body
    [path: <value>] and nothing else, a URL parser for the one address
    [https://example.com/a/b.py?raw=1], a cache directory, no link index,
    paths already normal, and the extension [.py]. *)
Definition toy_parseYaml (source : string) : result ReferenceParsing.yaml :=
  if JS.startsWith source "path: "
  then Ok (ReferenceParsing.YMapping (path_only (JS.sslice source 6 None)))
  else Throw (Error "unsupported YAML").

Definition toy_URL_after_scheme (scheme rest : string)
  : option (string * string * string) :=
  if String.eqb scheme "https" && String.eqb rest "//example.com/a/b.py?raw=1"
  then Some ("example.com", "/a/b.py", "?raw=1")
  else Some (EmptyString, rest, EmptyString).

Definition toy_refContentPath (id : string) : string :=
  ".obsidian/plugins/code-styler/reference-files/" +:+ id.
Definition toy_refMetadataPath (id : string) : string :=
  ".obsidian/plugins/code-styler/reference-files/" +:+ id +:+ ".json".

Definition toy_parseRefParams (source sourcePath : string)
  : result ReferenceParsing.RefParams :=
  ReferenceParsing.parseRefParams toy_parseYaml toy_URL_after_scheme
    toy_refContentPath (fun _ _ => None) (fun p => p) (fun _ => ".py")
    any_pattern source sourcePath.

(** A network that answers every request with the same text. *)
Definition toy_fetchExtRef (params : ReferenceParsing.ExtRefParams)
  (sourcePath : string) : M Referencing.World ReferenceParsing.ExtRef :=
  Referencing.fetchExtRef (fun _ => Ok ∅) (fun _ => Ok "print(1)")
    (fun _ => Ok EmptyString) "2026-01-01 00:00" toy_refMetadataPath
    params sourcePath.

(** The parameters of the address above, and a world with no file. *)
Definition example_ext : ReferenceParsing.ExtRefParams :=
  ReferenceParsing.mkExtRefParams "example.com--a-b.py?raw=1"
    "https://example.com/a/b.py?raw=1" "example.com" ∅
    (toy_refContentPath "example.com--a-b.py?raw=1").

Definition empty_world : Referencing.World :=
  Referencing.mkWorld ∅ ∅ None [].

(** What [parseRefParams] returns for the address above. *)
Definition example_ref_params : ReferenceParsing.RefParams :=
  ReferenceParsing.mkRefParams "https://example.com/a/b.py?raw=1"
    (toy_refContentPath "example.com--a-b.py?raw=1") "py"
    ReferenceParsing.LNull ReferenceParsing.LNull (Some example_ext).

(** Two runs of [fetchExtRef], one after the other, for two notes. *)
Definition first_run : result ReferenceParsing.ExtRef * Referencing.World :=
  toy_fetchExtRef example_ext "notes/a.md" empty_world.
Definition second_run : result ReferenceParsing.ExtRef * Referencing.World :=
  toy_fetchExtRef example_ext "notes/b.md" (snd first_run).

Definition example_ref : ReferenceParsing.ExtRef :=
  ReferenceParsing.mkExtRef "example.com--a-b.py?raw=1" "print(1)" ∅
    example_ext.

(** A note two directories deep, and a path that climbs out of one of
    them. *)
Definition deep_dirs : list string := ["notes"; "sub"].

(** A note that holds one reference block for the address above, the one
    code section the metadata cache reports for it, and a note with no
    block. *)
Definition referencing_note : string :=
  JS.join (String JS.LF EmptyString)
    ["```reference"; "path: https://example.com/a/b.py?raw=1"; "```"].

Definition toy_sections (sourcePath : string)
  : list Referencing.SectionCache :=
  if String.eqb sourcePath "notes/a.md"
  then [Referencing.mkSectionCache "code" 0 2]
  else [].

Definition example_cache (sourcePath : string)
  : gmap string Referencing.IdCache :=
  {[ReferenceParsing.id example_ext
      := Referencing.mkIdCache [sourcePath] example_ext]}.

(** A world whose cache lists the note for the reference; one where the
    note no longer holds the block, the content of the reference still in
    the vault; and one where the note is gone. *)
Definition listed_world : Referencing.World :=
  Referencing.mkWorld {["notes/a.md" := referencing_note]} ∅
    (Some (example_cache "notes/a.md")) [].

Definition stale_world : Referencing.World :=
  Referencing.mkWorld
    (<["notes/b.md" := "plain text"]>
       {[ReferenceParsing.ext_storePath example_ext := "print(1)"]})
    ∅ (Some (example_cache "notes/b.md")) [].

Definition orphan_world : Referencing.World :=
  Referencing.mkWorld ∅ ∅ (Some (example_cache "notes/gone.md")) [].

(** The collection of the cache and the refresh of all the references on
    the host of the examples, the keys of the cache in the order of the
    map. *)
Definition toy_clean : M Referencing.World unit :=
  Referencing.cleanExternalReferencedFiles toy_parseYaml toy_URL_after_scheme
    toy_refContentPath (fun _ _ => None) (fun p => p) (fun _ => ".py")
    any_pattern toy_refMetadataPath toy_sections map_to_list.

Definition toy_updateAll : M Referencing.World unit :=
  Referencing.updateExternalReferencedFiles toy_parseYaml
    toy_URL_after_scheme toy_refContentPath (fun _ _ => None) (fun p => p)
    (fun _ => ".py") any_pattern (fun _ => Ok ∅) (fun _ => Ok "print(1)")
    (fun _ => Ok EmptyString) "2026-01-01 00:00" toy_refMetadataPath
    toy_sections map_to_list None.

(** A reference block, as the processor gets it, whose body is no
    YAML the host reads. *)
Definition broken_block : list string := ["```reference"; "nonsense"; "```"].

Definition toy_getRef (lines : list string) (sourcePath : string)
  : M Referencing.World Referencing.Ref :=
  Referencing.getRef toy_parseYaml toy_URL_after_scheme toy_refContentPath
    (fun _ _ => None) (fun p => p) (fun _ => ".py") any_pattern
    (fun _ => Ok ∅) (fun _ => Ok "print(1)") (fun _ => Ok EmptyString)
    "2026-01-01 00:00" toy_refMetadataPath "reference" lines sourcePath.

(* ================================================================= *)
(** * Properties *)

(** ** Strings *)

Section Strings.
Import JS.

Lemma chars_app (a b : string) : chars (a +:+ b) = chars a ++ chars b.
Proof. induction a as [|c a IH]; simpl; [reflexivity | by rewrite IH]. Qed.

Lemma str_chars (s : string) : str (chars s) = s.
Proof. apply string_of_list_ascii_of_string. Qed.

Lemma chars_str (l : list ascii) : chars (str l) = l.
Proof. apply list_ascii_of_string_of_list_ascii. Qed.

Lemma is_char_true (a c : ascii) : is_char a c = true <-> a = c.
Proof. apply Ascii.eqb_eq. Qed.

(** A digit is none of the characters the parsers single out. *)
Lemma digit_not_char (a c : ascii) :
  is_digit a = false -> is_digit c = true -> is_char a c = false.
Proof.
  intros Ha Hc. destruct (is_char a c) eqn:E; [|reflexivity].
  apply is_char_true in E. congruence.
Qed.

Lemma digit_not_space (c : ascii) : is_digit c = true -> is_space c = false.
Proof.
  intros H. unfold is_space.
  rewrite (digit_not_char " " c) by (reflexivity || assumption).
  unfold is_digit, in_range in *.
  apply andb_true_iff in H as [H1 H2].
  apply N.leb_le in H1, H2.
  rewrite orb_false_r.
  apply orb_false_iff; split.
  - apply andb_false_iff; right. apply N.leb_gt. lia.
  - apply N.eqb_neq. lia.
Qed.

Lemma take_while_all {A} (p : A -> bool) (l : list A) :
  forallb p l = true -> take_while p l = l.
Proof.
  induction l as [|x l IH]; simpl; [reflexivity|].
  intros H. apply andb_true_iff in H as [-> H]. by rewrite IH.
Qed.

(** Splitting at a separator that occurs once, or not at all. *)
Lemma split_chars_none (sep : ascii) (l : list ascii) :
  forallb (fun c => negb (Ascii.eqb c sep)) l = true ->
  split_chars sep l = [l].
Proof.
  induction l as [|c l IH]; simpl; [reflexivity|].
  intros H. apply andb_true_iff in H as [Hc H].
  apply negb_true_iff in Hc. rewrite Hc, (IH H). reflexivity.
Qed.

Lemma split_chars_once (sep : ascii) (l1 l2 : list ascii) :
  forallb (fun c => negb (Ascii.eqb c sep)) l1 = true ->
  forallb (fun c => negb (Ascii.eqb c sep)) l2 = true ->
  split_chars sep (l1 ++ sep :: l2) = [l1; l2].
Proof.
  intros H1 H2. induction l1 as [|c l1 IH]; simpl.
  - rewrite Ascii.eqb_refl, (split_chars_none _ _ H2). reflexivity.
  - simpl in H1. apply andb_true_iff in H1 as [Hc H1].
    apply negb_true_iff in Hc. rewrite Hc, (IH H1). reflexivity.
Qed.

Lemma digits_no_sep (sep : ascii) (l : list ascii) :
  is_digit sep = false ->
  forallb is_digit l = true ->
  forallb (fun c => negb (Ascii.eqb c sep)) l = true.
Proof.
  intros Hsep H. induction l as [|c l IH]; simpl; [reflexivity|].
  simpl in H. apply andb_true_iff in H as [Hc H].
  rewrite (IH H), andb_true_r. apply negb_true_iff.
  destruct (Ascii.eqb_spec c sep) as [-> | _]; congruence.
Qed.

Lemma round_double_safe (z : Z) : Z.abs z <= 2 ^ 53 -> round_double z = z.
Proof.
  intros H. unfold round_double, safe.
  by replace (Z.abs z <=? 2 ^ 53) with true by (symmetry; apply Z.leb_le; lia).
Qed.

(** [parseInt] reads a run of decimal digits as its value, when a double
    holds it exactly. *)
Lemma parseInt_digits (s : string) :
  s <> EmptyString ->
  forallb is_digit (chars s) = true ->
  Z.abs (digits_val (chars s)) <= 2 ^ 53 ->
  parseInt s = Some (digits_val (chars s)).
Proof.
  intros Hne Hd Hsafe. unfold parseInt.
  destruct (chars s) as [|c l] eqn:E.
  { destruct s; [congruence | discriminate E]. }
  pose proof Hd as Hd'. simpl in Hd'. apply andb_true_iff in Hd' as [Hc Hl].
  simpl trim_start. rewrite (digit_not_space c Hc).
  rewrite (digit_not_char "-" c), (digit_not_char "+" c) by (reflexivity || assumption).
  assert (Hhex : match c :: l with
                 | c0 :: x :: _ => is_char "0" c0 && (is_char "x" x || is_char "X" x)
                 | _ => false
                 end = false).
  { destruct l as [|x l']; [reflexivity|].
    simpl in Hl. apply andb_true_iff in Hl as [Hx _].
    rewrite (digit_not_char "x" x), (digit_not_char "X" x)
      by (reflexivity || assumption).
    apply andb_false_r. }
  rewrite Hhex, (take_while_all _ _ Hd), (round_double_safe _ Hsafe).
  f_equal. lia.
Qed.

End Strings.

(** ** Arrays and sets *)

Section Arrays.

(** *** [findIndex] *)

Lemma findIndex_from_first {A} (p : A -> bool) (l : list A) (i : nat)
  (x : A) (base : Z) :
  l !! i = Some x -> p x = true ->
  (forall j y, (j < i)%nat -> l !! j = Some y -> p y = false) ->
  JS.findIndex_from p l base = base + Z.of_nat i.
Proof.
  revert i base. induction l as [|a l IH]; intros i base Hi Hx Hfirst.
  - by rewrite lookup_nil in Hi.
  - destruct i as [|i]; simpl in *.
    + injection Hi as ->. rewrite Hx. lia.
    + rewrite (Hfirst 0%nat a) by (lia || reflexivity).
      rewrite (IH i (base + 1) Hi Hx); [lia|].
      intros j y Hj Hy. apply (Hfirst (S j) y); [lia | exact Hy].
Qed.

Lemma findIndex_from_bounds {A} (p : A -> bool) (l : list A) (base : Z) :
  JS.findIndex_from p l base = -1 \/ base <= JS.findIndex_from p l base.
Proof.
  revert base. induction l as [|a l IH]; intros base; simpl; [by left|].
  destruct (p a); [right; lia|].
  destruct (IH (base + 1)) as [H | H]; [by left | right; lia].
Qed.

Lemma findIndex_ge (A : Type) (p : A -> bool) (l : list A) :
  -1 <= JS.findIndex p l.
Proof.
  unfold JS.findIndex. destruct (findIndex_from_bounds p l 0); lia.
Qed.

(** [slice] from an index inside the array, over [n] elements. *)
Lemma slice_take_drop {A} (l : list A) (i n : nat) :
  (i <= length l)%nat ->
  JS.slice l (Z.of_nat i) (Some (Z.of_nat i + Z.of_nat n)) = take n (drop i l).
Proof.
  intros Hi. unfold JS.slice, JS.rel_index.
  destruct (Z.ltb_spec (Z.of_nat i) 0) as [H | _]; [lia|].
  destruct (Z.ltb_spec (Z.of_nat i + Z.of_nat n) 0) as [H | _]; [lia|].
  rewrite Nat2Z.id, <- Nat2Z.inj_add, Nat2Z.id.
  rewrite (Nat.min_l i) by lia.
  destruct (Nat.le_ge_cases (i + n) (length l)) as [H | H].
  - rewrite Nat.min_l by lia. f_equal. lia.
  - rewrite Nat.min_r by lia.
    rewrite !take_ge; [reflexivity | |]; rewrite length_drop; lia.
Qed.

Lemma findIndex_from_found {A} (p : A -> bool) (l : list A) (base : Z) :
  (exists y, y ∈ l /\ p y = true) -> base <= JS.findIndex_from p l base.
Proof.
  revert base. induction l as [|a l IH]; intros base (y & Hin & Hy).
  - by apply elem_of_nil in Hin.
  - simpl. destruct (p a) eqn:Ha; [lia|].
    apply elem_of_cons in Hin as [-> | Hin]; [congruence|].
    specialize (IH (base + 1)). pose proof (IH (ex_intro _ y (conj Hin Hy))).
    lia.
Qed.

(** *** [slice] *)

Lemma slice_from_start {A} (l : list A) (k : Z) :
  JS.slice l 0 (Some k) = take (JS.rel_index (length l) k) l.
Proof.
  unfold JS.slice. change (JS.rel_index (length l) 0) with 0%nat.
  by rewrite drop_0, Nat.sub_0_r.
Qed.

Lemma slice_to_end {A} (l : list A) (k : Z) :
  JS.slice l k None = drop (JS.rel_index (length l) k) l.
Proof.
  unfold JS.slice. apply take_ge. rewrite length_drop. lia.
Qed.

(** The slice up to an index and the slice from it make up the array. *)
Lemma slice_split {A} (l : list A) (k : Z) :
  JS.slice l 0 (Some k) ++ JS.slice l k None = l.
Proof. rewrite slice_from_start, slice_to_end. apply take_drop. Qed.

Lemma slice_sublist {A} (l : list A) (a : Z) (b : option Z) :
  JS.slice l a b `sublist_of` l.
Proof.
  unfold JS.slice. etrans; [apply sublist_take | apply sublist_drop].
Qed.

Lemma rel_index_pos (len : nat) (k : Z) :
  (0 < len)%nat -> 1 <= k -> (1 <= JS.rel_index len k)%nat.
Proof.
  intros Hlen Hk. unfold JS.rel_index.
  destruct (Z.ltb_spec k 0); lia.
Qed.

Lemma slice_tail_shorter {A} (l : list A) (k : Z) :
  (0 < length l)%nat -> 1 <= k ->
  (length (JS.slice l k None) < length l)%nat.
Proof.
  intros Hlen Hk. rewrite slice_to_end, length_drop.
  pose proof (rel_index_pos (length l) k Hlen Hk). lia.
Qed.

Lemma slice_inner_shorter {A} (l : list A) (a : Z) (b : option Z) :
  (0 < length l)%nat -> 1 <= a ->
  (length (JS.slice l a b) < length l)%nat.
Proof.
  intros Hlen Ha. unfold JS.slice.
  rewrite length_take, length_drop.
  pose proof (rel_index_pos (length l) a Hlen Ha). lia.
Qed.

Lemma sublist_same_length {A} (l1 l2 : list A) :
  l1 `sublist_of` l2 -> length l1 = length l2 -> l1 = l2.
Proof.
  induction 1 as [|x l1 l2 Hsub IH|x l1 l2 Hsub IH]; simpl; intros Hlen.
  - reflexivity.
  - f_equal. apply IH. lia.
  - apply sublist_length in Hsub. lia.
Qed.

(** *** Sets in insertion order *)

Lemma elem_of_set_add {A} `{EqDecision A} (x y : A) (s : list A) :
  x ∈ JS.set_add y s <-> x = y \/ x ∈ s.
Proof.
  unfold JS.set_add. destruct (decide (y ∈ s)) as [Hy | Hy].
  - split; [by right | intros [-> | H]; assumption].
  - rewrite elem_of_app, list_elem_of_singleton. tauto.
Qed.

Lemma NoDup_set_add {A} `{EqDecision A} (y : A) (s : list A) :
  NoDup s -> NoDup (JS.set_add y s).
Proof.
  intros Hs. unfold JS.set_add. destruct (decide (y ∈ s)) as [Hy | Hy];
    [exact Hs|].
  apply NoDup_app; repeat split; [exact Hs | | apply NoDup_singleton].
  intros x Hx Hx'. apply list_elem_of_singleton in Hx'. by subst.
Qed.

Lemma elem_of_fold_set_add {A} `{EqDecision A} (x : A) (l acc : list A) :
  x ∈ fold_left (fun s n => JS.set_add n s) l acc <-> x ∈ acc \/ x ∈ l.
Proof.
  revert acc. induction l as [|y l IH]; intros acc; simpl.
  - rewrite elem_of_nil. tauto.
  - rewrite IH, elem_of_set_add, elem_of_cons. tauto.
Qed.

Lemma NoDup_fold_set_add {A} `{EqDecision A} (l acc : list A) :
  NoDup acc -> NoDup (fold_left (fun s n => JS.set_add n s) l acc).
Proof.
  revert acc. induction l as [|y l IH]; intros acc Hacc; simpl;
    [exact Hacc|].
  by apply IH, NoDup_set_add.
Qed.

Lemma fold_set_add_fresh {A} `{EqDecision A} (l acc : list A) :
  NoDup (acc ++ l) ->
  fold_left (fun s n => JS.set_add n s) l acc = acc ++ l.
Proof.
  revert acc. induction l as [|x l IH]; intros acc Hnd; simpl.
  - by rewrite app_nil_r.
  - unfold JS.set_add at 2.
    apply NoDup_app in Hnd as (Hacc & Hdisj & Hl).
    destruct (decide (x ∈ acc)) as [Hin | Hnin].
    + exfalso. apply (Hdisj x Hin). by left.
    + rewrite IH; [by rewrite <- app_assoc|].
      rewrite <- app_assoc. simpl.
      apply NoDup_app; repeat split; auto.
  Qed.

End Arrays.

(** ** The matcher on runs of a character class *)

Section Matcher.
Import Rx.

Lemma star_loop_S (g : bool)
  (step : mstate -> (mstate -> option mstate) -> option mstate)
  (k : mstate -> option mstate) (n : nat) (st : mstate) :
  star_loop g step k (S n) st =
    let iter (_ : unit) :=
      step st (fun st' =>
        if (length (after st') <? length (after st))%nat
        then star_loop g step k n st' else None) in
    if g then match iter tt with Some x => Some x | None => k st end
    else match k st with Some x => Some x | None => iter tt end.
Proof. reflexivity. Qed.

Lemma m_chr_hit (p : ascii -> bool) (k : mstate -> option mstate)
  (c : ascii) (l bef : list ascii) (cs : list (nat * list ascii)) :
  p c = true ->
  m (Chr p) (MState bef (c :: l) cs) k = k (MState (c :: bef) l cs).
Proof. intros H. simpl. rewrite H. reflexivity. Qed.

Lemma m_chr_miss (p : ascii -> bool) (k : mstate -> option mstate)
  (l bef : list ascii) (cs : list (nat * list ascii)) :
  match l with c :: _ => p c = false | [] => True end ->
  m (Chr p) (MState bef l cs) k = None.
Proof. intros H. simpl. destruct l; [reflexivity | by rewrite H]. Qed.

(** A greedy repetition of a class runs to the end of the longest run of
    the class; when the continuation accepts there, that is the result. *)
Lemma star_loop_class_max (p : ascii -> bool) (k : mstate -> option mstate)
  (l1 l2 bef : list ascii) (cs : list (nat * list ascii)) (n : nat)
  (x : mstate) :
  forallb p l1 = true ->
  match l2 with c :: _ => p c = false | [] => True end ->
  (length (l1 ++ l2) <= n)%nat ->
  k (MState (rev l1 ++ bef) l2 cs) = Some x ->
  star_loop true (m (Chr p)) k n (MState bef (l1 ++ l2) cs) = Some x.
Proof.
  revert bef n. induction l1 as [|c l1 IH]; intros bef n Hp Hl2 Hn Hk.
  - destruct n as [|n]; [exact Hk|].
    rewrite star_loop_S. cbv beta zeta.
    rewrite (m_chr_miss p _ _ _ _ Hl2). exact Hk.
  - simpl in Hp. apply andb_true_iff in Hp as [Hc Hp].
    destruct n as [|n]; [simpl in Hn; lia|].
    rewrite star_loop_S. cbv beta zeta.
    change ((c :: l1) ++ l2) with (c :: (l1 ++ l2)).
    rewrite (m_chr_hit p _ c _ _ _ Hc). cbn [after].
    assert (Hlt : (length (l1 ++ l2) <? length (c :: l1 ++ l2))%nat = true)
      by (apply Nat.ltb_lt; simpl; lia).
    rewrite Hlt.
    rewrite (IH (c :: bef) n Hp Hl2); [reflexivity | simpl in Hn; lia |].
    rewrite <- Hk. simpl. by rewrite <- app_assoc.
Qed.

Lemma plus_class_max (p : ascii -> bool) (k : mstate -> option mstate)
  (c : ascii) (l1 l2 bef : list ascii) (cs : list (nat * list ascii))
  (x : mstate) :
  p c = true ->
  forallb p l1 = true ->
  match l2 with c :: _ => p c = false | [] => True end ->
  k (MState (rev (c :: l1) ++ bef) l2 cs) = Some x ->
  m (Plus true (Chr p)) (MState bef (c :: l1 ++ l2) cs) k = Some x.
Proof.
  intros Hc Hp Hl2 Hk.
  change (m (Plus true (Chr p)) (MState bef (c :: l1 ++ l2) cs) k)
    with (m (Chr p) (MState bef (c :: l1 ++ l2) cs)
            (fun st' => star_loop true (m (Chr p)) k (length (after st')) st')).
  rewrite (m_chr_hit p _ c _ _ _ Hc). cbn [after].
  apply star_loop_class_max; auto.
  rewrite <- Hk. simpl. by rewrite <- app_assoc.
Qed.

Lemma plus_class_all (p : ascii -> bool) (k : mstate -> option mstate)
  (c : ascii) (l1 bef : list ascii) (cs : list (nat * list ascii))
  (x : mstate) :
  p c = true ->
  forallb p l1 = true ->
  k (MState (rev (c :: l1) ++ bef) [] cs) = Some x ->
  m (Plus true (Chr p)) (MState bef (c :: l1) cs) k = Some x.
Proof.
  intros Hc Hp Hk.
  pose proof (plus_class_max p k c l1 [] bef cs x Hc Hp I Hk) as H.
  by rewrite app_nil_r in H.
Qed.

Lemma m_seq (r1 r2 : regex) (st : mstate) (k : mstate -> option mstate) :
  m (Seq r1 r2) st k = m r1 st (fun st' => m r2 st' k).
Proof. reflexivity. Qed.

Lemma test_true (r : regex) (s : string) (x : mstate) :
  m r (MState [] (JS.chars s) []) Some = Some x -> test r s = true.
Proof.
  intros H. unfold test, exec.
  destruct (JS.chars s); simpl; simpl in H; by rewrite H.
Qed.

End Matcher.

(** ** Highlight rules *)

Section HighlightRules.
Import Rx CodeblockParsing.

Variable RegExp_new : string -> option (string -> bool).

Lemma numeral_chars (s : string) :
  numeral s ->
  exists c l, JS.chars s = c :: l /\ JS.is_digit c = true
              /\ forallb JS.is_digit l = true.
Proof.
  intros [Hne Hd]. destruct (JS.chars s) as [|c l] eqn:E.
  - destruct s; [congruence | discriminate E].
  - simpl in Hd. apply andb_true_iff in Hd as [Hc Hl]. eauto.
Qed.

(** The range expression matches a rule made of two numerals around a
    dash. *)
Lemma test_number_range (da db : string) :
  numeral da -> numeral db ->
  test re_number_range (da +:+ "-" +:+ db) = true.
Proof.
  intros Ha Hb.
  destruct (numeral_chars da Ha) as (c & l1 & Ea & Hc & Hl1).
  destruct (numeral_chars db Hb) as (d & l2 & Eb & Hd & Hl2).
  eapply test_true.
  rewrite !chars_app, Ea, Eb.
  change (JS.chars "-") with ["-"%char].
  change ((c :: l1) ++ ["-"%char] ++ d :: l2)
    with (c :: l1 ++ "-"%char :: d :: l2).
  unfold re_number_range, Cat; cbn [fold_right].
  rewrite m_seq. apply plus_class_max; [exact Hc | exact Hl1 | reflexivity |].
  rewrite m_seq. unfold Lit1. rewrite m_chr_hit by reflexivity.
  rewrite m_seq.
  apply plus_class_all; [exact Hd | exact Hl2 |].
  reflexivity.
Qed.

Lemma split_range_rule (da db : string) :
  numeral da -> numeral db ->
  JS.split (da +:+ "-" +:+ db) "-" = [da; db].
Proof.
  intros [_ Ha] [_ Hb]. unfold JS.split.
  rewrite !chars_app. change (JS.chars "-") with ["-"%char].
  change (JS.chars da ++ ["-"%char] ++ JS.chars db)
    with (JS.chars da ++ "-"%char :: JS.chars db).
  rewrite split_chars_once by (apply digits_no_sep; [reflexivity | assumption]).
  simpl. by rewrite !str_chars.
Qed.

Lemma split_rule_list_single (da db : string) :
  numeral da -> numeral db ->
  JS.split (da +:+ "-" +:+ db) "," = [da +:+ "-" +:+ db].
Proof.
  intros [_ Ha] [_ Hb]. unfold JS.split.
  rewrite split_chars_none; [simpl; by rewrite str_chars|].
  rewrite !chars_app, !forallb_app.
  rewrite (digits_no_sep ","%char _ eq_refl Ha),
    (digits_no_sep ","%char _ eq_refl Hb).
  reflexivity.
Qed.

Lemma digits_val_nonneg (l : list ascii) :
  forallb JS.is_digit l = true -> 0 <= JS.digits_val l.
Proof.
  assert (H : forall acc, 0 <= acc -> forallb JS.is_digit l = true ->
                0 <= fold_left (fun a c => 10 * a + JS.digit_val c) l acc).
  { induction l as [|c l IH]; intros acc Hacc Hd; simpl; [exact Hacc|].
    simpl in Hd. apply andb_true_iff in Hd as [Hc Hd].
    apply IH; [|exact Hd].
    unfold JS.is_digit, JS.in_range in Hc.
    apply andb_true_iff in Hc as [H1 _]. apply N.leb_le in H1.
    unfold JS.digit_val. lia. }
  intros Hd. apply H; [lia | exact Hd].
Qed.

(** A numeral of at most [2 ^ 53] is read exactly. *)
Lemma numeral_exact (d : string) :
  numeral d -> value d <= 2 ^ 53 ->
  Z.abs (JS.digits_val (JS.chars d)) <= 2 ^ 53.
Proof.
  intros [_ Hall] H. pose proof (digits_val_nonneg _ Hall).
  unfold value in H. lia.
Qed.

Lemma range_lines_seqZ (a b : Z) : range_lines a b = seqZ a (b - a + 1).
Proof.
  unfold range_lines.
  rewrite <- (Z.add_0_r a) at 2. rewrite <- fmap_add_seqZ.
  apply map_ext. intros; lia.
Qed.

(** What the rule does to the highlights built so far. *)
Lemma addHighlightRule_number_range (h : Highlights) (da db : string) :
  numeral da -> numeral db ->
  value da <= 2 ^ 53 -> value db <= 2 ^ 53 ->
  addHighlightRule RegExp_new h (da +:+ "-" +:+ db) =
    if (1 <=? value da) && (value da <=? value db)
    then mkHighlights
           (fold_left (fun s n => JS.set_add n s)
              (seqZ (value da) (value db - value da + 1)) (lineNumbers h))
           (plainText h) (regularExpressions h)
    else h.
Proof.
  intros Ha Hb Hsa Hsb. unfold addHighlightRule.
  rewrite (test_number_range da db Ha Hb), (split_range_rule da db Ha Hb).
  pose proof Ha as [Hnea Hda]. pose proof Hb as [Hneb Hdb].
  pose proof (digits_val_nonneg _ Hda) as H0a.
  pose proof (digits_val_nonneg _ Hdb) as H0b.
  fold (value da) in H0a. fold (value db) in H0b.
  simpl map.
  rewrite (parseInt_digits da Hnea Hda), (parseInt_digits db Hneb Hdb)
    by (fold (value da) (value db); lia).
  cbn [lookup list_lookup].
  fold (value da) (value db).
  unfold JS.truthy. rewrite range_lines_seqZ.
  destruct (Z.leb_spec 1 (value da)) as [H1 | H1];
    destruct (Z.leb_spec (value da) (value db)) as [H2 | H2]; simpl.
  - replace (value da =? 0) with false by (symmetry; apply Z.eqb_neq; lia).
    replace (value db =? 0) with false by (symmetry; apply Z.eqb_neq; lia).
    reflexivity.
  - by rewrite andb_false_r.
  - replace (value da =? 0) with true by (symmetry; apply Z.eqb_eq; lia).
    reflexivity.
  - by rewrite andb_false_r.
Qed.

(** C7 (amended). For a highlight rule made of a numeral for [a], a dash
    and a numeral for [b], both at most [2 ^ 53], which [parseInt] reads
    exactly, and with fewer than [2 ^ 32] numbers from [a] to [b], the
    most an array holds: when [1 <= a <= b], the rule adds exactly the
    line numbers [a] to [b], both included, to the line numbers of the
    result; when [a > b], and also when [a] is [0], it adds nothing. The
    plain texts and the regular expressions are left as they are. Alone in
    a rule list, the rule yields the line numbers [a] to [b] in order, or
    none. *)
Theorem number_range_rule (da db : string) :
  numeral da -> numeral db ->
  value da <= 2 ^ 53 -> value db <= 2 ^ 53 ->
  value db - value da + 1 < 2 ^ 32 ->
  (forall h : Highlights,
      let h' := addHighlightRule RegExp_new h (da +:+ "-" +:+ db) in
      (forall n : Z,
          n ∈ lineNumbers h' <->
          n ∈ lineNumbers h
          \/ (1 <= value da /\ value da <= n <= value db))
      /\ plainText h' = plainText h
      /\ regularExpressions h' = regularExpressions h)
  /\ parseHighlightedLines RegExp_new (da +:+ "-" +:+ db) =
       mkHighlights
         (if (1 <=? value da) && (value da <=? value db)
          then seqZ (value da) (value db - value da + 1) else [])
         [] [].
Proof.
  intros Ha Hb Hsa Hsb _. split.
  - intros h. cbv zeta.
    rewrite (addHighlightRule_number_range h da db Ha Hb Hsa Hsb).
    destruct (Z.leb_spec 1 (value da)) as [H1 | H1];
      destruct (Z.leb_spec (value da) (value db)) as [H2 | H2];
      cbn [andb lineNumbers plainText regularExpressions];
      (split; [|split; reflexivity]); intros n;
      rewrite ?elem_of_fold_set_add, ?elem_of_seqZ; intuition lia.
  - unfold parseHighlightedLines.
    rewrite (split_rule_list_single da db Ha Hb). simpl fold_left.
    rewrite (addHighlightRule_number_range _ da db Ha Hb Hsa Hsb).
    destruct ((1 <=? value da) && (value da <=? value db)); [|reflexivity].
    cbn [lineNumbers plainText regularExpressions no_highlights]. f_equal.
    apply (fold_set_add_fresh _ []). apply NoDup_seqZ.
Qed.

End HighlightRules.

(** C7, counterexample: for the rule [0-3], where [0 <= 3], nothing is
    added; the line numbers are not [0] to [3]. *)
Lemma range_from_zero_adds_nothing :
  CodeblockParsing.lineNumbers
    (CodeblockParsing.parseHighlightedLines any_pattern "0-3")
  <> [0; 1; 2; 3].
Proof. vm_compute. discriminate. Qed.

(** C7, witness: the rule [2-4], alone and after the rule [7]. *)
Lemma number_range_rule_witness :
  (forall n : Z,
      n ∈ CodeblockParsing.lineNumbers
            (CodeblockParsing.addHighlightRule any_pattern
               (CodeblockParsing.mkHighlights [7] [] []) "2-4") <->
      n ∈ [7] \/ (1 <= 2 /\ 2 <= n <= 4))
  /\ CodeblockParsing.parseHighlightedLines any_pattern "2-4"
     = CodeblockParsing.mkHighlights [2; 3; 4] [] [].
Proof.
  assert (H2 : numeral "2") by (split; [discriminate | reflexivity]).
  assert (H4 : numeral "4") by (split; [discriminate | reflexivity]).
  destruct (number_range_rule any_pattern "2" "4" H2 H4) as [Hadd Halone];
    [by vm_compute | by vm_compute | reflexivity |].
  split; [|exact Halone].
  exact (proj1 (Hadd (CodeblockParsing.mkHighlights [7] [] []))).
Defined.

(** ** Highlight rule lists as unions *)

Section HighlightUnion.
Import CodeblockParsing.

Variable RegExp_new : string -> option (string -> bool).

(** The branches of [addHighlightRule]: one goal for each way through its
    tests. *)
Ltac rule_cases :=
  unfold addHighlightRule;
  repeat match goal with
         | |- context [if ?b then _ else _] => destruct b
         | |- context [match ?o with Some _ => _ | None => _ end] =>
             destruct o
         end.

(** What one rule adds does not depend on what is there already. *)
Lemma addHighlightRule_lineNumbers (h : Highlights) (r : string) (x : Z) :
  x ∈ lineNumbers (addHighlightRule RegExp_new h r) <->
  x ∈ lineNumbers h
  \/ x ∈ lineNumbers (addHighlightRule RegExp_new no_highlights r).
Proof.
  rule_cases;
    cbn [lineNumbers no_highlights];
    rewrite ?elem_of_fold_set_add, ?elem_of_set_add, ?elem_of_nil; tauto.
Qed.

Lemma addHighlightRule_plainText (h : Highlights) (r : string) (x : string) :
  x ∈ plainText (addHighlightRule RegExp_new h r) <->
  x ∈ plainText h
  \/ x ∈ plainText (addHighlightRule RegExp_new no_highlights r).
Proof.
  rule_cases;
    cbn [plainText no_highlights];
    rewrite ?elem_of_set_add, ?elem_of_nil; tauto.
Qed.

Lemma addHighlightRule_regularExpressions (h : Highlights) (r : string) :
  regularExpressions (addHighlightRule RegExp_new h r) =
  regularExpressions h
    ++ regularExpressions (addHighlightRule RegExp_new no_highlights r).
Proof.
  rule_cases;
    cbn [regularExpressions no_highlights]; by rewrite ?app_nil_r.
Qed.

Lemma addHighlightRule_NoDup (h : Highlights) (r : string) :
  NoDup (lineNumbers h) /\ NoDup (plainText h) ->
  NoDup (lineNumbers (addHighlightRule RegExp_new h r))
  /\ NoDup (plainText (addHighlightRule RegExp_new h r)).
Proof.
  intros [Hl Hp]. rule_cases;
    cbn [lineNumbers plainText]; split;
    auto using NoDup_fold_set_add, NoDup_set_add.
Qed.

(** The rules of a list, folded from [h]. *)
Lemma rules_lineNumbers (rules : list string) (h : Highlights) (x : Z) :
  x ∈ lineNumbers (fold_left (addHighlightRule RegExp_new) rules h) <->
  x ∈ lineNumbers h
  \/ exists r, r ∈ rules
       /\ x ∈ lineNumbers (addHighlightRule RegExp_new no_highlights r).
Proof.
  revert h. induction rules as [|r rules IH]; intros h; simpl.
  - split; [by left | intros [H | (r & Hr & _)]; [exact H|]].
    by apply elem_of_nil in Hr.
  - rewrite IH, addHighlightRule_lineNumbers. split.
    + intros [[H | H] | (r' & Hr' & H)]; [by left | right | right].
      * exists r. split; [by left | exact H].
      * exists r'. split; [by right | exact H].
    + intros [H | (r' & Hr' & H)]; [by left; left|].
      apply elem_of_cons in Hr' as [-> | Hr'].
      * by left; right.
      * right. by exists r'.
Qed.

Lemma rules_plainText (rules : list string) (h : Highlights) (x : string) :
  x ∈ plainText (fold_left (addHighlightRule RegExp_new) rules h) <->
  x ∈ plainText h
  \/ exists r, r ∈ rules
       /\ x ∈ plainText (addHighlightRule RegExp_new no_highlights r).
Proof.
  revert h. induction rules as [|r rules IH]; intros h; simpl.
  - split; [by left | intros [H | (r & Hr & _)]; [exact H|]].
    by apply elem_of_nil in Hr.
  - rewrite IH, addHighlightRule_plainText. split.
    + intros [[H | H] | (r' & Hr' & H)]; [by left | right | right].
      * exists r. split; [by left | exact H].
      * exists r'. split; [by right | exact H].
    + intros [H | (r' & Hr' & H)]; [by left; left|].
      apply elem_of_cons in Hr' as [-> | Hr'].
      * by left; right.
      * right. by exists r'.
Qed.

Lemma rules_regularExpressions (rules : list string) (h : Highlights) :
  regularExpressions (fold_left (addHighlightRule RegExp_new) rules h) =
  regularExpressions h
    ++ flat_map
         (fun r => regularExpressions (addHighlightRule RegExp_new no_highlights r))
         rules.
Proof.
  revert h. induction rules as [|r rules IH]; intros h; simpl.
  - by rewrite app_nil_r.
  - by rewrite IH, addHighlightRule_regularExpressions, <- app_assoc.
Qed.

Lemma rules_NoDup (rules : list string) (h : Highlights) :
  NoDup (lineNumbers h) /\ NoDup (plainText h) ->
  NoDup (lineNumbers (fold_left (addHighlightRule RegExp_new) rules h))
  /\ NoDup (plainText (fold_left (addHighlightRule RegExp_new) rules h)).
Proof.
  revert h. induction rules as [|r rules IH]; intros h Hh; simpl;
    [exact Hh|].
  by apply IH, addHighlightRule_NoDup.
Qed.

(** C8 (amended). The rule list [2-4,/foo.*/,"bar",7], given as the value
    of [hl:], parses to the line numbers 2, 3, 4 and 7, the plain text
    [bar] and the one regular expression [/foo.*/]; and for every two rule
    lists with the same rules in another order, the line numbers, the plain
    texts and the regular expressions are the same up to their order. *)
Theorem highlight_rules_union :
  (is_Some (RegExp_new "foo.*") ->
   forall alternativeHighlights,
     highlights_default
       (parseCodeblockParameterString RegExp_new example_hl_token
          default_parameters alternativeHighlights)
     = mkHighlights [2; 3; 4; 7] ["bar"] ["foo.*"])
  /\ (forall s1 s2 : string,
        JS.split s1 "," ≡ₚ JS.split s2 "," ->
        lineNumbers (parseHighlightedLines RegExp_new s1)
          ≡ₚ lineNumbers (parseHighlightedLines RegExp_new s2)
        /\ plainText (parseHighlightedLines RegExp_new s1)
          ≡ₚ plainText (parseHighlightedLines RegExp_new s2)
        /\ regularExpressions (parseHighlightedLines RegExp_new s1)
          ≡ₚ regularExpressions (parseHighlightedLines RegExp_new s2)).
Proof.
  split.
  - intros [t Ht] alts. vm_compute. rewrite Ht. reflexivity.
  - intros s1 s2 Hperm. unfold parseHighlightedLines.
    assert (Hnd : NoDup (lineNumbers no_highlights)
                  /\ NoDup (plainText no_highlights))
      by (split; apply NoDup_nil_2).
    destruct (rules_NoDup (JS.split s1 ",") _ Hnd) as [Hl1 Hp1].
    destruct (rules_NoDup (JS.split s2 ",") _ Hnd) as [Hl2 Hp2].
    split; [|split].
    + apply NoDup_Permutation; [exact Hl1 | exact Hl2 |].
      intros x. rewrite !rules_lineNumbers.
      by setoid_rewrite Hperm.
    + apply NoDup_Permutation; [exact Hp1 | exact Hp2 |].
      intros x. rewrite !rules_plainText.
      by setoid_rewrite Hperm.
    + rewrite !rules_regularExpressions. simpl.
      by apply Permutation_flat_map.
Qed.

End HighlightUnion.

(** C8, counterexample: the rule list between braces is not parsed; the
    token leaves the default highlights empty. *)
Lemma brace_token_not_parsed :
  CodeblockParsing.highlights_default
    (CodeblockParsing.parseCodeblockParameterString any_pattern
       example_brace_token CodeblockParsing.default_parameters ∅)
  <> CodeblockParsing.mkHighlights [2; 3; 4; 7] ["bar"] ["foo.*"].
Proof. vm_compute. discriminate. Qed.

(** C8, witness: the example, and its rules in another order. *)
Lemma highlight_rules_union_witness :
  CodeblockParsing.highlights_default
    (CodeblockParsing.parseCodeblockParameterString any_pattern
       example_hl_token CodeblockParsing.default_parameters ∅)
  = CodeblockParsing.mkHighlights [2; 3; 4; 7] ["bar"] ["foo.*"]
  /\ CodeblockParsing.lineNumbers
       (CodeblockParsing.parseHighlightedLines any_pattern "7,2-4")
     ≡ₚ CodeblockParsing.lineNumbers
          (CodeblockParsing.parseHighlightedLines any_pattern "2-4,7").
Proof.
  split.
  - apply (proj1 (highlight_rules_union any_pattern)).
    vm_compute. eauto.
  - apply (proj2 (highlight_rules_union any_pattern) "7,2-4" "2-4,7").
    vm_compute. apply perm_swap.
Defined.

(** ** Titles *)

Section Titles.
Import CodeblockParsing.

Variable RegExp_new : string -> option (string -> bool).

(** C6, at the failing input. The token [title:"Example"] yields the title
    made of a double quote and [E]: the class of the title expression
    excludes [x], so the quoted text stops before it, the closing quote is
    not found there, and the match falls back to the text from the opening
    quote up to the [x]. The reference stays empty. *)
Theorem title_example_truncated (alternativeHighlights : gset string) :
  let params :=
    parseCodeblockParameterString RegExp_new title_example_token
      default_parameters alternativeHighlights in
  title params = String JS.DQ "E" /\ reference params = EmptyString.
Proof. vm_compute. split; reflexivity. Qed.

(** The same happens to a bare title, and to one with the digit [1]. *)
Lemma title_bare_truncated (alternativeHighlights : gset string) :
  title (parseCodeblockParameterString RegExp_new "title:Example"
           default_parameters alternativeHighlights) = "E"
  /\ title (parseCodeblockParameterString RegExp_new "title:Part1of2"
              default_parameters alternativeHighlights) = "Part".
Proof. vm_compute. split; reflexivity. Qed.

(** A title free of [x] and [1] is read whole, quoted or bare. *)
Lemma title_without_x (alternativeHighlights : gset string) :
  title (parseCodeblockParameterString RegExp_new ("title:" +:+ quoted "My Title")
           default_parameters alternativeHighlights) = "My Title"
  /\ title (parseCodeblockParameterString RegExp_new "title:Demo"
              default_parameters alternativeHighlights) = "Demo".
Proof. vm_compute. split; reflexivity. Qed.

(** The wiki link titles of the specification. *)
Lemma title_wiki_link (alternativeHighlights : gset string) :
  let with_label :=
    parseCodeblockParameterString RegExp_new "title:[[Note|Label]]"
      default_parameters alternativeHighlights in
  let without_label :=
    parseCodeblockParameterString RegExp_new "title=[[Note]]"
      default_parameters alternativeHighlights in
  (title with_label = "Label" /\ reference with_label = "Note")
  /\ (title without_label = "Note" /\ reference without_label = "Note").
Proof. vm_compute. repeat split; reflexivity. Qed.

End Titles.

(** ** Segmentation *)

Section Segmentation.
Import CodeblockParsing.

(** *** The opening line *)

Lemma array_indexOf_found (l : list string) (x : string) :
  x ∈ l -> 0 <= array_indexOf l x.
Proof.
  intros Hin. apply findIndex_from_found.
  exists x. split; [exact Hin | apply String.eqb_refl].
Qed.

Lemma getOpeningLine_elem (l : list string) (line : string) :
  getOpeningLine l = Some line -> line ∈ l.
Proof.
  unfold getOpeningLine. intros H.
  apply find_some in H as [H _]. by apply list_elem_of_In.
Qed.

Lemma opening_elem (s : list string) (line d : string) :
  opening s = Some (line, d) -> line ∈ s /\ (0 < length s)%nat.
Proof.
  unfold opening.
  destruct (Nat.eqb_spec (length s) 0) as [|Hlen]; [discriminate|].
  destruct (getOpeningLine s) as [l|] eqn:E; [|discriminate].
  destruct (Rx.exec _ l); [|discriminate].
  destruct (nonempty _); [|discriminate].
  intros [= <- _]. split; [by apply getOpeningLine_elem | lia].
Qed.

(** *** One call of [parseCodeblockSection] *)

Lemma parse_step (fuel : nat) (adm : bool) (s : list string)
  (acc : list (list string)) :
  parseCodeblockSection (S fuel) adm s acc =
    match opening s with
    | None => Some acc
    | Some (line, d) =>
        let oi := array_indexOf s line in
        let ci := close_index s line d in
        match
          (if negb adm || negb (Rx.test re_admonition line)
           then Some (acc ++ [JS.slice s 0 (Some (oi + 2 + ci))])
           else parseCodeblockSection fuel adm
                  (JS.slice s (oi + 1) (Some (oi + 1 + ci))) acc)
        with
        | None => None
        | Some acc' =>
            parseCodeblockSection fuel adm
              (JS.slice s (oi + 1 + ci + 1) None) acc'
        end
    end.
Proof.
  unfold opening, close_index. simpl.
  destruct (length s =? 0)%nat; [reflexivity|].
  destruct (getOpeningLine s) as [line|]; [|reflexivity].
  destruct (Rx.exec re_open_delimiter line) as [dm|]; [|reflexivity].
  destruct (nonempty (Rx.group_or_empty dm 1)); reflexivity.
Qed.

Lemma step_indices (s : list string) (line d : string) :
  opening s = Some (line, d) ->
  1 <= array_indexOf s line + 1
  /\ 1 <= array_indexOf s line + 1 + close_index s line d + 1.
Proof.
  intros Ho. apply opening_elem in Ho as [Hin _].
  pose proof (array_indexOf_found s line Hin).
  pose proof (findIndex_ge _ (Rx.test (re_close_delimiter d))
                (JS.slice s (array_indexOf s line + 1) None)).
  unfold close_index. lia.
Qed.

(** The groups a call pushes do not depend on the groups pushed before. *)
Lemma parse_acc (fuel : nat) (adm : bool) (s : list string)
  (acc : list (list string)) :
  parseCodeblockSection fuel adm s acc =
    app acc <$> parseCodeblockSection fuel adm s [].
Proof.
  revert s acc. induction fuel as [|fuel IH]; intros s acc; [reflexivity|].
  rewrite !parse_step. destruct (opening s) as [[line d]|]; simpl.
  2:{ by rewrite app_nil_r. }
  destruct (negb adm || negb (Rx.test re_admonition line)).
  - rewrite (IH _ (acc ++ _)), (IH _ [_]).
    destruct (parseCodeblockSection fuel adm _ []); simpl; [|reflexivity].
    by rewrite <- app_assoc.
  - rewrite (IH _ acc).
    destruct (parseCodeblockSection fuel adm _ []) as [gs|]; simpl;
      [|reflexivity].
    rewrite (IH _ (acc ++ gs)), (IH _ gs).
    destruct (parseCodeblockSection fuel adm _ []); simpl; [|reflexivity].
    by rewrite <- app_assoc.
Qed.

(** The run returns: the fuel of [parseCodeblockSource] is enough. *)
Lemma parse_total (fuel : nat) (adm : bool) (s : list string)
  (acc : list (list string)) :
  (length s < fuel)%nat ->
  is_Some (parseCodeblockSection fuel adm s acc).
Proof.
  revert s acc. induction fuel as [|fuel IH]; intros s acc Hlen; [lia|].
  rewrite parse_step. destruct (opening s) as [[line d]|] eqn:Ho; [|eauto].
  destruct (step_indices s line d Ho) as [H1 H2].
  apply opening_elem in Ho as [_ Hpos].
  cbv zeta.
  destruct (negb adm || negb (Rx.test re_admonition line)).
  - apply IH. pose proof (slice_tail_shorter s _ Hpos H2). lia.
  - destruct (IH (JS.slice s (array_indexOf s line + 1)
                    (Some (array_indexOf s line + 1 + close_index s line d)))
                acc) as [acc' ->].
    { pose proof (slice_inner_shorter s _
                    (Some (array_indexOf s line + 1 + close_index s line d))
                    Hpos H1). lia. }
    apply IH. pose proof (slice_tail_shorter s _ Hpos H2). lia.
Qed.

(** A section with no opening yields no group, whatever the fuel. *)
Lemma source_without_opening (s : list string) (adm : bool) :
  opening s = None -> parseCodeblockSource s adm = Some ([], true).
Proof.
  intros Ho. unfold parseCodeblockSource. by rewrite parse_step, Ho.
Qed.




(** Every group is made of lines of the section, in their order. *)
Lemma parse_sublists (fuel : nat) (adm : bool) (s : list string)
  (gs : list (list string)) :
  parseCodeblockSection fuel adm s [] = Some gs ->
  Forall (fun g => g `sublist_of` s) gs.
Proof.
  revert s gs. induction fuel as [|fuel IH]; intros s gs; [discriminate|].
  rewrite parse_step. destruct (opening s) as [[line d]|] eqn:Ho.
  2:{ intros [= <-]. constructor. }
  cbv zeta.
  assert (Hweaken : forall (a : Z) (b : option Z) (gs' : list (list string)),
             Forall (fun g => g `sublist_of` JS.slice s a b) gs' ->
             Forall (fun g => g `sublist_of` s) gs').
  { intros a b gs' H. eapply Forall_impl; [exact H|]. intros g Hg.
    etrans; [exact Hg | apply slice_sublist]. }
  destruct (negb adm || negb (Rx.test re_admonition line)).
  - rewrite parse_acc.
    destruct (parseCodeblockSection fuel adm _ []) as [gs'|] eqn:Hrest;
      [|discriminate].
    intros [= <-]. simpl. constructor; [apply slice_sublist|].
    apply IH in Hrest. by eapply Hweaken.
  - destruct (parseCodeblockSection fuel adm (JS.slice s _ (Some _)) [])
      as [gs1|] eqn:Hbody; [|discriminate].
    rewrite parse_acc.
    destruct (parseCodeblockSection fuel adm (JS.slice s _ None) [])
      as [gs2|] eqn:Hrest; [|discriminate].
    simpl. intros [= <-]. apply Forall_app. split.
    + apply IH in Hbody. by eapply Hweaken.
    + apply IH in Hrest. by eapply Hweaken.
Qed.

Lemma arraysEqual_spec (array1 array2 : list string) :
  arraysEqual array1 array2 = true <->
  length array1 = length array2 /\ (forall el, el ∈ array1 -> el ∈ array2).
Proof.
  unfold arraysEqual. rewrite andb_true_iff, Nat.eqb_eq, forallb_forall.
  split; intros [Hlen Hall]; (split; [exact Hlen|]); intros el Hel.
  - apply list_elem_of_In in Hel. apply Hall in Hel.
    by apply bool_decide_eq_true in Hel.
  - apply bool_decide_eq_true. apply Hall. by apply list_elem_of_In.
Qed.

(** C5 (amended). [parseCodeblockSource] returns, and when it yields at
    least one codeblock group, [nested] is [false] exactly when the input
    and the first group are equal as multisets of lines, and [true]
    otherwise. The first group is made of lines of the input in their
    order, so this is the case exactly when the first group is the whole
    input. The first group starts at the first line of the input, before
    the opening fence, and ends with the input when the fence is left open:
    a first group that is the whole input does not make the input one
    codeblock. With no group, [nested] is [true]. *)
Theorem nested_iff_not_first_group (codeSection : list string)
  (admonitions : bool) :
  exists (codeblocks : list (list string)) (nested : bool),
    parseCodeblockSource codeSection admonitions = Some (codeblocks, nested)
    /\ match codeblocks with
       | first :: _ =>
           (nested = false <-> codeSection ≡ₚ first)
           /\ (nested = true <-> ~ codeSection ≡ₚ first)
           /\ (codeSection ≡ₚ first <-> codeSection = first)
       | [] => nested = true
       end.
Proof.
  unfold parseCodeblockSource.
  destruct (parse_total (S (length codeSection)) admonitions codeSection [])
    as [gs Hgs]; [lia|].
  rewrite Hgs. eexists gs, _. split; [reflexivity|].
  destruct gs as [|first others]; [reflexivity|].
  apply parse_sublists in Hgs. apply Forall_cons in Hgs as [Hsub _].
  assert (Hperm : codeSection ≡ₚ first <-> codeSection = first).
  { split; [|by intros ->].
    intros Hp. symmetry. apply sublist_same_length; [exact Hsub|].
    by rewrite Hp. }
  assert (Heq : arraysEqual codeSection first = true <-> codeSection ≡ₚ first).
  { rewrite arraysEqual_spec. split.
    - intros [Hlen _]. apply Hperm. symmetry.
      by apply sublist_same_length.
    - intros Hp. split; [by rewrite Hp|].
      intros el. by rewrite Hp. }
  split; [|split; [|exact Hperm]].
  - rewrite negb_false_iff. exact Heq.
  - rewrite negb_true_iff, <- Heq.
    destruct (arraysEqual codeSection first); split; congruence.
Qed.

End Segmentation.


(** C5, counterexample: a line of text followed by a codeblock, and a line
    of text followed by a fence that is never closed, are each their own
    first group, so [nested] is [false]; neither input is one codeblock,
    its first line opens none. *)
Lemma prose_before_block_not_nested :
  CodeblockParsing.parseCodeblockSource prose_then_block false
  = Some ([prose_then_block], false)
  /\ CodeblockParsing.parseCodeblockSource prose_then_open_fence false
     = Some ([prose_then_open_fence], false)
  /\ CodeblockParsing.testOpeningLine "intro" = EmptyString
  /\ exactly_one_codeblock prose_then_block = false
  /\ exactly_one_codeblock prose_then_open_fence = false.
Proof. vm_compute. repeat split; reflexivity. Qed.

(** A codeblock alone is one codeblock in the words of the specification,
    also when text follows its opening fence. *)
Example exactly_one_codeblock_samples :
  exactly_one_codeblock sample_block = true
  /\ exactly_one_codeblock ["~~~js title:x"; "a"; "b"; "~~~"] = true
  /\ exactly_one_codeblock ["```python"] = false
  /\ exactly_one_codeblock ["```python"; "```"; "tail"] = false.
Proof. vm_compute. repeat split; reflexivity. Qed.

(** A codeblock alone is not nested; a codeblock in a note is. *)
Example nested_flag_samples :
  CodeblockParsing.parseCodeblockSource sample_block false
  = Some ([sample_block], false)
  /\ snd <$> CodeblockParsing.parseCodeblockSource sample_note false
     = Some true.
Proof. split; reflexivity. Qed.

(** ** Local paths *)

Section LocalPaths.
Import ReferenceParsing.

Variable URL_after_scheme : string -> string -> option (string * string * string).
Variable refContentPath : string -> string.
Variable getFirstLinkpathDest : string -> string -> option string.
Variable normalizePath : string -> string.
Variable extname : string -> string.
Variable RegExp_new : string -> option (string -> bool).

(** A path with no scheme is not a URL: the constructor throws. *)
Lemma new_URL_without_scheme (path : string) :
  split_scheme (url_input path) = None ->
  new_URL URL_after_scheme path = None.
Proof. intros H. unfold new_URL. by rewrite H. Qed.

(** So every reference body whose path has no scheme is refused, whatever
    the YAML parser and the body. *)
Lemma parseRefParams_without_scheme (parseYaml : string -> result yaml)
  (source sourcePath path : string) (params : ParsedParams) :
  parseYaml (prepare_source source) = Ok (YMapping params) ->
  orElse (pp_filePath params)
    (orElse (pp_file params) (orElse (pp_path params) (pp_link params)))
  = Some path ->
  path <> EmptyString ->
  split_scheme (url_input path) = None ->
  parseRefParams parseYaml URL_after_scheme refContentPath
    getFirstLinkpathDest normalizePath extname RegExp_new source sourcePath
  = Throw (TypeError "Invalid URL").
Proof.
  intros Hyaml Hpath Hne Hscheme. unfold parseRefParams.
  rewrite Hyaml. cbn [mbind result_bind]. rewrite Hpath.
  destruct (String.eqb_spec path EmptyString) as [-> | _]; [congruence|].
  by rewrite (new_URL_without_scheme path Hscheme).
Qed.

(** C2, at the failing inputs. For a reference body whose path is one of
    the local shapes (relative with [./] or [../] or a bare first segment,
    vault-relative with [@/], a wiki link, or a leading slash),
    [parseRefParams] throws the [TypeError] of the URL constructor, which it
    calls on every path before it looks at the protocol: no local path is
    resolved, and a leading slash does not get the error that points to
    [@/]. *)
Theorem local_paths_throw_invalid_url (source sourcePath : string) :
  Forall
    (fun p =>
       parseRefParams (fun _ => Ok (YMapping (path_only p))) URL_after_scheme
         refContentPath getFirstLinkpathDest normalizePath extname RegExp_new
         source sourcePath
       = Throw (TypeError "Invalid URL"))
    local_shapes.
Proof. repeat constructor. Qed.

(** What [resolveLocalPath] does with the same shapes when it is reached:
    the behaviour the specification describes. *)
Lemma resolveLocalPath_shapes :
  resolveLocalPath getFirstLinkpathDest normalizePath "@/utils/helper.py"
    "notes/doc.md" = Ok "utils/helper.py"
  /\ resolveLocalPath getFirstLinkpathDest normalizePath "./utils/helper.py"
       "notes/doc.md" = Ok (normalizePath "notes/utils/helper.py")
  /\ resolveLocalPath getFirstLinkpathDest normalizePath "utils/helper.py"
       "notes/doc.md" = Ok (normalizePath "notes/utils/helper.py")
  /\ resolveLocalPath getFirstLinkpathDest normalizePath "../shared/helper.py"
       "notes/sub/doc.md" = Ok (normalizePath "notes/shared/helper.py")
  /\ resolveLocalPath getFirstLinkpathDest normalizePath "../../helper.py"
       "notes/doc.md"
     = Throw (Error ("Path references outside vault, too many "
                       +:+ quoted "../" +:+ "s used"))
  /\ resolveLocalPath getFirstLinkpathDest normalizePath "[[helper]]"
       "notes/doc.md"
     = Ok (default "[[helper]]" (getFirstLinkpathDest "helper" "notes/doc.md"))
  /\ resolveLocalPath getFirstLinkpathDest normalizePath "/utils/helper.py"
       "notes/doc.md"
     = Throw (Error ("Path should not start with " +:+ quoted "/" +:+ ", use "
                       +:+ quoted "@/"
                       +:+ " to reference a path relative to the vault root folder")).
Proof. repeat split; reflexivity. Qed.

End LocalPaths.

(** ** Line limits *)

Section LineLimits.
Import ReferenceParsing.

Variable RegExp_new : string -> option (string -> bool).

Abbreviation getLineLimits' := (getLineLimits RegExp_new).
Abbreviation startIndex_of' := (startIndex_of RegExp_new).
Abbreviation endIndex_of' := (endIndex_of RegExp_new).

(** The arithmetic of numbers on integers is that of [Z]. *)
Lemma js_add_Num (a b : Z) : JS.js_add a b = JS.Num (a + b).
Proof. reflexivity. Qed.

Lemma js_sub_Num (a b : Z) : JS.js_sub a b = JS.Num (a - b).
Proof. reflexivity. Qed.

Lemma js_lt_Num (a b : Z) : JS.js_lt a b = (a <? b).
Proof. reflexivity. Qed.

Lemma js_eq_Num (a b : Z) : JS.js_eq a b = (a =? b).
Proof. reflexivity. Qed.

Lemma of_Z_safe (z : Z) : Z.abs z <= 2 ^ 53 -> JS.of_Z z = JS.Num z.
Proof.
  intros H. unfold JS.of_Z, JS.safe.
  by replace (Z.abs z <=? 2 ^ 53) with true by (symmetry; apply Z.leb_le; lia).
Qed.

Lemma slice_num_Num {A} (l : list A) (a b : Z) :
  JS.slice_num l a b = JS.slice l a (Some b).
Proof. reflexivity. Qed.

Lemma of_SF_Dbl (f g : spec_float) : JS.of_SF f = JS.Dbl g -> g = f.
Proof.
  destruct f as [s|s| |s m e]; simpl; try discriminate.
  - by intros [= <-].
  - destruct (JS.integer_value s m e) as [z|];
      [destruct (JS.safe z)|]; (discriminate || by intros [= <-]).
Qed.

Lemma norm_Dbl (x : JS.jsnum) (f : spec_float) :
  JS.norm x = JS.Dbl f -> JS.of_SF f = JS.Dbl f.
Proof.
  destruct x as [z| |g]; simpl; try discriminate.
  intros H. pose proof (of_SF_Dbl _ _ H) as ->. exact H.
Qed.

(** Two finite doubles that compare equal are the same double. *)
Lemma SFeqb_finite (s1 s2 : bool) (m1 m2 : positive) (e1 e2 : Z) :
  SFeqb (S754_finite s1 m1 e1) (S754_finite s2 m2 e2) = true ->
  s1 = s2 /\ m1 = m2 /\ e1 = e2.
Proof.
  unfold SFeqb, SFcompare.
  destruct s1, s2; try discriminate;
    destruct (Z.compare_spec e1 e2) as [-> | |]; try discriminate;
    destruct (Pos.compare_cont Eq m1 m2) eqn:E; try discriminate;
    apply Pos.compare_eq in E as ->; auto.
Qed.

(** What is equal to [-1] is the integer [-1]. *)
Lemma js_eq_minus_one (x : JS.jsnum) :
  JS.js_eq x (-1) = true -> JS.norm x = JS.Num (-1).
Proof.
  unfold JS.js_eq. cbn [JS.norm]. destruct (JS.norm x) as [z| |f] eqn:E.
  - intros H. apply Z.eqb_eq in H as ->. reflexivity.
  - discriminate.
  - apply norm_Dbl in E. intros H. exfalso.
    change (JS.to_SF (JS.Dbl f)) with f in H.
    change (JS.to_SF (JS.Num (-1)))
      with (S754_finite true 4503599627370496 (-52)) in H.
    destruct f as [s|s| |s m e]; try discriminate H;
      try (destruct s; discriminate H).
    apply SFeqb_finite in H as (-> & -> & ->). discriminate E.
Qed.

Lemma startIndex_def (lines : list string) :
  startIndex_of' lines (LStr "/^def /") =
    match RegExp_new "^def " with
    | Some t => Ok (JS.Num (JS.findIndex t lines))
    | None => Throw (SyntaxError "Invalid regular expression")
    end.
Proof.
  unfold startIndex_of, anchor_index.
  change (JS.startsWith "/^def /" "/" && JS.endsWith "/^def /" "/") with true.
  change (unslash "/^def /") with "^def ".
  by destruct (RegExp_new "^def ").
Qed.

Lemma endIndex_plus_ten (lines : list string) (startIndex : Z) :
  endIndex_of' lines startIndex (LStr "+10") = Ok (JS.Num (startIndex + 10)).
Proof. reflexivity. Qed.

(** C3. With [start] the pattern [/^def /] between slashes and [end] the
    relative [+10], [getLineLimits] returns the section from the first line
    the pattern matches through the ten lines after it (fewer if the file
    ends before), and [startLine] is the 1-based number of that line. And
    for every content and parameters, whatever numbers the two indexes
    are, when the start index comes after the end index the error
    [Specified Start line is after the specified End line] is thrown;
    the integers among the two indexes are taken within [2 ^ 53], where
    the integers are those of the code. *)
Theorem line_limits_regex_plus_ten :
  (forall (content : string) (p sp lang : string) (ext : option ExtRefParams)
          (t : string -> bool) (i : nat) (line : string),
      RegExp_new "^def " = Some t ->
      JS.split content JS.LF !! i = Some line ->
      t line = true ->
      (forall j l', (j < i)%nat -> JS.split content JS.LF !! j = Some l' ->
                    t l' = false) ->
      getLineLimits' content
        (mkRefParams p sp lang (LStr "/^def /") (LStr "+10") ext)
      = Ok (mkLineLimits
              (JS.join (String JS.LF EmptyString)
                 (take 11 (drop i (JS.split content JS.LF))))
              (Z.of_nat i + 1)))
  /\ (forall (content : string) (params : RefParams) (si ei : JS.jsnum),
        startIndex_of' (JS.split content JS.LF) (start params) = Ok si ->
        endIndex_of' (JS.split content JS.LF) si (end_ params) = Ok ei ->
        exact_number si -> exact_number ei ->
        JS.js_lt ei si = true ->
        getLineLimits' content params
        = Throw (Error "Specified Start line is after the specified End line")).
Proof.
  split.
  - intros content p sp lang ext t i line Ht Hi Hline Hfirst.
    unfold getLineLimits. cbn [start end_].
    rewrite startIndex_def, Ht.
    unfold JS.findIndex.
    rewrite (findIndex_from_first t _ i line 0 Hi Hline Hfirst).
    cbn [mbind result_bind]. rewrite endIndex_plus_ten.
    cbn [mbind result_bind].
    rewrite !js_add_Num, js_lt_Num, !js_eq_Num, slice_num_Num.
    replace (0 + Z.of_nat i + 10 <? 0 + Z.of_nat i) with false
      by (symmetry; apply Z.ltb_ge; lia).
    replace (0 + Z.of_nat i =? -1) with false
      by (symmetry; apply Z.eqb_neq; lia).
    replace (0 + Z.of_nat i + 10 =? -1) with false
      by (symmetry; apply Z.eqb_neq; lia).
    replace (0 + Z.of_nat i + 10 + 1) with (Z.of_nat i + Z.of_nat 11) by lia.
    replace (0 + Z.of_nat i + 1) with (Z.of_nat i + 1) by lia.
    replace (0 + Z.of_nat i) with (Z.of_nat i) by lia.
    rewrite slice_take_drop; [reflexivity|].
    apply lookup_lt_Some in Hi. lia.
  - intros content params si ei Hs He _ _ Hlt.
    unfold getLineLimits. rewrite Hs. cbn [mbind result_bind].
    rewrite He. cbn [mbind result_bind]. by rewrite Hlt.
Qed.

(** A [RegExp] object as a start, which is what [getLineIdentifier] makes
    of a pattern between slashes, is not handled: [getLineLimits] treats
    its anchors as strings. *)
Lemma line_limits_RegExp_object (content src : string) (p sp lang : string)
  (e : LineIdentifier) (ext : option ExtRefParams) :
  exists message,
    getLineLimits' content (mkRefParams p sp lang (LRegExp src) e ext)
    = Throw (TypeError message).
Proof. eexists. reflexivity. Qed.

(** What the two indexes can throw is not the error of the end line. *)
Lemma startIndex_throws (lines : list string) (start : LineIdentifier)
  (e : exn) :
  startIndex_of' lines start = Throw e ->
  e <> Error "End line could not be found".
Proof.
  destruct start as [|n|s|src]; simpl; try discriminate.
  - unfold anchor_index.
    destruct (_ && _); [destruct (RegExp_new _)|]; try discriminate.
    intros [= <-]. discriminate.
  - intros [= <-]. discriminate.
Qed.

Lemma endIndex_throws (lines : list string) (si : JS.jsnum)
  (end_ : LineIdentifier) (e : exn) :
  endIndex_of' lines si end_ = Throw e ->
  e <> Error "End line could not be found".
Proof.
  destruct end_ as [|n|s|src]; simpl; try discriminate.
  - unfold anchor_index.
    destruct (_ && _).
    + destruct (RegExp_new _); try discriminate. intros [= <-]. discriminate.
    + destruct (JS.startsWith s "+"); discriminate.
  - intros [= <-]. discriminate.
Qed.

(** C10 (amended). When the start is no number, or is an integer that is
    not negative, [getLineLimits] never throws [End line could not be
    found]: an end index of [-1] meets either a start index of [-1], and
    [Start line could not be found] is thrown, or a start index of at
    least [0], and [Specified Start line is after the specified End line]
    is thrown. *)
Theorem end_not_found_needs_negative_start (content : string)
  (params : RefParams) :
  (forall n, start params = LNum n -> exists z : Z, n = JS.Num z /\ 0 <= z) ->
  getLineLimits' content params <> Throw (Error "End line could not be found")
  /\ (forall si,
        startIndex_of' (JS.split content JS.LF) (start params) = Ok si ->
        endIndex_of' (JS.split content JS.LF) si (end_ params)
          = Ok (JS.Num (-1)) ->
        getLineLimits' content params
        = Throw (Error (if JS.js_eq si (-1)
                        then "Start line could not be found"
                        else "Specified Start line is after the specified End line"))).
Proof.
  intros Hstart.
  assert (Hsi : forall si,
             startIndex_of' (JS.split content JS.LF) (start params) = Ok si ->
             exists s : Z, si = JS.Num s /\ -1 <= s).
  { intros si. destruct (start params) as [|n|s|src] eqn:E; simpl.
    - intros [= <-]. exists 0. split; [reflexivity | lia].
    - destruct (Hstart n eq_refl) as (z & -> & Hz).
      intros [= <-]. exists (z - 1). split; [reflexivity | lia].
    - unfold anchor_index.
      destruct (_ && _); [destruct (RegExp_new _)|]; simpl;
        intros [= <-]; eexists; (split; [reflexivity | apply findIndex_ge]).
    - discriminate. }
  split.
  - unfold getLineLimits.
    destruct (startIndex_of' _ (start params)) as [si|e] eqn:Es;
      cbn [mbind result_bind].
    2:{ intros [= ->]. by apply startIndex_throws in Es. }
    destruct (Hsi si eq_refl) as (s & -> & Hs).
    destruct (endIndex_of' _ s (end_ params)) as [ei|e] eqn:Ee;
      cbn [mbind result_bind].
    2:{ intros [= ->]. by apply endIndex_throws in Ee. }
    destruct (JS.js_lt ei s) eqn:Hlt; [discriminate|].
    destruct (JS.js_eq s (-1)) eqn:Heq; [discriminate|].
    destruct (JS.js_eq ei (-1)) eqn:Hend; [|discriminate].
    exfalso. apply js_eq_minus_one in Hend.
    unfold JS.js_lt in Hlt. rewrite Hend in Hlt. cbn [JS.norm] in Hlt.
    rewrite js_eq_Num in Heq.
    apply Z.ltb_ge in Hlt. apply Z.eqb_neq in Heq. lia.
  - intros si Es Ee. destruct (Hsi si Es) as (s & -> & Hs).
    unfold getLineLimits. rewrite Es. cbn [mbind result_bind].
    rewrite Ee. cbn [mbind result_bind].
    rewrite js_lt_Num, js_eq_Num.
    destruct (Z.eqb_spec s (-1)) as [-> | Hne]; [reflexivity|].
    replace (-1 <? s) with true by (symmetry; apply Z.ltb_lt; lia).
    reflexivity.
Qed.

(** With a negative start line number and an end index of [-1] the error
    is thrown. *)
Lemma end_not_found_negative_start (content : string) (params : RefParams)
  (n : Z) :
  start params = LNum n -> n < 0 ->
  endIndex_of' (JS.split content JS.LF) (n - 1) (end_ params)
    = Ok (JS.Num (-1)) ->
  getLineLimits' content params = Throw (Error "End line could not be found").
Proof.
  intros Hs Hn He. unfold getLineLimits. rewrite Hs.
  cbn [startIndex_of mbind result_bind]. rewrite js_sub_Num, He.
  cbn [mbind result_bind]. rewrite js_lt_Num, js_eq_Num.
  replace (-1 <? n - 1) with false by (symmetry; apply Z.ltb_ge; lia).
  replace (n - 1 =? -1) with false by (symmetry; apply Z.eqb_neq; lia).
  reflexivity.
Qed.

(** So it is with a start that is [NaN]: it is after no index and equal to
    none. *)
Lemma end_not_found_NaN_start (content : string) (params : RefParams) :
  start params = LNum JS.NaN ->
  endIndex_of' (JS.split content JS.LF) JS.NaN (end_ params)
    = Ok (JS.Num (-1)) ->
  getLineLimits' content params = Throw (Error "End line could not be found").
Proof.
  intros Hs He. unfold getLineLimits. rewrite Hs.
  cbn [startIndex_of mbind result_bind].
  change (JS.js_sub JS.NaN 1) with JS.NaN. rewrite He. reflexivity.
Qed.

End LineLimits.

(** C3, witness: in the sample file the first line that starts with [def]
    is the second; the section runs from it over eleven lines. A start
    line 3 with an end line 2 is the range error, and so is an end one
    line and a half before the start. *)
Lemma line_limits_regex_plus_ten_witness :
  ReferenceParsing.getLineLimits def_pattern sample_content def_plus_ten
  = Ok (ReferenceParsing.mkLineLimits
          (JS.join (String JS.LF EmptyString)
             ["def f():"; "  pass"; "def g():"; "  return 1"; "six"; "seven";
              "eight"; "nine"; "ten"; "eleven"; "twelve"])
          2)
  /\ ReferenceParsing.getLineLimits def_pattern sample_content three_to_two
     = Throw (Error "Specified Start line is after the specified End line")
  /\ ReferenceParsing.getLineLimits def_pattern sample_content
       fraction_before_start
     = Throw (Error "Specified Start line is after the specified End line").
Proof.
  split; [|split].
  - apply (proj1 (line_limits_regex_plus_ten def_pattern) sample_content
             "lib/util.py" "lib/util.py" "py" None
             (Rx.test (Rx.Cat [Rx.Bol; Rx.Lit "def "])) 1%nat "def f():").
    + reflexivity.
    + reflexivity.
    + reflexivity.
    + intros j l' Hj. assert (j = 0%nat) as -> by lia.
      intros [= <-]. reflexivity.
  - apply (proj2 (line_limits_regex_plus_ten def_pattern) sample_content
             three_to_two 2 1).
    + reflexivity.
    + reflexivity.
    + by vm_compute.
    + by vm_compute.
    + reflexivity.
  - apply (proj2 (line_limits_regex_plus_ten def_pattern) sample_content
             fraction_before_start 1 (JS.js_add 1 (JS.Number "-1.5"))).
    + reflexivity.
    + reflexivity.
    + by vm_compute.
    + by vm_compute.
    + vm_compute. reflexivity.
Defined.

(** C10, counterexample: a start line [-3] (start index [-4]) with an end
    text that no line holds (end index [-1]) passes the first two tests and
    throws [End line could not be found]. Both anchors are what
    [getLineIdentifier] returns for the YAML values [-3] and [zzz]. *)
Lemma end_not_found_is_thrown :
  ReferenceParsing.getLineIdentifier def_pattern
    (Some (ReferenceParsing.SNum (-3)))
  = Ok (ReferenceParsing.start negative_start)
  /\ ReferenceParsing.getLineIdentifier def_pattern
       (Some (ReferenceParsing.SStr "zzz"))
     = Ok (ReferenceParsing.end_ negative_start)
  /\ ReferenceParsing.getLineLimits def_pattern sample_content negative_start
     = Throw (Error "End line could not be found").
Proof. vm_compute. repeat split; reflexivity. Qed.

(** C10, witness: from the first line, an end text that no line holds is
    the range error. *)
Lemma end_not_found_needs_negative_start_witness :
  ReferenceParsing.getLineLimits def_pattern sample_content missing_end
  <> Throw (Error "End line could not be found")
  /\ ReferenceParsing.getLineLimits def_pattern sample_content missing_end
     = Throw (Error "Specified Start line is after the specified End line").
Proof.
  destruct (end_not_found_needs_negative_start def_pattern sample_content
              missing_end) as [H1 H2].
  - intros n. discriminate.
  - split; [exact H1|].
    apply (H2 0); reflexivity.
Defined.

(** ** Headers of the GitHub fetch *)

Section GitHubHeaders.
Import ReferenceParsing.

Variable requestUrl_json : Request -> result (gmap string string).
Variable request_text : string -> result string.
Variable decodeContent : option string -> result string.
Variable timeStamp : string.

Abbreviation fetch := (_fetchExtRef requestUrl_json request_text decodeContent timeStamp).
Abbreviation github := (fetchGitHubSCM requestUrl_json decodeContent timeStamp).

(** What the spread of [fetchGitHubSCM] holds at a key: the caller's
    value when the caller has the key, the default otherwise. *)
Lemma GitHub_HEADERS_lookup (params : ExtRefParams) (k : string) :
  GitHub_HEADERS params !! k =
    match headers params !! k with
    | Some v => Some v
    | None =>
        (<["Accept" := "application/vnd.github+json"]>
           (<["X-GitHub-Api-Version" := "2022-11-28"]>
              (<["User-Agent" := "Obsidian-Code-Styler"]> ∅))
           : gmap string string) !! k
    end.
Proof.
  unfold GitHub_HEADERS, spread. rewrite lookup_union.
  destruct (headers params !! k) as [v|] eqn:Hk.
  - by rewrite union_Some_l.
  - by rewrite (left_id None _).
Qed.

(** Every request [fetchGitHubSCM] sends carries [GitHub_HEADERS]. *)
Lemma fetchGitHubSCM_requests (params : ExtRefParams) (sent : list Request)
  (r : Request) :
  r ∈ snd (github params sent) ->
  r ∈ sent \/ req_headers r = GitHub_HEADERS params.
Proof.
  unfold fetchGitHubSCM.
  destruct (Rx.exec re_github (rawUrl params)) as [partial|]; [|by left].
  unfold mbind, M_bind, requestUrl, modify, lift, mret, M_ret, throw; simpl.
  repeat match goal with
         | |- context [requestUrl_json ?q] =>
             destruct (requestUrl_json q); simpl
         | |- context [decodeContent ?q] =>
             destruct (decodeContent q); simpl
         end;
    rewrite ?elem_of_app, ?list_elem_of_singleton;
    intros H; decompose [or] H; subst; auto.
Qed.

(** C1 (amended). For a host name [github.com] or
    [raw.githubusercontent.com], every request the fetch sends maps
    [Accept] to [application/vnd.github+json] and [X-GitHub-Api-Version]
    to [2022-11-28] unless the caller-supplied headers have that key, in
    which case the caller's value is what is sent: the caller's headers
    are merged over the defaults. *)
Theorem github_fetch_headers (params : ExtRefParams) (r : Request) :
  hostname params = "github.com"
  \/ hostname params = "raw.githubusercontent.com" ->
  r ∈ snd (fetch params []) ->
  req_headers r !! "Accept"
    = Some (default "application/vnd.github+json" (headers params !! "Accept"))
  /\ req_headers r !! "X-GitHub-Api-Version"
    = Some (default "2022-11-28" (headers params !! "X-GitHub-Api-Version")).
Proof.
  intros Hhost Hr.
  assert (Hin : r ∈ snd (github params [])).
  { unfold _fetchExtRef, try_catch in Hr.
    assert (Hb : (String.eqb (hostname params) "github.com"
                  || String.eqb (hostname params) "raw.githubusercontent.com")
                 = true).
    { destruct Hhost as [-> | ->]; reflexivity. }
    rewrite Hb in Hr.
    destruct (github params []) as [[ref|e] sent']; exact Hr. }
  apply fetchGitHubSCM_requests in Hin as [Hin | ->].
  - by apply elem_of_nil in Hin.
  - rewrite !GitHub_HEADERS_lookup.
    split; destruct (headers params !! _); reflexivity.
Qed.

End GitHubHeaders.

(** C1, counterexample: with the caller header [Accept: text/plain] on a
    [github.com] reference, the requests sent do not all map [Accept] to
    [application/vnd.github+json]; the first one maps it to [text/plain]. *)
Lemma github_accept_overwritten :
  ~ (forall r : ReferenceParsing.Request,
        r ∈ snd (quiet_fetch accept_plain) ->
        ReferenceParsing.req_headers r !! "Accept"
          = Some "application/vnd.github+json").
Proof.
  intros H.
  specialize (H (ReferenceParsing.mkRequest
                   "https://api.github.com/repos/o/r/contents/f.py?ref=main"
                   "GET" (ReferenceParsing.GitHub_HEADERS accept_plain))).
  assert (Hin : ReferenceParsing.mkRequest
                   "https://api.github.com/repos/o/r/contents/f.py?ref=main"
                   "GET" (ReferenceParsing.GitHub_HEADERS accept_plain)
                ∈ snd (quiet_fetch accept_plain)).
  { vm_compute. apply list_elem_of_here. }
  specialize (H Hin). vm_compute in H. discriminate H.
Qed.

(** C1, witness: with no caller header the first request of the fetch
    carries the two defaults. *)
Lemma github_fetch_headers_witness :
  ReferenceParsing.req_headers
    (ReferenceParsing.mkRequest
       "https://api.github.com/repos/o/r/contents/f.py?ref=main"
       "GET" (ReferenceParsing.GitHub_HEADERS no_header)) !! "Accept"
    = Some "application/vnd.github+json"
  /\ ReferenceParsing.req_headers
    (ReferenceParsing.mkRequest
       "https://api.github.com/repos/o/r/contents/f.py?ref=main"
       "GET" (ReferenceParsing.GitHub_HEADERS no_header)) !! "X-GitHub-Api-Version"
    = Some "2022-11-28".
Proof.
  apply (github_fetch_headers (fun _ => Ok ∅) (fun _ => Ok EmptyString)
           (fun _ => Ok EmptyString) "2026-01-01 00:00" no_header).
  - left; reflexivity.
  - vm_compute. apply list_elem_of_here.
Defined.

(** ** The cache of external references *)

Section Cache.
Import ReferenceParsing Referencing.

Variable parseYaml : string -> result yaml.
Variable URL_after_scheme : string -> string -> option (string * string * string).
Variable refContentPath : string -> string.
Variable getFirstLinkpathDest : string -> string -> option string.
Variable normalizePath : string -> string.
Variable extname : string -> string.
Variable RegExp_new : string -> option (string -> bool).
Variable requestUrl_json : Request -> result (gmap string string).
Variable request_text : string -> result string.
Variable decodeContent : option string -> result string.
Variable timeStamp : string.
Variable refMetadataPath : string -> string.

Abbreviation parse :=
  (parseRefParams parseYaml URL_after_scheme refContentPath
     getFirstLinkpathDest normalizePath extname RegExp_new).
Abbreviation fetch :=
  (fetchExtRef requestUrl_json request_text decodeContent timeStamp
     refMetadataPath).

Lemma parseRefParams_external (source sourcePath : string) (rp : RefParams)
  (p : ExtRefParams) :
  parse source sourcePath = Ok rp ->
  external rp = Some p ->
  exists u, new_URL URL_after_scheme (path rp) = Some u
            /\ id p = id_of_URL u /\ rawUrl p = path rp.
Proof.
  unfold parseRefParams.
  destruct (parseYaml _) as [parsed|]; [|discriminate]. cbn [mbind result_bind].
  match goal with
  | |- context [match parsed with _ => _ end] =>
      destruct (match parsed with
                | YNull => Throw (Error "YAML Parse Error")
                | YString s =>
                    if String.eqb s (prepare_source source)
                    then Throw (Error "YAML Parse Error") else Ok no_params
                | YMapping p0 => Ok p0
                | YOther => Ok no_params
                end) as [params|]; [|discriminate]
  end.
  cbn [mbind result_bind].
  destruct (orElse _ _) as [pth|]; [|discriminate].
  destruct (String.eqb pth EmptyString); [discriminate|].
  destruct (new_URL URL_after_scheme pth) as [u|] eqn:Hu; [|discriminate].
  destruct (_ || _).
  - cbn [mbind result_bind].
    destruct (getLineIdentifier RegExp_new (pp_end params)); [|discriminate].
    cbn [mbind result_bind].
    destruct (getLineIdentifier RegExp_new (pp_start params)); [|discriminate].
    cbn [mbind result_bind].
    intros [= <-]. cbn [external path]. intros [= <-]. cbn [id rawUrl].
    exists u. auto.
  - destruct (resolveLocalPath _ _ pth sourcePath); [|discriminate].
    cbn [mbind result_bind].
    destruct (getLineIdentifier RegExp_new (pp_end params)); [|discriminate].
    cbn [mbind result_bind].
    destruct (getLineIdentifier RegExp_new (pp_start params)); [|discriminate].
    cbn [mbind result_bind].
    intros [= <-]. cbn [external]. discriminate.
Qed.

Abbreviation fetch_remote :=
  (_fetchExtRef requestUrl_json request_text decodeContent timeStamp).

(** A fetch may assign to [rawUrl]; it leaves the [id] alone. *)
Lemma _fetchExtRef_id (p : ExtRefParams) (sent sent' : list Request)
  (ref : ExtRef) :
  fetch_remote p sent = (Ok ref, sent') -> id (params ref) = id p.
Proof.
  unfold _fetchExtRef, try_catch, fetchGitHubSCM, requestUrl, request,
    mbind, M_bind, mret, M_ret, modify, lift, throw.
  repeat match goal with
         | |- context [if ?b then _ else _] => destruct b
         | |- context [match Rx.exec ?r ?s with _ => _ end] =>
             destruct (Rx.exec r s)
         | |- context [requestUrl_json ?q] => destruct (requestUrl_json q)
         | |- context [request_text ?q] => destruct (request_text q)
         | |- context [decodeContent ?q] => destruct (decodeContent q)
         end;
    simpl; intros [= <- _]; reflexivity.
Qed.

(** After [fetchExtRef] returns, the entry of the reference lists the
    source document, and no entry has lost a document. *)
Lemma fetchExtRef_cache (p : ExtRefParams) (doc : string) (w w' : World)
  (ref : ExtRef) :
  fetch p doc w = (Ok ref, w') ->
  (exists entry, cacheFile w' = Some (cache_of w')
                 /\ cache_of w' !! id p = Some entry
                 /\ doc ∈ sourcePaths entry)
  /\ (forall k e, cache_of w !! k = Some e ->
        exists e', cache_of w' !! k = Some e'
                   /\ forall d, d ∈ sourcePaths e -> d ∈ sourcePaths e').
Proof.
  unfold fetchExtRef.
  unfold mbind at 1, M_bind at 1. unfold adapter_exists at 1.
  unfold mbind at 1, M_bind at 1, get at 1, mret at 1, M_ret at 1.
  match goal with
  | |- context [(?c ≫= _) w] => set (load := c)
  end.
  unfold mbind at 1, M_bind at 1.
  destruct (load w) as [[ref0|e] w1] eqn:Hload; [|discriminate].
  assert (Hpre : cacheFile w1 = cacheFile w /\ id (params ref0) = id p).
  { subst load. destruct (negb _).
    - unfold updateExtRef, network, update_content, update_metadata,
        mbind, M_bind, mret, M_ret, modify in Hload.
      destruct (fetch_remote p (sent w)) as [[r|e] s'] eqn:Hf;
        simpl in Hload; [|discriminate].
      injection Hload as <- <-. split; [reflexivity|].
      by eapply _fetchExtRef_id.
    - unfold adapter_read, readExtRefMetadata, mbind, M_bind, mret, M_ret,
        get, throw in Hload.
      destruct (vault w !! ext_storePath p); simpl in Hload; [|discriminate].
      injection Hload as <- <-. split; reflexivity. }
  destruct Hpre as [Hc Hid]. rewrite Hid. clear Hload load.
  unfold readCache, writeCache, mbind, M_bind, mret, M_ret, get, modify.
  unfold cache_of. rewrite <- Hc.
  set (cache := default ∅ (cacheFile w1)).
  destruct (cache !! id p) as [entry|] eqn:Hentry.
  - destruct (bool_decide (doc ∈ sourcePaths entry)) eqn:Hdoc; simpl.
    + intros [= _ <-]. fold cache.
      assert (Hsome : cacheFile w1 = Some cache).
      { subst cache. destruct (cacheFile w1); [reflexivity|].
        simpl in Hentry. by rewrite lookup_empty in Hentry. }
      split.
      * exists entry. split; [exact Hsome|]. split; [exact Hentry|].
        by apply bool_decide_eq_true in Hdoc.
      * intros k e He. exists e. auto.
    + intros [= _ <-]. simpl. split.
      * exists (push_sourcePath doc entry). split; [reflexivity|].
        rewrite lookup_alter_eq, Hentry. split; [reflexivity|].
        simpl. apply elem_of_app. right. by apply list_elem_of_singleton.
      * intros k e He. destruct (decide (k = id p)) as [-> | Hne].
        -- exists (push_sourcePath doc entry).
           rewrite lookup_alter_eq, Hentry. split; [reflexivity|].
           rewrite Hentry in He. injection He as <-.
           intros d Hd. simpl. apply elem_of_app. by left.
        -- exists e. rewrite lookup_alter_ne by congruence. auto.
  - simpl. intros [= _ <-]. simpl. split.
    + eexists. split; [reflexivity|].
      rewrite lookup_alter_eq, lookup_insert_eq. split; [reflexivity|].
      simpl. by apply list_elem_of_singleton.
    + intros k e He. destruct (decide (k = id p)) as [-> | Hne].
      * rewrite Hentry in He. discriminate.
      * exists e. rewrite lookup_alter_ne, lookup_insert_ne by congruence.
        auto.
Qed.

(** C9. The [id] that [parseRefParams] gives to an external reference is
    a function of its URL: the host name and the segments of the path and
    query, joined by dashes. So for two reference blocks with the same URL,
    in two documents, the two [id]s are one, and once [fetchExtRef] has
    returned for both, the cache file holds a cache whose entry for that
    [id] (a key of a map: the one entry for it) lists both document
    paths. *)
Theorem same_url_one_cache_entry
  (source1 source2 doc1 doc2 : string) (rp1 rp2 : RefParams)
  (p1 p2 : ExtRefParams) (w w1 w2 : World) (ref1 ref2 : ExtRef) :
  parse source1 doc1 = Ok rp1 ->
  parse source2 doc2 = Ok rp2 ->
  path rp1 = path rp2 ->
  external rp1 = Some p1 ->
  external rp2 = Some p2 ->
  fetch p1 doc1 w = (Ok ref1, w1) ->
  fetch p2 doc2 w1 = (Ok ref2, w2) ->
  (exists u, new_URL URL_after_scheme (path rp1) = Some u
             /\ id p1 = id_of_URL u /\ id p2 = id_of_URL u)
  /\ (exists cache entry,
        cacheFile w2 = Some cache
        /\ cache !! id p1 = Some entry
        /\ doc1 ∈ sourcePaths entry
        /\ doc2 ∈ sourcePaths entry).
Proof.
  intros Hp1 Hp2 Hpath He1 He2 Hf1 Hf2.
  destruct (parseRefParams_external _ _ _ _ Hp1 He1) as (u1 & Hu1 & Hid1 & _).
  destruct (parseRefParams_external _ _ _ _ Hp2 He2) as (u2 & Hu2 & Hid2 & _).
  rewrite <- Hpath, Hu1 in Hu2. injection Hu2 as <-.
  split; [by exists u1|].
  destruct (fetchExtRef_cache _ _ _ _ _ Hf1) as [(e1 & _ & Hl1 & Hd1) _].
  destruct (fetchExtRef_cache _ _ _ _ _ Hf2)
    as [(e2 & Hfile & Hl2 & Hd2) Hkeep].
  destruct (Hkeep _ _ Hl1) as (e' & Hl' & Hsub).
  exists (cache_of w2), e2. rewrite Hid1, <- Hid2.
  split; [exact Hfile|]. split; [exact Hl2|].
  split; [|exact Hd2].
  rewrite Hid1, <- Hid2, Hl2 in Hl'. injection Hl' as <-. by apply Hsub.
Qed.

End Cache.

(** The sample host reads the sample address into the sample parameters,
    from either note. *)
Example sample_address_parsed :
  toy_parseRefParams "path: https://example.com/a/b.py?raw=1" "notes/a.md"
  = Ok example_ref_params
  /\ toy_parseRefParams "path: https://example.com/a/b.py?raw=1" "notes/b.md"
     = Ok example_ref_params.
Proof. split; reflexivity. Qed.

(** C9, witness: the same address referenced from two notes, from a world
    with no file. *)
Lemma same_url_one_cache_entry_witness :
  (exists u,
      ReferenceParsing.new_URL toy_URL_after_scheme
        "https://example.com/a/b.py?raw=1" = Some u
      /\ ReferenceParsing.id example_ext = id_of_URL u
      /\ ReferenceParsing.id example_ext = id_of_URL u)
  /\ (exists cache entry,
        Referencing.cacheFile (snd second_run) = Some cache
        /\ cache !! ReferenceParsing.id example_ext = Some entry
        /\ "notes/a.md" ∈ Referencing.sourcePaths entry
        /\ "notes/b.md" ∈ Referencing.sourcePaths entry).
Proof.
  apply (same_url_one_cache_entry toy_parseYaml toy_URL_after_scheme
           toy_refContentPath (fun _ _ => None) (fun p => p) (fun _ => ".py")
           any_pattern (fun _ => Ok ∅) (fun _ => Ok "print(1)")
           (fun _ => Ok EmptyString) "2026-01-01 00:00" toy_refMetadataPath
           "path: https://example.com/a/b.py?raw=1"
           "path: https://example.com/a/b.py?raw=1"
           "notes/a.md" "notes/b.md" example_ref_params example_ref_params
           example_ext example_ext empty_world (snd first_run) (snd second_run)
           (ok_or example_ref (fst first_run))
           (ok_or example_ref (fst second_run)));
    vm_compute; reflexivity.
Defined.

(* ================================================================= *)
(** * Further properties *)

(** ** The matcher: failure and anchors *)

Section Engine.
Import JS Rx.

(** A continuation that fails wherever the expression can hand over to it
    makes the match fail: the expression only moves forward in the same
    text. *)
Lemma m_none (r : regex) :
  forall (st : mstate) (k : mstate -> option mstate),
    (forall st', rev (before st') ++ after st' = rev (before st) ++ after st ->
                 (length (after st') <= length (after st))%nat ->
                 k st' = None) ->
    m r st k = None.
Proof.
  induction r as [|p|r1 IH1 r2 IH2|r1 IH1 r2 IH2|g r IH|n r IH|n| | |neg r IH
                 |neg r IH]; intros st k Hk.
  - simpl. by apply Hk.
  - simpl. destruct (after st) as [|c l] eqn:E; [reflexivity|].
    destruct (p c); [|reflexivity].
    apply Hk; unfold advance; rewrite E; simpl.
    + by rewrite <- app_assoc.
    + rewrite ?drop_0. lia.
  - simpl. apply IH1. intros st1 Ht1 Hl1. apply IH2. intros st2 Ht2 Hl2.
    apply Hk; [congruence | lia].
  - simpl. rewrite IH1, IH2 by exact Hk. reflexivity.
  - simpl.
    assert (Hloop : forall n st0,
               rev (before st0) ++ after st0 = rev (before st) ++ after st ->
               (length (after st0) <= length (after st))%nat ->
               star_loop g (m r) k n st0 = None).
    { induction n as [|n IHn]; intros st0 Ht0 Hl0; simpl.
      - by apply Hk.
      - rewrite (IH st0).
        + rewrite (Hk st0 Ht0 Hl0). by destruct g.
        + intros st1 Ht1 Hl1.
          destruct (length (after st1) <? length (after st0))%nat;
            [|reflexivity].
          apply IHn; [congruence | lia]. }
    by apply Hloop.
  - simpl. apply IH. intros st1 Ht1 Hl1. by apply Hk.
  - simpl. destruct (cap st n) as [s|]; [|by apply Hk].
    destruct (starts s (after st)); [|reflexivity].
    apply Hk; unfold advance; simpl.
    + rewrite rev_app_distr, rev_involutive, <- app_assoc.
      by rewrite take_drop.
    + rewrite length_drop. lia.
  - simpl. destruct (before st) eqn:E; [|reflexivity].
    apply Hk; [by rewrite E | lia].
  - simpl. destruct (after st) eqn:E; [|reflexivity].
    apply Hk; rewrite E; [reflexivity | simpl; lia].
  - simpl. destruct (m r st Some), neg; try reflexivity;
      apply Hk; simpl; (reflexivity || lia).
  - simpl.
    match goal with |- (if ?b then _ else _) = _ => destruct b end;
      [by apply Hk | reflexivity].
Qed.

(** No match from any position when the expression fails at each one. *)
Lemma exec_from_none (r : regex) (aft bef : list ascii) :
  (forall bef' aft', rev bef' ++ aft' = rev bef ++ aft ->
                     m r (MState bef' aft' []) Some = None) ->
  exec_from r bef aft = None.
Proof.
  revert bef. induction aft as [|c aft IH]; intros bef H; simpl.
  - by rewrite H.
  - rewrite H by reflexivity. apply IH. intros bef' aft' Ht.
    apply H. rewrite Ht. simpl. by rewrite <- app_assoc.
Qed.

(** An expression that starts with [^] matches at the start or nowhere. *)
Lemma exec_from_anchored (r : regex) (aft : list ascii) (c : ascii)
  (bef : list ascii) :
  exec_from (Seq Bol r) (c :: bef) aft = None.
Proof.
  revert c bef. induction aft as [|a aft IH]; intros c bef; simpl;
    [reflexivity | apply IH].
Qed.

Lemma exec_anchored (r : regex) (s : string) :
  exec (Seq Bol r) s =
    match m r (MState [] (chars s) []) Some with
    | Some st' =>
        Some (RMatch 0 []
                (take (length (chars s) - length (after st')) (chars s))
                (after st') (caps st'))
    | None => None
    end.
Proof.
  unfold exec. destruct (chars s) as [|c l]; simpl.
  - by destruct (m r _ _).
  - destruct (m r _ _); [reflexivity | apply exec_from_anchored].
Qed.

Lemma test_anchored (r : regex) (s : string) :
  test (Seq Bol r) s =
    match m r (MState [] (chars s) []) Some with
    | Some _ => true
    | None => false
    end.
Proof. unfold test. rewrite exec_anchored. by destruct (m r _ _). Qed.

(** A match found at the start is the result of [exec]. *)
Lemma exec_at_start (r : regex) (s : string) (st' : mstate) :
  m r (MState [] (chars s) []) Some = Some st' ->
  exec r s =
    Some (RMatch 0 []
            (take (length (chars s) - length (after st')) (chars s))
            (after st') (caps st')).
Proof.
  intros H. unfold exec. destruct (chars s); simpl; simpl in H; by rewrite H.
Qed.

End Engine.

(** ** [split] and [join] *)

Section SplitJoin.
Import JS.

Lemma append_empty_r (s : string) : s +:+ EmptyString = s.
Proof.
  induction s as [|c s IH]; [reflexivity|].
  change (String c s +:+ EmptyString) with (String c (s +:+ EmptyString)).
  by rewrite IH.
Qed.

Lemma split_chars_cons_head (sep c : ascii) (l : list ascii) :
  Ascii.eqb c sep = false ->
  exists w ws, split_chars sep l = w :: ws
               /\ split_chars sep (c :: l) = (c :: w) :: ws.
Proof.
  intros Hc. simpl. rewrite Hc.
  destruct (split_chars sep l) as [|w ws] eqn:E.
  - destruct l as [|a l]; simpl in E; [discriminate|].
    destruct (Ascii.eqb a sep); [discriminate|].
    destruct (split_chars sep l); discriminate.
  - by exists w, ws.
Qed.

Lemma join_cons_char (sep : string) (c : ascii) (w : list ascii)
  (ws : list string) :
  join sep (str (c :: w) :: ws) = String c (join sep (str w :: ws)).
Proof. destruct ws; reflexivity. Qed.

(** Joining the pieces of a split with the separator gives the string
    back. *)
Lemma join_split (s : string) (sep : ascii) :
  join (String sep EmptyString) (split s sep) = s.
Proof.
  unfold split. rewrite <- (str_chars s) at 2.
  induction (chars s) as [|c l IH]; [reflexivity|].
  destruct (Ascii.eqb_spec c sep) as [-> | Hne].
  - simpl. rewrite Ascii.eqb_refl.
    destruct (split_chars sep l) as [|w ws] eqn:E.
    + destruct l as [|a l']; simpl in E; [discriminate|].
      destruct (Ascii.eqb a sep); [discriminate|].
      destruct (split_chars sep l'); discriminate.
    + cbn [map] in *.
      change (join (String sep EmptyString) (str [] :: str w :: map str ws))
        with (String sep
                (join (String sep EmptyString) (str w :: map str ws))).
      by rewrite IH.
  - apply Ascii.eqb_neq in Hne.
    destruct (split_chars_cons_head sep c l Hne) as (w & ws & E1 & E2).
    rewrite E2. rewrite E1 in IH. cbn [map] in *.
    by rewrite join_cons_char, IH.
Qed.

Lemma split_chars_app (sep : ascii) (l1 l2 : list ascii) :
  forallb (fun c => negb (Ascii.eqb c sep)) l1 = true ->
  split_chars sep (l1 ++ sep :: l2) = l1 :: split_chars sep l2.
Proof.
  intros H1. induction l1 as [|c l1 IH]; simpl.
  - by rewrite Ascii.eqb_refl.
  - simpl in H1. apply andb_true_iff in H1 as [Hc H1].
    apply negb_true_iff in Hc. by rewrite Hc, (IH H1).
Qed.

(** Splitting a join of pieces that are free of the separator gives the
    pieces back. *)
Lemma split_join (l : list string) (sep : ascii) :
  l <> [] ->
  Forall (fun x => forallb (fun c => negb (Ascii.eqb c sep)) (chars x) = true)
    l ->
  split (join (String sep EmptyString) l) sep = l.
Proof.
  intros Hne Hall. unfold split.
  induction l as [|x l IH]; [congruence|].
  apply Forall_cons in Hall as [Hx Hall].
  destruct l as [|y l].
  - simpl. rewrite split_chars_none by exact Hx. simpl. by rewrite str_chars.
  - change (join (String sep EmptyString) (x :: y :: l))
      with (x +:+ String sep EmptyString
              +:+ join (String sep EmptyString) (y :: l)).
    rewrite !chars_app. change (chars (String sep EmptyString)) with [sep].
    change (chars x ++ [sep] ++ ?r) with (chars x ++ sep :: r).
    rewrite split_chars_app by exact Hx.
    cbn [map]. rewrite str_chars. f_equal.
    apply IH; [discriminate | exact Hall].
Qed.

Lemma split_nonempty (s : string) (sep : ascii) : split s sep <> [].
Proof.
  unfold split. destruct (chars s) as [|c l]; simpl; [discriminate|].
  destruct (Ascii.eqb c sep); [discriminate|].
  destruct (split_chars sep l); discriminate.
Qed.

End SplitJoin.

(** ** Line limits: the whole file, line numbers, a text *)

Section LineRanges.
Import ReferenceParsing.

Variable RegExp_new : string -> option (string -> bool).

Lemma slice_take_drop_any {A} (l : list A) (i n : nat) :
  JS.slice l (Z.of_nat i) (Some (Z.of_nat i + Z.of_nat n)) = take n (drop i l).
Proof.
  destruct (Nat.le_gt_cases i (length l)) as [H | H].
  - by apply slice_take_drop.
  - unfold JS.slice, JS.rel_index.
    destruct (Z.ltb_spec (Z.of_nat i) 0) as [H0 | _]; [lia|].
    destruct (Z.ltb_spec (Z.of_nat i + Z.of_nat n) 0) as [H0 | _]; [lia|].
    rewrite !Nat.min_r by lia. rewrite Nat.sub_diag, take_0.
    rewrite (drop_ge l i) by lia. by rewrite take_nil.
Qed.

Lemma findIndex_from_none {A} (p : A -> bool) (l : list A) (base : Z) :
  (forall x, x ∈ l -> p x = false) -> JS.findIndex_from p l base = -1.
Proof.
  revert base. induction l as [|a l IH]; intros base H; simpl; [reflexivity|].
  rewrite (H a) by apply list_elem_of_here.
  apply IH. intros x Hx. apply H. by right.
Qed.

(** X1. With no [start] and no [end], [getLineLimits] returns the whole
    content, unchanged, and [startLine] is 1: splitting the content into
    lines and joining them again loses nothing, also for the empty
    content. *)
Theorem line_limits_whole_file (content p sp lang : string)
  (ext : option ExtRefParams) :
  getLineLimits RegExp_new content (mkRefParams p sp lang LNull LNull ext)
  = Ok (mkLineLimits content 1).
Proof.
  unfold getLineLimits. cbn [start end_ startIndex_of endIndex_of mbind result_bind].
  rewrite ?js_sub_Num, ?js_add_Num, ?js_lt_Num, ?js_eq_Num, ?slice_num_Num.
  pose proof (split_nonempty content JS.LF) as Hne.
  assert (Hlen : (1 <= length (JS.split content JS.LF))%nat).
  { destruct (JS.split content JS.LF); [congruence | simpl; lia]. }
  replace (Z.of_nat (length (JS.split content JS.LF)) - 1 <? 0) with false
    by (symmetry; apply Z.ltb_ge; lia).
  replace (Z.of_nat (length (JS.split content JS.LF)) - 1 =? -1) with false
    by (symmetry; apply Z.eqb_neq; lia).
  cbn [Z.eqb].
  replace (Z.of_nat (length (JS.split content JS.LF)) - 1 + 1)
    with (Z.of_nat 0 + Z.of_nat (length (JS.split content JS.LF))) by lia.
  change 0 with (Z.of_nat 0) at 1.
  rewrite slice_take_drop_any, drop_0, firstn_all, join_split.
  reflexivity.
Qed.


(** X3. With a text for [start] (not a pattern between slashes) and no
    [end], the section runs from the first line that contains the text to
    the end of the content, and [startLine] is the number of that line;
    when no line contains the text, [Start line could not be found] is
    thrown. *)
Theorem line_limits_text_start (content p sp lang text : string)
  (ext : option ExtRefParams) :
  JS.startsWith text "/" && JS.endsWith text "/" = false ->
  (forall (i : nat) (line : string),
      JS.split content JS.LF !! i = Some line ->
      -1 < JS.indexOf line text 0 ->
      (forall j l', (j < i)%nat -> JS.split content JS.LF !! j = Some l' ->
                    JS.indexOf l' text 0 = -1) ->
      getLineLimits RegExp_new content
        (mkRefParams p sp lang (LStr text) LNull ext)
      = Ok (mkLineLimits
              (JS.join (String JS.LF EmptyString)
                 (drop i (JS.split content JS.LF)))
              (Z.of_nat i + 1)))
  /\ ((forall line, line ∈ JS.split content JS.LF ->
                    JS.indexOf line text 0 = -1) ->
      getLineLimits RegExp_new content
        (mkRefParams p sp lang (LStr text) LNull ext)
      = Throw (Error "Start line could not be found")).
Proof.
  intros Hplain.
  pose proof (split_nonempty content JS.LF) as Hne.
  assert (Hlen : (1 <= length (JS.split content JS.LF))%nat).
  { destruct (JS.split content JS.LF); [congruence | simpl; lia]. }
  split.
  - intros i line Hi Hline Hfirst. unfold getLineLimits.
    cbn [start end_ startIndex_of]. unfold anchor_index. rewrite Hplain.
    unfold JS.findIndex.
    rewrite (findIndex_from_first _ _ i line 0 Hi).
    2:{ by apply Z.ltb_lt. }
    2:{ intros j l' Hj Hl'. apply Z.ltb_ge. rewrite (Hfirst j l' Hj Hl'). lia. }
    cbn [fmap result_fmap mbind result_bind endIndex_of].
    rewrite ?js_sub_Num, ?js_add_Num, ?js_lt_Num, ?js_eq_Num, ?slice_num_Num.
    apply lookup_lt_Some in Hi.
    replace (Z.of_nat (length (JS.split content JS.LF)) - 1 <? 0 + Z.of_nat i)
      with false by (symmetry; apply Z.ltb_ge; lia).
    replace (0 + Z.of_nat i =? -1) with false
      by (symmetry; apply Z.eqb_neq; lia).
    replace (Z.of_nat (length (JS.split content JS.LF)) - 1 =? -1) with false
      by (symmetry; apply Z.eqb_neq; lia).
    replace (Z.of_nat (length (JS.split content JS.LF)) - 1 + 1)
      with (Z.of_nat i
            + Z.of_nat (length (JS.split content JS.LF) - i)) by lia.
    replace (0 + Z.of_nat i) with (Z.of_nat i) by lia.
    rewrite slice_take_drop_any, take_ge by (rewrite length_drop; lia).
    reflexivity.
  - intros Hnone. unfold getLineLimits.
    cbn [start end_ startIndex_of]. unfold anchor_index. rewrite Hplain.
    unfold JS.findIndex. rewrite findIndex_from_none.
    2:{ intros x Hx. apply Z.ltb_ge. rewrite (Hnone x Hx). lia. }
    cbn [fmap result_fmap mbind result_bind endIndex_of].
    rewrite ?js_sub_Num, ?js_add_Num, ?js_lt_Num, ?js_eq_Num, ?slice_num_Num.
    replace (Z.of_nat (length (JS.split content JS.LF)) - 1 <? -1)
      with false by (symmetry; apply Z.ltb_ge; lia).
    reflexivity.
Qed.

End LineRanges.

(** ** Relative paths *)

Section RelativePaths.
Import ReferenceParsing.

Variable normalizePath : string -> string.

Lemma substring_after_prefix (a b : string) :
  JS.substring (a +:+ b) (Z.of_nat (String.length a)) None = b.
Proof.
  unfold JS.substring. rewrite Nat2Z.id.
  assert (Hlen : String.length (a +:+ b)
                 = (String.length a + String.length b)%nat).
  { induction a as [|c a IH]; simpl; [reflexivity | by rewrite IH]. }
  assert (Hchars : forall s, length (JS.chars s) = String.length s).
  { induction s as [|c s IH]; simpl; [reflexivity | by rewrite IH]. }
  rewrite Hlen, Nat.min_l, Nat.max_r, Nat.min_l by lia.
  rewrite chars_app, drop_app_length' by (symmetry; apply Hchars).
  rewrite take_ge by (rewrite Hchars; lia).
  apply str_chars.
Qed.

Lemma climb_climbing (rest : string) :
  JS.startsWith rest "../" = false ->
  forall (n fuel : nat) (dirs : list string),
    (n <= fuel)%nat ->
    climb fuel (climbing n rest) dirs =
      if (n <=? length dirs)%nat
      then Ok (rest, take (length dirs - n) dirs)
      else Throw (Error ("Path references outside vault, too many "
                           +:+ quoted "../" +:+ "s used")).
Proof.
  intros Hrest. induction n as [|n IH]; intros fuel dirs Hfuel.
  - simpl. rewrite Nat.sub_0_r, firstn_all.
    destruct fuel; simpl; [reflexivity | by rewrite Hrest].
  - destruct fuel as [|fuel]; [lia|].
    change (climbing (S n) rest) with ("../" +:+ climbing n rest).
    cbn [climb].
    change (JS.startsWith ("../" +:+ climbing n rest) "../") with true.
    cbv iota.
    change 3 with (Z.of_nat (String.length "../")).
    rewrite substring_after_prefix.
    destruct dirs as [|d dirs]; [reflexivity|].
    cbn [pop]. rewrite IH by lia.
    assert (Hrl : removelast (d :: dirs) = take (length dirs) (d :: dirs))
      by (by rewrite removelast_firstn_len).
    rewrite Hrl, length_take. cbn [length].
    rewrite (Nat.min_l (length dirs)) by lia.
    change (S n <=? S (length dirs))%nat with (n <=? length dirs)%nat.
    destruct (Nat.leb_spec n (length dirs)); [|reflexivity].
    rewrite take_take. do 3 f_equal. lia.
Qed.

(** X4. A relative path that starts with [n] times [../], resolved from
    a note that lies [d] directories deep, is the rest of the path under
    the directory [n] levels above the note when [n <= d]; when [n > d] it
    would leave the vault, and the error [Path references outside vault]
    is thrown. *)
Theorem relative_path_stays_in_vault (dirs : list string)
  (file rest : string) (n : nat) :
  Forall segment dirs -> segment file ->
  JS.startsWith rest "../" = false ->
  JS.startsWith rest "./" = false ->
  getRelativePath normalizePath (climbing n rest)
    (JS.join "/" (dirs ++ [file]))
  = if (n <=? length dirs)%nat
    then Ok (normalizePath
               (JS.join "/" (take (length dirs - n) dirs ++ [rest])))
    else Throw (Error ("Path references outside vault, too many "
                         +:+ quoted "../" +:+ "s used")).
Proof.
  intros Hdirs Hfile Hrest Hdot. unfold getRelativePath.
  assert (Hstart : JS.startsWith (climbing n rest) "./" = false).
  { destruct n; [exact Hdot | reflexivity]. }
  rewrite Hstart.
  rewrite split_join.
  2:{ by destruct dirs. }
  2:{ apply Forall_app. split; [exact Hdirs | by constructor]. }
  assert (Hpop : fst (pop (dirs ++ [file])) = dirs).
  { unfold pop. destruct (dirs ++ [file]) eqn:E.
    - by destruct dirs.
    - rewrite <- E. simpl. apply removelast_last. }
  rewrite Hpop.
  rewrite (climb_climbing rest Hrest).
  2:{ clear. induction n as [|n IH]; [lia|].
      change (climbing (S n) rest)
        with (String "." (String "." (String "/" (climbing n rest)))).
      simpl. lia. }
  by destruct (n <=? length dirs)%nat.
Qed.

End RelativePaths.

(** ** The kinds of highlight rules *)

Section RuleKinds.
Import Rx CodeblockParsing.

Variable RegExp_new : string -> option (string -> bool).

Lemma elem_of_after (bef aft l : list ascii) (c : ascii) :
  rev bef ++ aft = l -> c ∈ aft -> c ∈ l.
Proof. intros <- H. apply elem_of_app. by right. Qed.

Lemma test_none (r : regex) (s : string) :
  (forall bef aft, rev bef ++ aft = JS.chars s ->
                   m r (MState bef aft []) Some = None) ->
  test r s = false.
Proof.
  intros H. unfold test, exec. rewrite exec_from_none; [reflexivity|].
  intros bef aft Ht. apply H. by rewrite Ht.
Qed.

Lemma head_class_false (p : ascii -> bool) (bef aft l : list ascii) :
  rev bef ++ aft = l -> (forall c, c ∈ l -> p c = false) ->
  match aft with c :: _ => p c = false | [] => True end.
Proof.
  intros Ht H. destruct aft as [|c aft]; [exact I|].
  apply H. eapply elem_of_after; [exact Ht | apply list_elem_of_here].
Qed.

Lemma digits_elem (l : list ascii) (c : ascii) :
  forallb JS.is_digit l = true -> c ∈ l -> JS.is_digit c = true.
Proof.
  intros H Hc. rewrite forallb_forall in H. apply H. by apply list_elem_of_In.
Qed.

(** The tests of [addHighlightRule] on a numeral. *)
Lemma numeral_tests (d : string) :
  numeral d ->
  test re_number_range d = false
  /\ test re_slashes d = false
  /\ test re_double_quoted d = false
  /\ test re_single_quoted d = false
  /\ test re_non_digit d = false
  /\ test re_digits d = true.
Proof.
  intros Hd. pose proof Hd as [Hne Hall].
  destruct (numeral_chars d Hd) as (c & l & E & Hc & Hl).
  assert (Hno : forall a x, JS.is_digit a = false -> x ∈ JS.chars d ->
                            JS.is_char a x = false).
  { intros a x Ha Hx. apply digit_not_char; [exact Ha|].
    exact (digits_elem _ _ Hall Hx). }
  repeat split.
  - apply test_none. intros bef aft Ht.
    unfold re_number_range, Cat; cbn [fold_right].
    rewrite m_seq. apply m_none. intros st' Ht' _.
    rewrite m_seq. unfold Lit1. destruct st' as [b' a' cs'].
    apply m_chr_miss. eapply head_class_false.
    + simpl in Ht'. rewrite Ht'. simpl. exact Ht.
    + intros x Hx. by apply Hno.
  - unfold re_slashes, Cat; cbn [fold_right]. rewrite test_anchored, E.
    rewrite m_seq. unfold Lit1. rewrite m_chr_miss; [reflexivity|].
    apply Hno; [reflexivity|]. rewrite E. apply list_elem_of_here.
  - apply test_none. intros bef aft Ht.
    unfold re_double_quoted, Cat; cbn [fold_right].
    rewrite m_seq. unfold Lit1. apply m_chr_miss.
    eapply head_class_false; [exact Ht|]. intros x Hx. by apply Hno.
  - apply test_none. intros bef aft Ht.
    unfold re_single_quoted, Cat; cbn [fold_right].
    rewrite m_seq. unfold Lit1. apply m_chr_miss.
    eapply head_class_false; [exact Ht|]. intros x Hx. by apply Hno.
  - apply test_none. intros bef aft Ht.
    unfold re_non_digit, Not. apply m_chr_miss.
    eapply head_class_false; [exact Ht|]. intros x Hx. simpl.
    by rewrite (digits_elem _ _ Hall Hx).
  - eapply test_true. rewrite E. unfold re_digits.
    apply plus_class_all; [exact Hc | exact Hl | reflexivity].
Qed.

(** X5. A highlight rule that is a numeral of at most [2 ^ 53], which
    [parseInt] reads exactly, adds the line it names to the line numbers,
    once, and nothing else; unlike a range that starts at [0], the rule
    [0] adds the line [0]. Alone in a rule list it yields that one line
    number. *)
Theorem numeral_rule_adds_line (d : string) (h : Highlights) :
  numeral d -> value d <= 2 ^ 53 ->
  addHighlightRule RegExp_new h d
  = mkHighlights (JS.set_add (value d) (lineNumbers h)) (plainText h)
      (regularExpressions h)
  /\ parseHighlightedLines RegExp_new d = mkHighlights [value d] [] [].
Proof.
  intros Hd Hsafe.
  destruct (numeral_tests d Hd) as (H1 & H2 & H3 & H4 & H5 & H6).
  pose proof Hd as [Hne Hall].
  assert (Hrule : forall h', addHighlightRule RegExp_new h' d
            = mkHighlights (JS.set_add (value d) (lineNumbers h'))
                (plainText h') (regularExpressions h')).
  { intros h'. unfold addHighlightRule.
    rewrite H1, H2, H3, H4, H5, H6. cbn [orb].
    by rewrite (parseInt_digits d Hne Hall (numeral_exact d Hd Hsafe)). }
  split; [apply Hrule|].
  unfold parseHighlightedLines, JS.split.
  rewrite split_chars_none by (apply digits_no_sep; [reflexivity | exact Hall]).
  cbn [map fold_left]. rewrite str_chars. apply Hrule.
Qed.

End RuleKinds.

(** ** Backtracking out of a greedy run *)

Section Backtracking.
Import JS Rx.

Lemma star_loop_none (g : bool) (r : regex) (k : mstate -> option mstate)
  (n : nat) (st : mstate) :
  (forall st', rev (before st') ++ after st' = rev (before st) ++ after st ->
               (length (after st') <= length (after st))%nat ->
               k st' = None) ->
  star_loop g (m r) k n st = None.
Proof.
  revert st. induction n as [|n IH]; intros st Hk; simpl.
  - apply Hk; [reflexivity | lia].
  - rewrite (m_none r).
    + rewrite (Hk st eq_refl (le_n _)). by destruct g.
    + intros st1 Ht1 Hl1.
      destruct (length (after st1) <? length (after st))%nat; [|reflexivity].
      apply IH. intros st2 Ht2 Hl2. apply Hk; [congruence | lia].
Qed.

(** A greedy repetition of a class gives back what it took, one character
    at a time, until the continuation accepts: when the continuation
    accepts after [l1], a run of the class, and nowhere further, that is the
    result. *)
Lemma star_greedy_backtrack (p : ascii -> bool)
  (k : mstate -> option mstate) (l1 l2 : list ascii)
  (cs : list (nat * list ascii)) (x : mstate) :
  forallb p l1 = true ->
  forall (bef : list ascii) (n : nat),
    (forall st', rev (before st') ++ after st' = rev bef ++ l1 ++ l2 ->
                 (length (after st') < length l2)%nat -> k st' = None) ->
    k (MState (rev l1 ++ bef) l2 cs) = Some x ->
    (length (l1 ++ l2) <= n)%nat ->
    star_loop true (m (Chr p)) k n (MState bef (l1 ++ l2) cs) = Some x.
Proof.
  induction l1 as [|c l1 IH]; intros Hp bef n Hfail Hk Hn.
  - change ([] ++ l2) with l2 in *. change (rev [] ++ bef) with bef in Hk.
    destruct n as [|n]; [exact Hk|].
    rewrite star_loop_S. cbv beta zeta.
    destruct l2 as [|c l2]; [by rewrite m_chr_miss|].
    destruct (p c) eqn:Hc; [|by rewrite m_chr_miss].
    rewrite (m_chr_hit p _ c _ _ _ Hc). cbn [after].
    replace (length l2 <? length (c :: l2))%nat with true
      by (symmetry; apply Nat.ltb_lt; simpl; lia).
    rewrite star_loop_none; [exact Hk|].
    intros st' Ht Hl. apply Hfail.
    + rewrite Ht. simpl. by rewrite <- app_assoc.
    + simpl in *. lia.
  - simpl in Hp. apply andb_true_iff in Hp as [Hc Hp].
    destruct n as [|n]; [simpl in Hn; lia|].
    rewrite star_loop_S. cbv beta zeta.
    change ((c :: l1) ++ l2) with (c :: (l1 ++ l2)).
    rewrite (m_chr_hit p _ c _ _ _ Hc). cbn [after].
    replace (length (l1 ++ l2) <? length (c :: l1 ++ l2))%nat with true
      by (symmetry; apply Nat.ltb_lt; simpl; lia).
    rewrite (IH Hp (c :: bef) n); [reflexivity | | | simpl in Hn; lia].
    + intros st' Ht Hl. apply Hfail; [|exact Hl].
      rewrite Ht. simpl. by rewrite <- !app_assoc.
    + rewrite <- Hk. simpl. by rewrite <- app_assoc.
Qed.

(** A text between two delimiters [q], free of line terminators: the
    expression [q.*q], anchored or not, matches the whole of it, and the
    group around [.*] is the text between. *)
Lemma m_delimited (q : ascii) (l bef : list ascii)
  (cs : list (nat * list ascii)) (k : mstate -> option mstate) (x : mstate) :
  forallb is_dot l = true -> is_dot q = true ->
  k (MState (q :: rev l ++ q :: bef) [] ((1%nat, l) :: cs)) = Some x ->
  m (Cat [Lit1 q; Group 1 (Star true Dot); Lit1 q])
    (MState bef (q :: l ++ [q]) cs) k = Some x.
Proof.
  intros Hl Hq Hk. unfold Cat; cbn [fold_right].
  rewrite m_seq. unfold Lit1 at 1.
  rewrite m_chr_hit by apply Ascii.eqb_refl.
  rewrite m_seq.
  change (m (Group 1 (Star true Dot)) ?st ?k0)
    with (star_loop true (m (Chr is_dot))
            (fun st' => k0 (set_cap 1 st st')) (length (after st)) st).
  cbn [after].
  apply (star_greedy_backtrack is_dot _ l [q]); [exact Hl | | | lia].
  - intros st' _ Hlen. destruct st' as [b' a' c'].
    simpl in Hlen. destruct a'; [|simpl in Hlen; lia].
    reflexivity.
  - unfold set_cap. cbn [before after caps].
    rewrite m_seq. unfold Lit1.
    rewrite m_chr_hit by apply Ascii.eqb_refl.
    cbn [m]. rewrite <- Hk. do 4 f_equal.
    rewrite length_app. simpl.
    replace (length l + 1 - 1)%nat with (length l) by lia.
    by rewrite take_app_length.
Qed.

End Backtracking.

(** ** Patterns between slashes, texts between quotes *)

Section Delimited.
Import Rx CodeblockParsing.

Variable RegExp_new : string -> option (string -> bool).

Lemma m_delimited_plain (q : ascii) (l bef : list ascii)
  (cs : list (nat * list ascii)) (k : mstate -> option mstate) (x : mstate) :
  forallb JS.is_dot l = true -> JS.is_dot q = true ->
  k (MState (q :: rev l ++ q :: bef) [] cs) = Some x ->
  m (Cat [Lit1 q; Star true Dot; Lit1 q]) (MState bef (q :: l ++ [q]) cs) k
  = Some x.
Proof.
  intros Hl Hq Hk. unfold Cat; cbn [fold_right].
  rewrite m_seq. unfold Lit1 at 1.
  rewrite m_chr_hit by apply Ascii.eqb_refl.
  rewrite m_seq.
  change (m (Star true Dot) ?st ?k0)
    with (star_loop true (m (Chr JS.is_dot)) k0 (length (after st)) st).
  cbn [after].
  apply (star_greedy_backtrack JS.is_dot _ l [q]); [exact Hl | | | lia].
  - intros st' _ Hlen. destruct st' as [b' a' c'].
    simpl in Hlen. destruct a'; [|simpl in Hlen; lia].
    reflexivity.
  - rewrite m_seq. unfold Lit1.
    rewrite m_chr_hit by apply Ascii.eqb_refl.
    cbn [m]. exact Hk.
Qed.

Lemma chars_delimited (q : ascii) (s : string) :
  JS.chars (String q (s +:+ String q EmptyString)) = q :: JS.chars s ++ [q].
Proof.
  change (JS.chars (String q (s +:+ String q EmptyString)))
    with (q :: JS.chars (s +:+ String q EmptyString)).
  by rewrite chars_app.
Qed.

(** The expression for a pattern between slashes matches the whole of
    [/src/], and its group is [src]. *)
Lemma slashes_exec (src : string) :
  forallb JS.is_dot (JS.chars src) = true ->
  exec re_slashes (String "/" (src +:+ "/"))
  = Some (RMatch 0 [] (JS.chars (String "/" (src +:+ "/"))) []
            [(1%nat, JS.chars src)]).
Proof.
  intros Hsrc. unfold re_slashes, Cat; cbn [fold_right].
  rewrite exec_anchored, chars_delimited.
  change (m (Seq (Lit1 "/") (Seq (Group 1 (Star true Dot))
                               (Seq (Lit1 "/") (Seq Eol Eps)))) ?st Some)
    with (m (Cat [Lit1 "/"; Group 1 (Star true Dot); Lit1 "/"]) st
            (fun st' => m (Seq Eol Eps) st' Some)).
  erewrite m_delimited; [| exact Hsrc | reflexivity | reflexivity].
  cbn [after caps length]. rewrite Nat.sub_0_r.
  by rewrite (take_ge (_ :: _)) by (simpl; lia).
Qed.

Lemma slashes_test (src : string) :
  forallb JS.is_dot (JS.chars src) = true ->
  test re_slashes (String "/" (src +:+ "/")) = true
  /\ replace re_slashes (String "/" (src +:+ "/"))
       (fun mt => group_or_empty mt 1) = src.
Proof.
  intros Hsrc. unfold test, replace. rewrite (slashes_exec src Hsrc).
  split; [reflexivity|].
  unfold group_or_empty, group. simpl.
  change (EmptyString +:+ ?x) with x.
  by rewrite append_empty_r, str_chars.
Qed.

Lemma pattern_rule (src : string) (h : Highlights) :
  forallb JS.is_dot (JS.chars src) = true ->
  test re_number_range (String "/" (src +:+ "/")) = false ->
  addHighlightRule RegExp_new h (String "/" (src +:+ "/"))
  = match RegExp_new src with
    | Some _ =>
        mkHighlights (lineNumbers h) (plainText h)
          (regularExpressions h ++ [src])
    | None => h
    end.
Proof.
  intros Hsrc Hrange. unfold addHighlightRule. rewrite Hrange.
  destruct (slashes_test src Hsrc) as [-> ->]. reflexivity.
Qed.

Lemma substring_inner (q : ascii) (s : string) :
  let r := String q (s +:+ String q EmptyString) in
  JS.substring r 1 (Some (Z.of_nat (String.length r) - 1)) = s.
Proof.
  cbv zeta. unfold JS.substring.
  assert (Hchars : forall t, length (JS.chars t) = String.length t).
  { induction t as [|c t IH]; simpl; [reflexivity | by rewrite IH]. }
  rewrite <- !Hchars, chars_delimited.
  cbn [length]. rewrite length_app. cbn [length].
  replace (Z.to_nat 1) with 1%nat by reflexivity.
  replace (Z.to_nat (Z.of_nat (S (length (JS.chars s) + 1)) - 1))
    with (length (JS.chars s) + 1)%nat by lia.
  rewrite (Nat.min_l 1), (Nat.min_l (length (JS.chars s) + 1)) by lia.
  rewrite Nat.max_r, Nat.min_l by lia.
  cbn [drop]. rewrite drop_0.
  replace (length (JS.chars s) + 1 - 1)%nat with (length (JS.chars s)) by lia.
  rewrite take_app_length. apply str_chars.
Qed.

(** The quote tests on a text between double quotes. *)
Lemma double_quoted_test (t : string) :
  forallb JS.is_dot (JS.chars t) = true ->
  test re_slashes (quoted t) = false
  /\ test re_double_quoted (quoted t) = true.
Proof.
  intros Ht. unfold quoted. split.
  - unfold re_slashes, Cat; cbn [fold_right].
    rewrite test_anchored, chars_delimited, m_seq. unfold Lit1.
    by rewrite m_chr_miss.
  - eapply test_true. rewrite chars_delimited. unfold re_double_quoted.
    apply m_delimited_plain; [exact Ht | reflexivity | reflexivity].
Qed.

(** X6. A highlight rule written between delimiters, its text free of
    line terminators and the rule not of the form of a range. A pattern
    between slashes is added to the regular expressions when the platform
    compiles it, and dropped without an error when it does not. A text
    between double quotes is added, without the quotes, to the plain texts,
    once. Nothing else changes. *)
Theorem delimited_rules (t : string) (h : Highlights) :
  forallb JS.is_dot (JS.chars t) = true ->
  (test re_number_range (String "/" (t +:+ "/")) = false ->
   addHighlightRule RegExp_new h (String "/" (t +:+ "/"))
   = match RegExp_new t with
     | Some _ =>
         mkHighlights (lineNumbers h) (plainText h)
           (regularExpressions h ++ [t])
     | None => h
     end)
  /\ (test re_number_range (quoted t) = false ->
      addHighlightRule RegExp_new h (quoted t)
      = mkHighlights (lineNumbers h) (JS.set_add t (plainText h))
          (regularExpressions h)).
Proof.
  intros Ht. split; [by apply pattern_rule|].
  intros Hrange. unfold addHighlightRule. rewrite Hrange.
  destruct (double_quoted_test t Ht) as [-> ->]. cbn [orb].
  unfold quoted. by rewrite (substring_inner JS.DQ t).
Qed.

End Delimited.

(** ** Line identifiers *)

Section LineIdentifiers.
Import Rx ReferenceParsing.

Variable RegExp_new : string -> option (string -> bool).

Lemma getLineIdentifier_pattern (src : string) :
  forallb JS.is_dot (JS.chars src) = true ->
  getLineIdentifier RegExp_new (Some (SStr (String "/" (src +:+ "/"))))
  = match RegExp_new src with
    | Some _ => Ok (LRegExp src)
    | None => Throw (Error "Invalid Regular Expression")
    end.
Proof.
  intros Hsrc. unfold getLineIdentifier, unslash, re_slashes.
  destruct (slashes_test src Hsrc) as [-> ->]. reflexivity.
Qed.

(** X7. What [getLineIdentifier] makes of the value of [start] or [end]:
    an absent value is [null]; a number is itself; a numeral of at most
    [2 ^ 53], which [parseInt] reads exactly, is its number; a pattern
    between slashes is a [RegExp] object when it compiles, and the error
    [Invalid Regular Expression] when it does not; a text between double
    quotes is the text without them. *)
Theorem line_identifier_kinds :
  getLineIdentifier RegExp_new None = Ok LNull
  /\ (forall n, getLineIdentifier RegExp_new (Some (SNum n)) = Ok (LNum n))
  /\ (forall d, numeral d -> value d <= 2 ^ 53 ->
        getLineIdentifier RegExp_new (Some (SStr d)) = Ok (LNum (value d)))
  /\ (forall src, forallb JS.is_dot (JS.chars src) = true ->
        getLineIdentifier RegExp_new (Some (SStr (String "/" (src +:+ "/"))))
        = match RegExp_new src with
          | Some _ => Ok (LRegExp src)
          | None => Throw (Error "Invalid Regular Expression")
          end)
  /\ (forall t, forallb JS.is_dot (JS.chars t) = true ->
        getLineIdentifier RegExp_new (Some (SStr (quoted t))) = Ok (LStr t)).
Proof.
  split; [reflexivity|]. split; [reflexivity|]. split; [|split].
  - intros d Hd Hsafe. unfold getLineIdentifier, re_slashes.
    destruct (numeral_tests d Hd) as (_ & -> & -> & -> & -> & ->).
    cbn [orb]. pose proof (numeral_exact d Hd Hsafe) as Hexact.
    destruct Hd as [Hne Hall].
    by rewrite (parseInt_digits d Hne Hall Hexact), (of_Z_safe _ Hexact).
  - exact getLineIdentifier_pattern.
  - intros t Ht. unfold getLineIdentifier, re_slashes.
    destruct (double_quoted_test t Ht) as [-> ->]. cbn [orb].
    unfold quoted. by rewrite (substring_inner JS.DQ t).
Qed.

(** X8. A pattern between slashes does not work as [start]: whatever
    [getLineIdentifier] returns for it is a [RegExp] object, and
    [getLineLimits], which calls [startsWith] on its anchors, throws a
    [TypeError] on it, for every content and every [end]; the message of
    the error is the engine's. *)
Theorem pattern_start_is_type_error (src content p sp lang : string)
  (id : LineIdentifier) (e : LineIdentifier) (ext : option ExtRefParams) :
  forallb JS.is_dot (JS.chars src) = true ->
  getLineIdentifier RegExp_new (Some (SStr (String "/" (src +:+ "/"))))
  = Ok id ->
  exists message,
    getLineLimits RegExp_new content (mkRefParams p sp lang id e ext)
    = Throw (TypeError message).
Proof.
  intros Hsrc. rewrite (getLineIdentifier_pattern src Hsrc).
  destruct (RegExp_new src); [|discriminate].
  intros [= <-]. eexists. reflexivity.
Qed.

End LineIdentifiers.

(** ** Segmentation with admonitions *)

Section Groups.
Import CodeblockParsing.

Lemma array_indexOf_lookup (l : list string) (x : string) :
  x ∈ l ->
  exists i : nat, array_indexOf l x = Z.of_nat i /\ l !! i = Some x
                  /\ forall j y, (j < i)%nat -> l !! j = Some y -> y <> x.
Proof.
  unfold array_indexOf, JS.findIndex.
  assert (H : forall base, x ∈ l ->
             exists i : nat,
               JS.findIndex_from (String.eqb x) l base = base + Z.of_nat i
               /\ l !! i = Some x
               /\ forall j y, (j < i)%nat -> l !! j = Some y -> y <> x).
  { induction l as [|a l IH]; intros base Hin.
    - by apply elem_of_nil in Hin.
    - simpl. destruct (String.eqb_spec x a) as [<- | Hne].
      + exists 0%nat. split; [lia|]. split; [reflexivity|]. intros; lia.
      + apply elem_of_cons in Hin as [-> | Hin]; [congruence|].
        destruct (IH (base + 1) Hin) as (i & Hi & Hl & Hfirst).
        exists (S i). split; [lia|]. split; [exact Hl|].
        intros [|j] y Hj Hy.
        * injection Hy as <-. congruence.
        * apply (Hfirst j y); [lia | exact Hy]. }
  intros Hin. destruct (H 0 Hin) as (i & Hi & Hrest).
  exists i. split; [lia | exact Hrest].
Qed.

(** A slice of the middle and the slice that starts after it, in their
    order, are lines of the array in their order. *)
Lemma slices_sublist {A} (l : list A) (a b : Z) :
  0 <= a -> 0 <= b -> a - 1 <= b ->
  JS.slice l a (Some b) ++ JS.slice l (b + 1) None `sublist_of` l.
Proof.
  intros Ha Hb0 Hb. rewrite slice_to_end. unfold JS.slice, JS.rel_index.
  destruct (Z.ltb_spec a 0) as [|_]; [lia|].
  destruct (Z.ltb_spec b 0) as [|_]; [lia|].
  destruct (Z.ltb_spec (b + 1) 0) as [|_]; [lia|].
  set (ra := Nat.min (Z.to_nat a) (length l)).
  set (rb := Nat.min (Z.to_nat b) (length l)).
  set (rc := Nat.min (Z.to_nat (b + 1)) (length l)).
  assert (Hrc : (ra + (rb - ra) <= rc)%nat) by lia.
  transitivity (drop ra l); [|apply sublist_drop].
  rewrite <- (take_drop (rb - ra) (drop ra l)) at 2.
  apply sublist_app; [reflexivity|].
  rewrite drop_drop.
  replace rc with ((ra + (rb - ra)) + (rc - (ra + (rb - ra))))%nat by lia.
  rewrite <- drop_drop. apply sublist_drop.
Qed.

(** The groups are made of lines of the section in their order, no line
    twice, and each one holds an opening line. *)
Lemma parse_groups (fuel : nat) (adm : bool) (s : list string)
  (gs : list (list string)) :
  parseCodeblockSection fuel adm s [] = Some gs ->
  concat gs `sublist_of` s
  /\ Forall (fun g => exists line,
                 line ∈ g /\ nonempty (testOpeningLine line) = true) gs.
Proof.
  revert s gs. induction fuel as [|fuel IH]; intros s gs; [discriminate|].
  rewrite parse_step. destruct (opening s) as [[line d]|] eqn:Ho.
  2:{ intros [= <-]. split; [apply sublist_nil_l | constructor]. }
  cbv zeta.
  destruct (step_indices s line d Ho) as [H1 H2].
  pose proof (findIndex_ge _ (Rx.test (re_close_delimiter d))
                (JS.slice s (array_indexOf s line + 1) None)) as Hci.
  fold (close_index s line d) in Hci.
  assert (Hline : line ∈ s /\ nonempty (testOpeningLine line) = true).
  { unfold opening in Ho.
    destruct (length s =? 0)%nat; [discriminate|].
    destruct (getOpeningLine s) as [l0|] eqn:E; [|discriminate].
    destruct (Rx.exec _ l0); [|discriminate].
    destruct (nonempty (Rx.group_or_empty _ _)); [|discriminate].
    injection Ho as <- _. split; [by apply getOpeningLine_elem|].
    unfold getOpeningLine in E. by apply find_some in E as [_ E]. }
  destruct Hline as [Hin Hopen].
  destruct (array_indexOf_lookup s line Hin) as (i & Hi & Hlook & _).
  destruct (negb adm || negb (Rx.test re_admonition line)).
  - rewrite parse_acc.
    destruct (parseCodeblockSection fuel adm _ []) as [gs'|] eqn:Hrest;
      [|discriminate].
    intros [= <-]. apply IH in Hrest as [Hsub Hall]. split.
    + simpl.
      transitivity
        (JS.slice s 0 (Some (array_indexOf s line + 2 + close_index s line d))
           ++ JS.slice s (array_indexOf s line + 2 + close_index s line d)
                None);
        [|by rewrite slice_split].
      apply sublist_app; [reflexivity|].
      replace (array_indexOf s line + 2 + close_index s line d)
        with (array_indexOf s line + 1 + close_index s line d + 1) by lia.
      exact Hsub.
    + simpl. constructor; [|exact Hall].
      exists line. split; [|exact Hopen].
      rewrite slice_from_start. apply list_elem_of_lookup. exists i.
      rewrite lookup_take_lt; [exact Hlook|].
      apply lookup_lt_Some in Hlook.
      unfold JS.rel_index.
      destruct (Z.ltb_spec (array_indexOf s line + 2 + close_index s line d) 0);
        lia.
  - destruct (parseCodeblockSection fuel adm (JS.slice s _ (Some _)) [])
      as [gs1|] eqn:Hbody; [|discriminate].
    rewrite parse_acc.
    destruct (parseCodeblockSection fuel adm (JS.slice s _ None) [])
      as [gs2|] eqn:Hrest; [|discriminate].
    simpl. intros [= <-].
    apply IH in Hbody as [Hsub1 Hall1]. apply IH in Hrest as [Hsub2 Hall2].
    split; [|by apply Forall_app].
    rewrite concat_app.
    etrans; [apply sublist_app; [exact Hsub1 | exact Hsub2]|].
    apply slices_sublist; lia.
Qed.

(** X9. For every document, with or without the admonition plugin,
    the segmenter returns; the lines of the groups it emits, group after
    group, are lines of the document in their order, so that no line of
    the document is in two groups or twice in one; and every group holds
    a line that opens a codeblock. *)
Theorem groups_in_order_with_opening (codeSection : list string)
  (admonitions : bool) :
  exists (codeblocks : list (list string)) (nested : bool),
    parseCodeblockSource codeSection admonitions = Some (codeblocks, nested)
    /\ concat codeblocks `sublist_of` codeSection
    /\ Forall (fun group =>
                 exists line,
                   line ∈ group /\ testOpeningLine line <> EmptyString)
         codeblocks.
Proof.
  unfold parseCodeblockSource.
  destruct (parse_total (S (length codeSection)) admonitions codeSection [])
    as [gs Hgs]; [lia|].
  rewrite Hgs. eexists gs, _. split; [reflexivity|].
  destruct (parse_groups _ _ _ _ Hgs) as [Hsub Hall].
  split; [exact Hsub|].
  eapply Forall_impl; [exact Hall|].
  intros g (line & Hin & Hopen). exists line. split; [exact Hin|].
  intros E. rewrite E in Hopen. discriminate.
Qed.

End Groups.

(** ** The first group of a document *)

Section FirstGroup.
Import CodeblockParsing.

(** Enough fuel is enough: the result does not depend on it. *)
Lemma parse_fuel (f1 f2 : nat) (adm : bool) (s : list string)
  (acc : list (list string)) :
  (length s < f1)%nat -> (length s < f2)%nat ->
  parseCodeblockSection f1 adm s acc = parseCodeblockSection f2 adm s acc.
Proof.
  revert f2 s acc. induction f1 as [|f1 IH]; intros f2 s acc H1 H2; [lia|].
  destruct f2 as [|f2]; [lia|].
  rewrite !parse_step. destruct (opening s) as [[line d]|] eqn:Ho;
    [|reflexivity].
  destruct (step_indices s line d Ho) as [Ha Hb].
  apply opening_elem in Ho as [_ Hpos]. cbv zeta.
  pose proof (slice_tail_shorter s _ Hpos Hb) as Htail.
  pose proof (slice_inner_shorter s _
                (Some (array_indexOf s line + 1 + close_index s line d))
                Hpos Ha) as Hinner.
  destruct (negb adm || negb (Rx.test re_admonition line)).
  - apply IH; lia.
  - rewrite (IH f2) by lia.
    destruct (parseCodeblockSection f2 adm _ acc); [|reflexivity].
    apply IH; lia.
Qed.

Lemma opening_single (line d : string) :
  opening [line] = Some (line, d) ->
  nonempty (testOpeningLine line) = true
  /\ exists dm, Rx.exec re_open_delimiter line = Some dm
                /\ Rx.group_or_empty dm 1 = d
                /\ nonempty d = true.
Proof.
  unfold opening, getOpeningLine. simpl.
  destruct (nonempty (testOpeningLine line)); [|discriminate].
  destruct (Rx.exec re_open_delimiter line) as [dm|]; [|discriminate].
  destruct (nonempty (Rx.group_or_empty dm 1)) eqn:E; [|discriminate].
  intros [= <-]. split; [reflexivity|]. by exists dm.
Qed.

(** The first line that opens a codeblock, after lines that open none. *)
Lemma opening_after (pre post : list string) (line d : string) :
  Forall (fun l => testOpeningLine l = EmptyString) pre ->
  opening [line] = Some (line, d) ->
  opening (pre ++ line :: post) = Some (line, d)
  /\ array_indexOf (pre ++ line :: post) line = Z.of_nat (length pre).
Proof.
  intros Hpre Ho.
  destruct (opening_single line d Ho) as (Hopen & dm & Hdm & Hd & Hne).
  split.
  - unfold opening.
    replace (length (pre ++ line :: post) =? 0)%nat with false
      by (symmetry; apply Nat.eqb_neq; rewrite length_app; simpl; lia).
    assert (Hfind : getOpeningLine (pre ++ line :: post) = Some line).
    { unfold getOpeningLine. induction Hpre as [|x pre Hx Hpre IH]; simpl.
      - by rewrite Hopen.
      - rewrite Hx. simpl. exact IH. }
    by rewrite Hfind, Hdm, Hd, Hne.
  - unfold array_indexOf, JS.findIndex.
    rewrite (findIndex_from_first _ _ (length pre) line 0).
    + lia.
    + by rewrite lookup_app_r, Nat.sub_diag by lia.
    + apply String.eqb_refl.
    + intros j y Hj Hy. rewrite lookup_app_l in Hy by exact Hj.
      apply String.eqb_neq. intros <-.
      rewrite Forall_forall in Hpre.
      rewrite (Hpre line) in Hopen; [discriminate|].
      by apply list_elem_of_lookup_2 in Hy.
Qed.

Lemma not_admonition_push (adm : bool) (line : string) :
  adm = false \/ Rx.test re_admonition line = false ->
  negb adm || negb (Rx.test re_admonition line) = true.
Proof. intros [-> | ->]; [reflexivity | apply orb_true_r]. Qed.

Lemma drop_Z_slice {A} (l : list A) (n : nat) :
  JS.slice l (Z.of_nat n) None = drop n l.
Proof.
  rewrite slice_to_end. unfold JS.rel_index.
  destruct (Z.ltb_spec (Z.of_nat n) 0); [lia|].
  rewrite Nat2Z.id.
  destruct (Nat.le_gt_cases n (length l)).
  - by rewrite Nat.min_l.
  - rewrite Nat.min_r by lia. by rewrite !drop_ge by lia.
Qed.

Lemma drop_app_cons {A} (l1 l2 : list A) (x : A) :
  drop (length l1 + 1) (l1 ++ x :: l2) = l2.
Proof.
  rewrite <- drop_drop, drop_app_length. reflexivity.
Qed.

Lemma take_Z_slice {A} (l : list A) (n : nat) :
  JS.slice l 0 (Some (Z.of_nat n)) = take n l.
Proof.
  rewrite slice_from_start. unfold JS.rel_index.
  destruct (Z.ltb_spec (Z.of_nat n) 0); [lia|].
  rewrite Nat2Z.id.
  destruct (Nat.le_gt_cases n (length l)).
  - by rewrite Nat.min_l.
  - rewrite Nat.min_r by lia. by rewrite !take_ge by lia.
Qed.

(** X10. When the first line that opens a codeblock is no admonition and
    a line after it closes its fence, the first group is made of the lines
    before the opening line, the opening line, the lines up to the first
    closing line and that line; the other groups are those of the lines
    after it, segmented on their own. *)
Theorem closed_block_is_first_group (pre body post : list string)
  (line close d : string) (admonitions : bool) :
  Forall (fun l => testOpeningLine l = EmptyString) pre ->
  opening [line] = Some (line, d) ->
  admonitions = false \/ Rx.test re_admonition line = false ->
  Forall (fun l => Rx.test (re_close_delimiter d) l = false) body ->
  Rx.test (re_close_delimiter d) close = true ->
  fst <$> parseCodeblockSource (pre ++ line :: body ++ close :: post)
            admonitions
  = cons (pre ++ line :: body ++ [close])
      <$> (fst <$> parseCodeblockSource post admonitions).
Proof.
  intros Hpre Ho Hadm Hbody Hclose.
  set (s := pre ++ line :: body ++ close :: post).
  destruct (opening_after pre (body ++ close :: post) line d Hpre Ho)
    as [Hopening Hoi].
  fold s in Hopening, Hoi.
  assert (Hci : close_index s line d = Z.of_nat (length body)).
  { unfold close_index. rewrite Hoi.
    replace (Z.of_nat (length pre) + 1) with (Z.of_nat (length pre + 1)) by lia.
    rewrite drop_Z_slice. unfold s. rewrite drop_app_cons.
    unfold JS.findIndex.
    rewrite (findIndex_from_first _ _ (length body) close 0).
    - lia.
    - by rewrite lookup_app_r, Nat.sub_diag by lia.
    - exact Hclose.
    - intros j y Hj Hy. rewrite lookup_app_l in Hy by exact Hj.
      rewrite Forall_forall in Hbody. apply Hbody.
      by apply list_elem_of_lookup_2 in Hy. }
  unfold parseCodeblockSource.
  rewrite parse_step, Hopening. cbv zeta.
  rewrite (not_admonition_push _ _ Hadm), Hoi, Hci.
  replace (Z.of_nat (length pre) + 2 + Z.of_nat (length body))
    with (Z.of_nat (length pre + 2 + length body)) by lia.
  replace (Z.of_nat (length pre) + 1 + Z.of_nat (length body) + 1)
    with (Z.of_nat (length pre + 2 + length body)) by lia.
  rewrite take_Z_slice, drop_Z_slice.
  assert (Hs : s = (pre ++ line :: body ++ [close]) ++ post).
  { unfold s. rewrite <- !app_assoc. simpl. by rewrite <- app_assoc. }
  assert (Hl : length (pre ++ line :: body ++ [close])
               = (length pre + 2 + length body)%nat).
  { rewrite length_app. simpl. rewrite length_app. simpl. lia. }
  assert (Htake : take (length pre + 2 + length body) s
                  = pre ++ line :: body ++ [close])
    by (rewrite Hs, <- Hl; apply take_app_length).
  assert (Hdrop : drop (length pre + 2 + length body) s = post)
    by (rewrite Hs, <- Hl; apply drop_app_length).
  rewrite Htake, Hdrop, parse_acc.
  rewrite (parse_fuel (length s) (S (length post))).
  2:{ rewrite Hs, length_app, Hl. lia. }
  2:{ lia. }
  destruct (parseCodeblockSection (S (length post)) admonitions post [])
    as [gs|]; reflexivity.
Qed.

(** X11. When no line after the opening line closes its fence, the
    first group ends with the opening line, and the lines after it are
    segmented on their own: the codeblock that was left open gets none of
    its lines. *)
Theorem unclosed_block_ends_at_opening (pre post : list string)
  (line d : string) (admonitions : bool) :
  Forall (fun l => testOpeningLine l = EmptyString) pre ->
  opening [line] = Some (line, d) ->
  admonitions = false \/ Rx.test re_admonition line = false ->
  Forall (fun l => Rx.test (re_close_delimiter d) l = false) post ->
  fst <$> parseCodeblockSource (pre ++ line :: post) admonitions
  = cons (pre ++ [line]) <$> (fst <$> parseCodeblockSource post admonitions).
Proof.
  intros Hpre Ho Hadm Hpost.
  set (s := pre ++ line :: post).
  destruct (opening_after pre post line d Hpre Ho) as [Hopening Hoi].
  fold s in Hopening, Hoi.
  assert (Hci : close_index s line d = -1).
  { unfold close_index. rewrite Hoi.
    replace (Z.of_nat (length pre) + 1) with (Z.of_nat (length pre + 1)) by lia.
    rewrite drop_Z_slice. unfold s. rewrite drop_app_cons.
    apply findIndex_from_none. intros x Hx.
    rewrite Forall_forall in Hpost. by apply Hpost. }
  unfold parseCodeblockSource.
  rewrite parse_step, Hopening. cbv zeta.
  rewrite (not_admonition_push _ _ Hadm), Hoi, Hci.
  replace (Z.of_nat (length pre) + 2 + -1)
    with (Z.of_nat (length pre + 1)) by lia.
  replace (Z.of_nat (length pre) + 1 + -1 + 1)
    with (Z.of_nat (length pre + 1)) by lia.
  rewrite take_Z_slice, drop_Z_slice.
  assert (Hs : s = (pre ++ [line]) ++ post).
  { unfold s. by rewrite <- app_assoc. }
  assert (Hl : length (pre ++ [line]) = (length pre + 1)%nat).
  { rewrite length_app. simpl. lia. }
  assert (Htake : take (length pre + 1) s = pre ++ [line])
    by (rewrite Hs, <- Hl; apply take_app_length).
  assert (Hdrop : drop (length pre + 1) s = post)
    by (rewrite Hs, <- Hl; apply drop_app_length).
  rewrite Htake, Hdrop, parse_acc.
  rewrite (parse_fuel (length s) (S (length post))).
  2:{ rewrite Hs, length_app, Hl. lia. }
  2:{ lia. }
  destruct (parseCodeblockSection (S (length post)) admonitions post [])
    as [gs|]; reflexivity.
Qed.

End FirstGroup.

(** ** Admonitions *)

Section Admonitions.
Import CodeblockParsing.

Lemma arraysEqual_shorter (array1 array2 : list string) :
  (length array2 < length array1)%nat -> arraysEqual array1 array2 = false.
Proof.
  intros H. unfold arraysEqual.
  replace (length array1 =? length array2)%nat with false
    by (symmetry; apply Nat.eqb_neq; lia).
  reflexivity.
Qed.

(** X12. With the admonition plugin installed, when the first line that
    opens a codeblock opens an admonition and a line after it closes its
    fence, no group holds the admonition as a whole: the lines between its
    two fence lines are segmented on their own, then the lines after its
    closing line, and the groups of both, in that order, are the result;
    [nested] is [true]. *)
Theorem admonition_body_is_segmented (pre body post : list string)
  (line close d : string) :
  Forall (fun l => testOpeningLine l = EmptyString) pre ->
  opening [line] = Some (line, d) ->
  Rx.test re_admonition line = true ->
  Forall (fun l => Rx.test (re_close_delimiter d) l = false) body ->
  Rx.test (re_close_delimiter d) close = true ->
  exists (inner outer : list (list string)) (n1 n2 : bool),
    parseCodeblockSource body true = Some (inner, n1)
    /\ parseCodeblockSource post true = Some (outer, n2)
    /\ parseCodeblockSource (pre ++ line :: body ++ close :: post) true
       = Some (inner ++ outer, true).
Proof.
  intros Hpre Ho Hadm Hbody Hclose.
  set (s := pre ++ line :: body ++ close :: post).
  destruct (opening_after pre (body ++ close :: post) line d Hpre Ho)
    as [Hopening Hoi].
  fold s in Hopening, Hoi.
  assert (Hci : close_index s line d = Z.of_nat (length body)).
  { unfold close_index. rewrite Hoi.
    replace (Z.of_nat (length pre) + 1) with (Z.of_nat (length pre + 1)) by lia.
    rewrite drop_Z_slice. unfold s. rewrite drop_app_cons.
    unfold JS.findIndex.
    rewrite (findIndex_from_first _ _ (length body) close 0).
    - lia.
    - by rewrite lookup_app_r, Nat.sub_diag by lia.
    - exact Hclose.
    - intros j y Hj Hy. rewrite lookup_app_l in Hy by exact Hj.
      rewrite Forall_forall in Hbody. apply Hbody.
      by apply list_elem_of_lookup_2 in Hy. }
  assert (Hlen : length s = (length pre + 2 + length body + length post)%nat).
  { unfold s. rewrite length_app. simpl. rewrite length_app. simpl. lia. }
  assert (Hinner : JS.slice s (Z.of_nat (length pre) + 1)
                     (Some (Z.of_nat (length pre) + 1
                            + Z.of_nat (length body))) = body).
  { replace (Z.of_nat (length pre) + 1) with (Z.of_nat (length pre + 1)) by lia.
    rewrite slice_take_drop by lia.
    unfold s. rewrite drop_app_cons. apply take_app_length. }
  assert (Houter : JS.slice s (Z.of_nat (length pre) + 1
                               + Z.of_nat (length body) + 1) None = post).
  { replace (Z.of_nat (length pre) + 1 + Z.of_nat (length body) + 1)
      with (Z.of_nat (length pre + 1 + (length body + 1))) by lia.
    rewrite drop_Z_slice, <- drop_drop. unfold s.
    by rewrite !drop_app_cons. }
  destruct (parse_total (S (length body)) true body []) as [inner Hin]; [lia|].
  destruct (parse_total (S (length post)) true post []) as [outer Hout]; [lia|].
  exists inner, outer. eexists _, _.
  unfold parseCodeblockSource at 1 2. rewrite Hin, Hout.
  split; [reflexivity|]. split; [reflexivity|].
  unfold parseCodeblockSource.
  rewrite parse_step, Hopening. cbv zeta.
  rewrite Hadm, Hoi, Hci. cbn [negb orb]. rewrite Hinner, Houter.
  rewrite (parse_fuel (length s) (S (length body))) by lia.
  rewrite Hin, parse_acc.
  rewrite (parse_fuel (length s) (S (length post))) by lia.
  rewrite Hout. cbn [fmap option_fmap option_map]. f_equal. f_equal.
  destruct (inner ++ outer) as [|first others] eqn:E; [reflexivity|].
  assert (Hshort : (length first < length s)%nat).
  { apply parse_sublists in Hin, Hout.
    assert (Hall : Forall (fun g => (length g < length s)%nat)
                     (inner ++ outer)).
    { apply Forall_app. split.
      - eapply Forall_impl; [exact Hin|]. intros g Hg.
        apply sublist_length in Hg. lia.
      - eapply Forall_impl; [exact Hout|]. intros g Hg.
        apply sublist_length in Hg. lia. }
    rewrite E in Hall. by apply Forall_cons in Hall as [Hall _]. }
  by rewrite arraysEqual_shorter.
Qed.

End Admonitions.

(** ** Fetching remote content *)

Section Fetching.
Import ReferenceParsing.

Variable requestUrl_json : Request -> result (gmap string string).
Variable request_text : string -> result string.
Variable decodeContent : option string -> result string.
Variable timeStamp : string.

Abbreviation fetch :=
  (_fetchExtRef requestUrl_json request_text decodeContent timeStamp).

Ltac run_fetch :=
  unfold _fetchExtRef, try_catch, fetchGitHubSCM, requestUrl, request,
    mbind, M_bind, mret, M_ret, modify, lift, throw;
  repeat match goal with
         | |- context [if ?b then _ else _] => destruct b eqn:?
         | |- context [match Rx.exec ?r ?s with _ => _ end] =>
             destruct (Rx.exec r s) eqn:?
         | |- context [requestUrl_json ?q] =>
             destruct (requestUrl_json q) eqn:?
         | |- context [request_text ?q] => destruct (request_text q) eqn:?
         | |- context [decodeContent ?q] => destruct (decodeContent q) eqn:?
         end;
  simpl.

Lemma fetch_throws_wrapped (params : ExtRefParams)
  (sent sent' : list Request) (e : exn) :
  fetch params sent = (Throw e, sent') ->
  exists cause,
    e = Error ("Could not fetch external URL: " +:+ exn_to_string cause).
Proof.
  run_fetch; intros [= <- _]; eauto.
  by exists (Error "invalid GitHub url").
Qed.

Lemma fetch_parameters (params : ExtRefParams)
  (sent sent' : list Request) (ref : ExtRef) :
  fetch params sent = (Ok ref, sent') ->
  ref_id ref = id params
  /\ id (ReferenceParsing.params ref) = id params
  /\ hostname (ReferenceParsing.params ref) = hostname params
  /\ headers (ReferenceParsing.params ref) = headers params
  /\ ext_storePath (ReferenceParsing.params ref) = ext_storePath params
  /\ (hostname params <> "gitlab.com" ->
      ReferenceParsing.params ref = params).
Proof.
  run_fetch; intros [= <- _]; cbn; repeat split; try reflexivity;
    intros Hne; try reflexivity;
    match goal with
    | H : String.eqb (hostname params) "gitlab.com" = true |- _ =>
        apply String.eqb_eq in H; congruence
    end.
Qed.

(** X13. What a fetch ends with. When it throws (a request failed, an
    answer could not be decoded, the address of a GitHub file has the
    wrong form), what is thrown is an [Error] whose message is [Could not
    fetch external URL: ] and the text of the cause. When it returns, the
    result has the [id] of the parameters and holds the parameters it was
    given: same [id], host name, headers and store path, and the same
    address too except on [gitlab.com], where the address is rewritten. *)
Theorem fetch_outcome (params : ExtRefParams) (sent : list Request) :
  match fetch params sent with
  | (Throw e, _) =>
      exists cause,
        e = Error ("Could not fetch external URL: " +:+ exn_to_string cause)
  | (Ok ref, _) =>
      ref_id ref = id params
      /\ id (ReferenceParsing.params ref) = id params
      /\ hostname (ReferenceParsing.params ref) = hostname params
      /\ headers (ReferenceParsing.params ref) = headers params
      /\ ext_storePath (ReferenceParsing.params ref) = ext_storePath params
      /\ (hostname params <> "gitlab.com" ->
          ReferenceParsing.params ref = params)
  end.
Proof.
  destruct (fetch params sent) as [[ref|e] sent'] eqn:Hf.
  - by eapply fetch_parameters.
  - by eapply fetch_throws_wrapped.
Qed.

(** X14. For a host that is neither GitHub nor [gitlab.com], a fetch
    sends one request: a [GET] of the address as it was written, with no
    header. The headers of the reference are not sent. The content is the
    text of the answer, and the metadata holds the time of the fetch
    alone. *)
Theorem other_hosts_one_plain_request (params : ExtRefParams)
  (sent : list Request) :
  hostname params <> "github.com" ->
  hostname params <> "raw.githubusercontent.com" ->
  hostname params <> "gitlab.com" ->
  fetch params sent
  = (match request_text (rawUrl params) with
     | Ok text =>
         Ok (mkExtRef (id params) text {["datetime" := timeStamp]} params)
     | Throw e =>
         Throw (Error ("Could not fetch external URL: " +:+ exn_to_string e))
     end,
     sent ++ [mkRequest (rawUrl params) "GET" ∅]).
Proof.
  intros H1 H2 H3. apply String.eqb_neq in H1, H2, H3.
  unfold _fetchExtRef, try_catch. rewrite H1, H2, H3. cbn [orb].
  unfold request, mbind, M_bind, mret, M_ret, modify, lift, throw. simpl.
  destruct (request_text (rawUrl params)); reflexivity.
Qed.

(** X15. For GitHub, every request goes to the API of GitHub, there are
    two of them at most, and when the address of the reference has not the
    form of a file in a repository no request is sent: the fetch fails
    with [invalid GitHub url]. *)
Theorem github_requests (params : ExtRefParams) (sent : list Request) :
  hostname params = "github.com"
  \/ hostname params = "raw.githubusercontent.com" ->
  (exists new,
      snd (fetch params sent) = sent ++ new
      /\ (length new <= 2)%nat
      /\ Forall (fun r => JS.startsWith (url r) "https://api.github.com/repos/"
                          = true
                          /\ method r = "GET") new)
  /\ (Rx.exec re_github (rawUrl params) = None ->
      fetch params sent
      = (Throw (Error "Could not fetch external URL: Error: invalid GitHub url"),
         sent)).
Proof.
  intros Hhost.
  assert (Hb : (String.eqb (hostname params) "github.com"
                || String.eqb (hostname params) "raw.githubusercontent.com")
               = true).
  { destruct Hhost as [-> | ->]; reflexivity. }
  unfold _fetchExtRef, try_catch. rewrite Hb. unfold fetchGitHubSCM.
  destruct (Rx.exec re_github (rawUrl params)) as [partial|].
  - split; [|discriminate].
    unfold requestUrl, mbind, M_bind, mret, M_ret, modify, lift, throw.
    simpl.
    repeat match goal with
           | |- context [requestUrl_json ?q] =>
               destruct (requestUrl_json q); simpl
           | |- context [decodeContent ?q] =>
               destruct (decodeContent q); simpl
           end;
      rewrite <- ?app_assoc; eexists; (split; [reflexivity|]);
      (split; [simpl; lia|]); repeat constructor.
  - split; [|reflexivity].
    exists []. simpl. rewrite app_nil_r. repeat split; [lia | constructor].
Qed.

End Fetching.

(** ** Stored content and the cache entry of a reference *)

Section StoredContent.
Import ReferenceParsing Referencing.

Variable requestUrl_json : Request -> result (gmap string string).
Variable request_text : string -> result string.
Variable decodeContent : option string -> result string.
Variable timeStamp : string.
Variable refMetadataPath : string -> string.

Abbreviation fetch :=
  (fetchExtRef requestUrl_json request_text decodeContent timeStamp
     refMetadataPath).
Abbreviation fetch_remote :=
  (_fetchExtRef requestUrl_json request_text decodeContent timeStamp).

(** What [fetchExtRef] writes to the cache, given the parameters its
    result holds. *)
Lemma cache_step (cache : gmap string IdCache) (p' : ExtRefParams)
  (doc : string) :
  alter (push_sourcePath doc) (id p')
    (match cache !! id p' with
     | None => <[id p' := mkIdCache [] p']> cache
     | Some _ => cache
     end)
  = match cache !! id p' with
    | Some entry => <[id p' := push_sourcePath doc entry]> cache
    | None => <[id p' := mkIdCache [doc] p']> cache
    end.
Proof.
  destruct (cache !! id p') as [entry|] eqn:E.
  - apply map_eq. intros k. destruct (decide (k = id p')) as [-> | Hne].
    + by rewrite lookup_alter_eq, lookup_insert_eq, E.
    + by rewrite lookup_alter_ne, lookup_insert_ne by congruence.
  - apply map_eq. intros k. destruct (decide (k = id p')) as [-> | Hne].
    + by rewrite lookup_alter_eq, !lookup_insert_eq.
    + by rewrite lookup_alter_ne, !lookup_insert_ne by congruence.
Qed.

(** The two ways [fetchExtRef] gets its result, and what it does to the
    cache after either. *)
Lemma fetchExtRef_cases (p : ExtRefParams) (doc : string) (w w' : World)
  (ref : ExtRef) :
  fetch p doc w = (Ok ref, w') ->
  exists w1,
    ((exists text, vault w !! ext_storePath p = Some text
                   /\ ref = mkExtRef (id p) text
                              (default ∅ (metadataFiles w
                                            !! refMetadataPath (id p))) p
                   /\ w1 = w)
     \/ (vault w !! ext_storePath p = None
         /\ exists sent',
              fetch_remote p (sent w) = (Ok ref, sent')
              /\ w1 = mkWorld (<[ext_storePath p := content ref]> (vault w))
                        (<[refMetadataPath (id p) := metadata ref]>
                           (metadataFiles w))
                        (cacheFile w) sent'))
    /\ w' = match cache_of w1 !! id p with
            | Some entry =>
                if bool_decide (doc ∈ sourcePaths entry) then w1
                else mkWorld (vault w1) (metadataFiles w1)
                       (Some (<[id p := push_sourcePath doc entry]>
                                (cache_of w1)))
                       (sent w1)
            | None =>
                mkWorld (vault w1) (metadataFiles w1)
                  (Some (<[id p := mkIdCache [doc] (params ref)]>
                           (cache_of w1)))
                  (sent w1)
            end.
Proof.
  unfold fetchExtRef.
  unfold mbind at 1, M_bind at 1. unfold adapter_exists at 1.
  unfold mbind at 1, M_bind at 1, get at 1, mret at 1, M_ret at 1.
  match goal with
  | |- context [(?c ≫= _) w] => set (load := c)
  end.
  unfold mbind at 1, M_bind at 1.
  destruct (load w) as [[ref0|e] w1] eqn:Hload; [|discriminate].
  intros Hrest. exists w1.
  assert (Hid : id (params ref0) = id p
                /\ ((exists text, vault w !! ext_storePath p = Some text
                   /\ ref0 = mkExtRef (id p) text
                              (default ∅ (metadataFiles w
                                            !! refMetadataPath (id p))) p
                   /\ w1 = w)
     \/ (vault w !! ext_storePath p = None
         /\ exists sent',
              fetch_remote p (sent w) = (Ok ref0, sent')
              /\ w1 = mkWorld (<[ext_storePath p := content ref0]> (vault w))
                        (<[refMetadataPath (id p) := metadata ref0]>
                           (metadataFiles w))
                        (cacheFile w) sent'))).
  { subst load.
    destruct (vault w !! ext_storePath p) as [text|] eqn:Hv.
    - replace (bool_decide (is_Some (Some text))) with true in Hload
        by (symmetry; apply bool_decide_eq_true; eauto).
      cbn [negb] in Hload.
      unfold adapter_read, readExtRefMetadata, mbind, M_bind, mret, M_ret,
        get, throw in Hload.
      rewrite Hv in Hload. simpl in Hload. injection Hload as <- <-.
      split; [reflexivity|]. left. by exists text.
    - replace (bool_decide (is_Some (@None string))) with false in Hload
        by (symmetry; apply bool_decide_eq_false; by intros [? ?]).
      cbn [negb] in Hload.
      unfold updateExtRef, network, update_content, update_metadata,
        mbind, M_bind, mret, M_ret, modify in Hload.
      destruct (fetch_remote p (sent w)) as [[r|e] s'] eqn:Hf;
        simpl in Hload; [|discriminate].
      injection Hload as <- <-.
      split; [by eapply _fetchExtRef_id|]. right.
      split; [reflexivity|]. by exists s'. }
  destruct Hid as [Hid Hcases].
  unfold readCache, writeCache, mbind, M_bind, mret, M_ret, get, modify
    in Hrest.
  rewrite cache_step in Hrest. rewrite Hid in Hrest.
  fold (cache_of w1) in Hrest.
  destruct (cache_of w1 !! id p) as [entry|] eqn:Hentry.
  - destruct (bool_decide (doc ∈ sourcePaths entry)); simpl in Hrest;
      injection Hrest as <- <-; (split; [exact Hcases | reflexivity]).
  - simpl in Hrest. injection Hrest as <- <-.
    split; [exact Hcases | reflexivity].
Qed.


Lemma stored_content_served (p : ExtRefParams) (doc text : string)
  (w : World) :
  vault w !! ext_storePath p = Some text ->
  exists w',
    fetch p doc w
    = (Ok (mkExtRef (id p) text
             (default ∅ (metadataFiles w !! refMetadataPath (id p))) p), w')
    /\ sent w' = sent w /\ vault w' = vault w
    /\ metadataFiles w' = metadataFiles w.
Proof.
  intros Hv.
  unfold fetchExtRef, adapter_exists, adapter_read, readExtRefMetadata,
    readCache, writeCache, mbind, M_bind, mret, M_ret, get, modify, throw.
  rewrite Hv.
  replace (bool_decide (is_Some (Some text))) with true
    by (symmetry; apply bool_decide_eq_true; eauto).
  cbn [negb params]. cbv beta. rewrite Hv. cbn [params].
  destruct (default ∅ (cacheFile w) !! id p) as [entry|];
    [destruct (bool_decide (doc ∈ sourcePaths entry))|];
    simpl; eexists; (split; [reflexivity|]); repeat split; reflexivity.
Qed.

(** X16. When the content file of a reference exists, [fetchExtRef]
    sends no request and changes no file of the vault: the content is the
    text of the file, the metadata are those of the metadata file (none
    when it is missing). So once [fetchExtRef] has returned for a
    reference, the next call for it, from the same note or from another,
    sends no request and returns the same content and metadata. *)
Theorem fetched_once_then_served (p : ExtRefParams) (doc : string)
  (w : World) :
  (forall text,
      vault w !! ext_storePath p = Some text ->
      exists w',
        fetch p doc w
        = (Ok (mkExtRef (id p) text
                 (default ∅ (metadataFiles w !! refMetadataPath (id p))) p),
           w')
        /\ sent w' = sent w /\ vault w' = vault w
        /\ metadataFiles w' = metadataFiles w)
  /\ (forall ref w1 doc',
        fetch p doc w = (Ok ref, w1) ->
        exists w2,
          fetch p doc' w1
          = (Ok (mkExtRef (id p) (content ref) (metadata ref) p), w2)
          /\ sent w2 = sent w1).
Proof.
  split; [intros text; apply stored_content_served|].
  intros ref w1 doc' Hf.
  destruct (fetchExtRef_cases p doc w w1 ref Hf) as (w0 & Hload & Hw1).
  assert (Hv : vault w0 !! ext_storePath p = Some (content ref)
               /\ default ∅ (metadataFiles w0 !! refMetadataPath (id p))
                  = metadata ref).
  { destruct Hload as [(text & Hv & -> & ->) | (Hv & sent' & Hr & ->)].
    - split; [exact Hv | reflexivity].
    - cbn [vault metadataFiles]. by rewrite !lookup_insert_eq. }
  destruct Hv as [Hv Hm].
  assert (Hsame : vault w1 = vault w0 /\ metadataFiles w1 = metadataFiles w0).
  { rewrite Hw1. destruct (cache_of w0 !! id p) as [entry|];
      [destruct (bool_decide (doc ∈ sourcePaths entry))|]; by split. }
  destruct Hsame as [Hv1 Hm1].
  destruct (stored_content_served p doc' (content ref) w1)
    as (w2 & Hrun & Hsent & _).
  { by rewrite Hv1. }
  exists w2. split; [|exact Hsent].
  by rewrite Hrun, Hm1, Hm.
Qed.

(** X17. What [fetchExtRef] does to the cache when it returns: the entry
    of the reference gets the path of the note at its end unless it has it
    already, and is created with that path alone, and the parameters of the
    result, when the cache has no entry for the reference; every other
    entry is as it was. An entry that exists keeps its parameters. So a
    list of paths that held none twice holds none twice afterwards. *)
Theorem fetch_adds_note_once (p : ExtRefParams) (doc : string)
  (w w' : World) (ref : ExtRef) :
  fetch p doc w = (Ok ref, w') ->
  cache_of w'
  = match cache_of w !! id p with
    | Some entry =>
        if bool_decide (doc ∈ sourcePaths entry) then cache_of w
        else <[id p := mkIdCache (sourcePaths entry ++ [doc])
                         (extRefParams entry)]> (cache_of w)
    | None => <[id p := mkIdCache [doc] (params ref)]> (cache_of w)
    end
  /\ ((forall k e, cache_of w !! k = Some e -> NoDup (sourcePaths e)) ->
      forall k e, cache_of w' !! k = Some e -> NoDup (sourcePaths e)).
Proof.
  intros Hf.
  destruct (fetchExtRef_cases p doc w w' ref Hf) as (w0 & Hload & Hw').
  assert (Hc : cache_of w0 = cache_of w).
  { destruct Hload as [(text & _ & _ & ->) | (_ & sent' & _ & ->)];
      reflexivity. }
  rewrite Hc in Hw'.
  assert (Heq : cache_of w'
                = match cache_of w !! id p with
                  | Some entry =>
                      if bool_decide (doc ∈ sourcePaths entry) then cache_of w
                      else <[id p := mkIdCache (sourcePaths entry ++ [doc])
                                       (extRefParams entry)]> (cache_of w)
                  | None => <[id p := mkIdCache [doc] (params ref)]> (cache_of w)
                  end).
  { rewrite Hw'. destruct (cache_of w !! id p) as [entry|];
      [destruct (bool_decide (doc ∈ sourcePaths entry))|];
      [exact Hc | reflexivity | reflexivity]. }
  split; [exact Heq|].
  intros Hnd k e. rewrite Heq.
  destruct (cache_of w !! id p) as [entry|] eqn:Hentry.
  - destruct (bool_decide (doc ∈ sourcePaths entry)) eqn:Hdoc; [apply Hnd|].
    destruct (decide (k = id p)) as [-> | Hne].
    + rewrite lookup_insert_eq. intros [= <-]. cbn [sourcePaths].
      apply bool_decide_eq_false in Hdoc.
      apply NoDup_app. split; [by eapply Hnd|].
      split; [|apply NoDup_singleton].
      intros x Hx Hx'. apply list_elem_of_singleton in Hx'. by subst.
    + rewrite lookup_insert_ne by congruence. apply Hnd.
  - destruct (decide (k = id p)) as [-> | Hne].
    + rewrite lookup_insert_eq. intros [= <-]. apply NoDup_singleton.
    + rewrite lookup_insert_ne by congruence. apply Hnd.
Qed.

End StoredContent.

(** ** Parameters that agree with each other *)

Section Consistency.
Import CodeblockParsing.

Variable RegExp_new : string -> option (string -> bool).

Ltac token_cases :=
  unfold parseCodeblockParameterString, manageTitle, manageReference,
    manageFolding, manageLineNumbering, manageWrapping, addHighlights;
  repeat match goal with
         | |- context [if ?b then _ else _] => destruct b
         | |- context [match ?o with Some _ => _ | None => _ end] =>
             destruct o
         | |- context [let (_, _) := ?x in _] => destruct x
         end.

(** One parameter leaves the language alone, and keeps the parameters
    consistent. *)
Lemma token_language (token : string) (params : CodeblockParameters)
  (alternativeHighlights : gset string) :
  language (parseCodeblockParameterString RegExp_new token params
              alternativeHighlights) = language params.
Proof. token_cases; reflexivity. Qed.

Lemma token_consistent (token : string) (params : CodeblockParameters)
  (alternativeHighlights : gset string) :
  consistent params ->
  consistent (parseCodeblockParameterString RegExp_new token params
                alternativeHighlights).
Proof.
  intros (H1 & H2 & H3 & H4 & H5).
  token_cases; unfold consistent; cbn; repeat split; auto; congruence.
Qed.

Lemma tokens_consistent (tokens : list string) (f : string -> string)
  (params : CodeblockParameters) (alternativeHighlights : gset string) :
  consistent params ->
  consistent
    (fold_left
       (fun params token =>
          parseCodeblockParameterString RegExp_new (f token) params
            alternativeHighlights)
       tokens params).
Proof.
  revert params. induction tokens as [|t tokens IH]; intros params H;
    simpl; [exact H|].
  by apply IH, token_consistent.
Qed.

(** X18. Whatever the parameter line, the parameters read from it are
    consistent: line numbers are never both forced on and forced off, and
    neither is unwrapping; wrapping on hover is set only with unwrapping
    forced on; a line number offset other than zero comes with line
    numbers forced on, and a fold placeholder with folding enabled. *)
Theorem parameters_are_consistent (parameterLine : string)
  (alternativeHighlights : gset string) :
  consistent
    (parseCodeblockParameters RegExp_new parameterLine alternativeHighlights).
Proof.
  assert (Hdef : forall l, consistent (set_language l default_parameters)).
  { intros l. unfold consistent. cbn. repeat split; congruence. }
  unfold parseCodeblockParameters.
  repeat match goal with
         | |- context [if ?b then _ else _] => destruct b
         | |- context [match ?o with Some _ => _ | None => _ end] =>
             destruct o
         end;
    try apply tokens_consistent; try apply Hdef;
    unfold consistent; cbn; repeat split; congruence.
Qed.

End Consistency.

(** ** Line numbers and the language of a codeblock *)

Section LineNumbering.
Import Rx CodeblockParsing.

Variable RegExp_new : string -> option (string -> bool).

Lemma length_chars (s : string) : length (JS.chars s) = String.length s.
Proof. induction s as [|c s IH]; simpl; [reflexivity | by rewrite IH]. Qed.

Lemma sslice_after_prefix (a b : string) :
  JS.sslice (a +:+ b) (Z.of_nat (String.length a)) None = b.
Proof.
  unfold JS.sslice. rewrite drop_Z_slice, chars_app.
  rewrite <- length_chars, drop_app_length. apply str_chars.
Qed.

Lemma sslice_prefix (a b : string) :
  JS.sslice (a +:+ b) 0 (Some (Z.of_nat (String.length a))) = a.
Proof.
  unfold JS.sslice. rewrite take_Z_slice, chars_app.
  rewrite <- length_chars, take_app_length. apply str_chars.
Qed.

Lemma all_digits_test (d : string) :
  numeral d -> test re_all_digits d = true.
Proof.
  intros Hd. destruct (numeral_chars d Hd) as (c & l & E & Hc & Hl).
  unfold re_all_digits, Cat; cbn [fold_right].
  rewrite test_anchored, E, m_seq.
  by rewrite (plus_class_all JS.is_digit _ c l [] []
                (MState (rev (c :: l) ++ []) [] []) Hc Hl).
Qed.

(** X19. The parameter [ln:N], or [ln=N], with a numeral [N] of at most
    [2 ^ 53], which [parseInt] reads exactly, forces line numbers on and
    sets the offset to [N - 1], so that the first line of the codeblock is
    numbered [N]; the other parameters are left as they are. *)
Theorem line_number_start (sep : ascii) (d : string)
  (params : CodeblockParameters) (alternativeHighlights : gset string) :
  sep = ":"%char \/ sep = "="%char ->
  numeral d -> value d <= 2 ^ 53 ->
  parseCodeblockParameterString RegExp_new ("ln" +:+ String sep d) params
    alternativeHighlights
  = set_lineNumbering (mkLineNumbers true false (value d - 1)) params.
Proof.
  intros Hsep Hd Hsafe. unfold parseCodeblockParameterString.
  assert (Htests :
            String.eqb ("ln" +:+ String sep d) "ignore" = false
            /\ test (re_prefix "title" false) ("ln" +:+ String sep d) = false
            /\ test (re_prefix "ref" false) ("ln" +:+ String sep d) = false
            /\ test (re_prefix "reference" false) ("ln" +:+ String sep d)
               = false
            /\ test (re_prefix "fold" true) ("ln" +:+ String sep d) = false
            /\ test (re_prefix "ln" false) ("ln" +:+ String sep d) = true).
  { unfold re_prefix, Cat; cbn [fold_right]. rewrite !test_anchored.
    destruct Hsep as [-> | ->]; repeat split; reflexivity. }
  destruct Htests as (-> & -> & -> & -> & -> & ->). cbn [orb].
  unfold manageLineNumbering.
  change ("ln" +:+ String sep d) with (("ln" +:+ String sep EmptyString) +:+ d).
  change (Z.of_nat (String.length "ln:"))
    with (Z.of_nat (String.length ("ln" +:+ String sep EmptyString))).
  rewrite sslice_after_prefix, (all_digits_test d Hd).
  pose proof (numeral_exact d Hd Hsafe) as Hexact.
  destruct Hd as [Hne Hall]. by rewrite (parseInt_digits d Hne Hall Hexact).
Qed.

End LineNumbering.

Section Language.
Import Rx CodeblockParsing.

Variable RegExp_new : string -> option (string -> bool).

Lemma tokens_language (tokens : list string) (f : string -> string)
  (params : CodeblockParameters) (alternativeHighlights : gset string) :
  language
    (fold_left
       (fun params token =>
          parseCodeblockParameterString RegExp_new (f token) params
            alternativeHighlights)
       tokens params)
  = language params.
Proof.
  revert params. induction tokens as [|t tokens IH]; intros params; simpl;
    [reflexivity|].
  by rewrite IH, token_language.
Qed.

(** The fence at the start of a parameter line is stripped when what
    follows does not start with the fence character. *)
Lemma strip_fence (c : ascii) (s : string) :
  match JS.chars s with x :: _ => x <> c | [] => True end ->
  replace (re_leading_fence c) (fence3 c +:+ s) (fun _ => EmptyString) = s.
Proof.
  intros Hs. unfold replace, re_leading_fence, Cat; cbn [fold_right].
  rewrite exec_anchored.
  change (JS.chars (fence3 c +:+ s)) with (c :: c :: c :: JS.chars s).
  rewrite m_seq. unfold Lit1 at 1. rewrite m_chr_hit by apply Ascii.eqb_refl.
  rewrite m_seq. unfold Lit1 at 1. rewrite m_chr_hit by apply Ascii.eqb_refl.
  rewrite m_seq. unfold Lit1 at 1.
  rewrite (plus_class_max (JS.is_char c) _ c [] (JS.chars s) [c; c] []
             (MState [c; c; c] (JS.chars s) [])).
  - cbn [after caps prefix_text suffix_text].
    change (EmptyString +:+ ?x) with x.
    change (JS.str [] +:+ ?x) with x. apply str_chars.
  - apply Ascii.eqb_refl.
  - reflexivity.
  - destruct (JS.chars s) as [|x l]; [exact I|].
    unfold JS.is_char. apply Ascii.eqb_neq. congruence.
  - cbn [rev app]. destruct (JS.chars s) as [|x l] eqn:E.
    + reflexivity.
    + cbn. unfold JS.is_char.
      replace (Ascii.eqb c x) with false
        by (symmetry; apply Ascii.eqb_neq; congruence).
      reflexivity.
Qed.

Lemma find_from_none (c : ascii) (l : list ascii) (i : nat) :
  forallb (fun x => negb (Ascii.eqb x c)) l = true ->
  JS.find_from [c] l i = None.
Proof.
  revert i. induction l as [|x l IH]; intros i H; [reflexivity|].
  simpl in H. apply andb_true_iff in H as [Hx H].
  apply negb_true_iff in Hx. simpl.
  rewrite Ascii.eqb_sym, Hx. simpl. by apply IH.
Qed.

Lemma find_from_hit (c : ascii) (l1 l2 : list ascii) (i : nat) :
  forallb (fun x => negb (Ascii.eqb x c)) l1 = true ->
  JS.find_from [c] (l1 ++ c :: l2) i = Some (i + length l1)%nat.
Proof.
  revert i. induction l1 as [|x l1 IH]; intros i H.
  - simpl. rewrite Ascii.eqb_refl. simpl. f_equal. lia.
  - simpl in H. apply andb_true_iff in H as [Hx H].
    apply negb_true_iff in Hx. simpl.
    rewrite Ascii.eqb_sym, Hx. simpl. rewrite IH by exact H. f_equal. lia.
Qed.

(** What [parseCodeblockParameters] does with a fence of three, a
    language name and what follows it. *)
Lemma parameters_of_fenced (c : ascii) (lang tail : string)
  (alternativeHighlights : gset string) :
  c = "`"%char \/ c = "~"%char ->
  language_name c lang ->
  tail = EmptyString \/ (exists rest, tail = " " +:+ rest) ->
  parseCodeblockParameters RegExp_new (fence3 c +:+ lang +:+ tail)
    alternativeHighlights
  = fold_left
      (fun params parameterString =>
         parseCodeblockParameterString RegExp_new
           (replace_all re_edge_comma parameterString (fun _ => EmptyString))
           params alternativeHighlights)
      (match_g re_parameter (JS.sslice tail 1 None))
      (set_language (JS.toLowerCase lang) default_parameters).
Proof.
  intros Hc [Hspace Hfirst] Htail.
  assert (Hhead : match JS.chars (lang +:+ tail) with
                  | x :: _ => x <> c /\ x <> "{"%char
                  | [] => True
                  end).
  { rewrite chars_app. destruct (JS.chars lang) as [|x l]; [|exact Hfirst].
    destruct Htail as [-> | (rest & ->)]; [exact I|].
    simpl. destruct Hc as [-> | ->]; split; discriminate. }
  assert (Hstrip : replace (re_leading_fence c) (fence3 c +:+ lang +:+ tail)
                     (fun _ => EmptyString) = lang +:+ tail).
  { apply strip_fence. destruct (JS.chars (lang +:+ tail)); tauto. }
  assert (Hrmd : exec re_rmd (lang +:+ tail) = None).
  { unfold re_rmd, Cat; cbn [fold_right]. rewrite exec_anchored, m_seq.
    unfold Lit1. rewrite m_chr_miss; [reflexivity|].
    destruct (JS.chars (lang +:+ tail)) as [|x l]; [exact I|].
    unfold JS.is_char. apply Ascii.eqb_neq. destruct Hhead. congruence. }
  unfold parseCodeblockParameters.
  assert (Hstripped :
            (if JS.startsWith (fence3 c +:+ lang +:+ tail) "```"
             then Some (replace (re_leading_fence "`")
                          (fence3 c +:+ lang +:+ tail) (fun _ => EmptyString))
             else if JS.startsWith (fence3 c +:+ lang +:+ tail) "~~~"
                  then Some (replace (re_leading_fence "~")
                               (fence3 c +:+ lang +:+ tail)
                               (fun _ => EmptyString))
                  else None) = Some (lang +:+ tail)).
  { destruct Hc as [-> | ->].
    - change (JS.startsWith (fence3 "`" +:+ lang +:+ tail) "```") with true.
      cbv iota. by rewrite Hstrip.
    - change (JS.startsWith (fence3 "~" +:+ lang +:+ tail) "```") with false.
      change (JS.startsWith (fence3 "~" +:+ lang +:+ tail) "~~~") with true.
      cbv iota. by rewrite Hstrip. }
  cbv zeta. rewrite Hstripped, Hrmd.
  destruct Htail as [-> | (rest & ->)].
  - rewrite append_empty_r.
    assert (Hidx : JS.indexOf lang " " 0 = -1).
    { unfold JS.indexOf. simpl Nat.min. rewrite drop_0.
      change (JS.chars " ") with [" "%char].
      by rewrite find_from_none. }
    rewrite Hidx. cbn [Z.eqb negb].
    rewrite <- (append_empty_r lang) at 1.
    by rewrite sslice_prefix.
  - assert (Hidx : JS.indexOf (lang +:+ " " +:+ rest) " " 0
                   = Z.of_nat (String.length lang)).
    { unfold JS.indexOf. simpl Nat.min. rewrite drop_0, chars_app.
      change (JS.chars " ") with [" "%char].
      change (JS.chars (" " +:+ rest)) with (" "%char :: JS.chars rest).
      rewrite find_from_hit by exact Hspace. by rewrite length_chars. }
    rewrite Hidx.
    replace (Z.of_nat (String.length lang) =? -1) with false
      by (symmetry; apply Z.eqb_neq; lia).
    cbn [negb]. rewrite sslice_prefix.
    change (Z.of_nat (String.length lang) + 1)
      with (Z.of_nat (String.length lang) + Z.of_nat (String.length " ")).
    rewrite <- Nat2Z.inj_add.
    assert (Hlen : (String.length lang + String.length " ")%nat
                   = String.length (lang +:+ " ")).
    { rewrite <- !length_chars, chars_app, length_app. reflexivity. }
    rewrite Hlen.
    assert (Hassoc : lang +:+ " " +:+ rest = (lang +:+ " ") +:+ rest).
    { rewrite <- (str_chars (lang +:+ " " +:+ rest)),
        <- (str_chars ((lang +:+ " ") +:+ rest)).
      by rewrite !chars_app, <- app_assoc. }
    rewrite Hassoc, sslice_after_prefix.
    change (JS.sslice (" " +:+ rest) 1 None)
      with (JS.sslice (" " +:+ rest) (Z.of_nat (String.length " ")) None).
    by rewrite sslice_after_prefix.
Qed.

(** The language of a line whose fence is stripped: the text up to the
    first space, in lower case. *)
Lemma language_of_stripped (c : ascii) (lang tail : string)
  (alternativeHighlights : gset string) :
  c = "`"%char \/ c = "~"%char ->
  language_name c lang ->
  tail = EmptyString \/ (exists rest, tail = " " +:+ rest) ->
  language
    (parseCodeblockParameters RegExp_new (fence3 c +:+ lang +:+ tail)
       alternativeHighlights)
  = JS.toLowerCase lang.
Proof.
  intros Hc Hlang Htail.
  rewrite parameters_of_fenced by assumption.
  by rewrite tokens_language.
Qed.

(** X20. After a fence of three backticks or three tildes, the language
    of a codeblock is the text up to the first space, in lower case; it
    does not depend on the parameters that follow. *)
Theorem language_is_first_word_lowercase (c : ascii) (lang rest : string)
  (alternativeHighlights : gset string) :
  c = "`"%char \/ c = "~"%char ->
  language_name c lang ->
  language
    (parseCodeblockParameters RegExp_new (fence3 c +:+ lang)
       alternativeHighlights)
  = JS.toLowerCase lang
  /\ language
       (parseCodeblockParameters RegExp_new
          (fence3 c +:+ lang +:+ " " +:+ rest) alternativeHighlights)
     = JS.toLowerCase lang.
Proof.
  intros Hc Hlang. split.
  - rewrite <- (append_empty_r lang) at 1.
    apply language_of_stripped; auto.
  - apply language_of_stripped; eauto.
Qed.

End Language.

(** ** The parameter line of a group *)

Section ParameterLines.
Import Rx CodeblockParsing.

Variable RegExp_new : string -> option (string -> bool).

Lemma quote_test_none (line : string) :
  (forall c, c ∈ JS.chars line -> c <> ">"%char) ->
  test re_quote_then_fence line = false.
Proof.
  intros H. apply test_none. intros bef aft Ht.
  unfold re_quote_then_fence, Cat; cbn [fold_right].
  rewrite m_seq. unfold Lit1. apply m_chr_miss.
  eapply head_class_false; [exact Ht|].
  intros x Hx. unfold JS.is_char. apply Ascii.eqb_neq.
  intros <-. by apply (H ">"%char).
Qed.

(** X21. An opening line that is the first line of its group, holds no
    block quote marker and starts with white space, is handed over as it
    is, white space included; it does not start with a fence, so the
    parameters read from it are the default ones: the codeblock has no
    language and none of its parameters. *)
Theorem indented_first_fence_has_no_parameters (lines : list string)
  (line : string) (alternativeHighlights : gset string) :
  getOpeningLine lines = Some line ->
  lines !! 0%nat = Some line ->
  (forall c, c ∈ JS.chars line -> c <> ">"%char) ->
  (exists c rest, JS.chars line = c :: rest /\ JS.is_space c = true) ->
  getParameterLine lines = Some line
  /\ parseCodeblockParameters RegExp_new line alternativeHighlights
     = default_parameters.
Proof.
  intros Hopen Hfirst Hquote (c & rest & E & Hc). split.
  - unfold getParameterLine. rewrite Hopen, Hfirst.
    replace (bool_decide (Some line = Some line)) with true
      by (symmetry; by apply bool_decide_eq_true).
    rewrite (quote_test_none line Hquote). cbn [negb orb].
    by rewrite andb_false_r.
  - unfold parseCodeblockParameters, JS.startsWith. rewrite E.
    assert (H1 : Ascii.eqb "`" c = false).
    { apply Ascii.eqb_neq. intros <-. discriminate Hc. }
    assert (H2 : Ascii.eqb "~" c = false).
    { apply Ascii.eqb_neq. intros <-. discriminate Hc. }
    change (JS.chars "```") with ["`"; "`"; "`"]%char.
    change (JS.chars "~~~") with ["~"; "~"; "~"]%char.
    cbn [JS.starts]. by rewrite H1, H2.
Qed.

(** *** Block quote markers *)

Lemma star_quote_marks (k : mstate -> option mstate)
  (s : string) (cs : list (nat * list ascii)) (A : list ascii)
  (C : list (nat * list ascii)) :
  match JS.chars s with
  | c :: _ => c <> ">"%char /\ JS.is_space c = false
  | [] => True
  end ->
  (forall bef', exists x, k (MState bef' (JS.chars s) cs) = Some x
                          /\ after x = A /\ caps x = C) ->
  forall (n fuel : nat) (bef : list ascii),
    (length (JS.chars (block_quoted n s)) <= fuel)%nat ->
    exists x,
      star_loop true (m (Cat [Lit1 ">"; Star true (Chr JS.is_space)])) k fuel
        (MState bef (JS.chars (block_quoted n s)) cs) = Some x
      /\ after x = A /\ caps x = C.
Proof.
  intros Hs Hk. induction n as [|n IH]; intros fuel bef Hfuel.
  - change (block_quoted 0 s) with s in *.
    destruct fuel as [|fuel]; [apply Hk|].
    rewrite star_loop_S. cbv beta zeta.
    unfold Cat; cbn [fold_right]. rewrite m_seq. unfold Lit1.
    rewrite m_chr_miss; [apply Hk|].
    destruct (JS.chars s) as [|c l]; [exact I|].
    unfold JS.is_char. apply Ascii.eqb_neq. destruct Hs. congruence.
  - change (JS.chars (block_quoted (S n) s))
      with (">"%char :: " "%char :: JS.chars (block_quoted n s)) in *.
    destruct fuel as [|fuel]; [simpl in Hfuel; lia|].
    destruct (IH fuel (" "%char :: ">"%char :: bef)) as (x & Hx & HA & HC);
      [simpl in Hfuel; lia|].
    exists x. split; [|by split].
    rewrite star_loop_S. cbv beta zeta.
    unfold Cat at 1; cbn [fold_right]. rewrite m_seq. unfold Lit1 at 1.
    rewrite m_chr_hit by reflexivity. rewrite m_seq.
    change (m (Star true (Chr JS.is_space)) ?st ?k0)
      with (star_loop true (m (Chr JS.is_space)) k0 (length (after st)) st).
    cbn [after].
    change (" "%char :: JS.chars (block_quoted n s))
      with ([" "%char] ++ JS.chars (block_quoted n s)).
    erewrite star_loop_class_max; [reflexivity | reflexivity | | simpl; lia |].
    + destruct n as [|n]; [|reflexivity].
      change (block_quoted 0 s) with s.
      destruct (JS.chars s); [exact I | tauto].
    + cbn [m after rev app length].
      replace (length (JS.chars (block_quoted n s))
               <? S (S (length (JS.chars (block_quoted n s)))))%nat
        with true by (symmetry; apply Nat.ltb_lt; lia).
      exact Hx.
Qed.

(** The fence expression on a fence of three. *)
Lemma m_fence3 (c : ascii) (l bef : list ascii)
  (cs : list (nat * list ascii)) (k : mstate -> option mstate) (x : mstate) :
  c = "`"%char \/ c = "~"%char ->
  match l with a :: _ => a <> c | [] => True end ->
  k (MState (c :: c :: c :: bef) l cs) = Some x ->
  m re_fence (MState bef (c :: c :: c :: l) cs) k = Some x.
Proof.
  intros Hc Hl Hk.
  assert (Hmiss : match l with
                  | a :: _ => JS.is_char c a = false
                  | [] => True
                  end).
  { destruct l as [|a l]; [exact I|].
    unfold JS.is_char. apply Ascii.eqb_neq. congruence. }
  unfold re_fence.
  assert (Hrun : forall k0,
             k0 (MState (c :: c :: c :: bef) l cs) = Some x ->
             m (Cat [Lit (String c (String c EmptyString));
                     Plus true (Lit1 c)])
               (MState bef (c :: c :: c :: l) cs) k0 = Some x).
  { intros k0 Hk0. unfold Cat, Lit; cbn [fold_right JS.chars list_ascii_of_string].
    rewrite !m_seq. unfold Lit1 at 1. rewrite m_chr_hit by apply Ascii.eqb_refl.
    rewrite m_seq. unfold Lit1 at 1. rewrite m_chr_hit by apply Ascii.eqb_refl.
    cbn [m]. unfold Lit1.
    apply (plus_class_max (JS.is_char c) _ c [] l);
      [apply Ascii.eqb_refl | reflexivity | exact Hmiss | exact Hk0]. }
  destruct Hc as [-> | ->].
  - cbn [m].
    change (m (Cat [Lit "``"; Plus true (Lit1 "`")]) ?st ?k0)
      with (m (Cat [Lit (String "`" (String "`" EmptyString));
                    Plus true (Lit1 "`")]) st k0).
    by rewrite (Hrun k Hk).
  - cbn [m].
    replace (m (Cat [Lit "``"; Plus true (Lit1 "`")])
               (MState bef ("~"%char :: "~"%char :: "~"%char :: l) cs) k)
      with (@None mstate) by reflexivity.
    change (m (Cat [Lit "~~"; Plus true (Lit1 "~")]) ?st ?k0)
      with (m (Cat [Lit (String "~" (String "~" EmptyString));
                    Plus true (Lit1 "~")]) st k0).
    exact (Hrun k Hk).
Qed.


Lemma head_not_fence (c : ascii) (lang tail : string) :
  c = "`"%char \/ c = "~"%char ->
  language_name c lang ->
  tail = EmptyString \/ (exists rest, tail = " " +:+ rest) ->
  match JS.chars (lang +:+ tail) with
  | x :: _ => x <> c
  | [] => True
  end.
Proof.
  intros Hc [_ Hfirst] Htail. rewrite chars_app.
  destruct (JS.chars lang) as [|x l]; [|tauto].
  destruct Htail as [-> | (rest & ->)]; [exact I|].
  simpl. destruct Hc as [-> | ->]; discriminate.
Qed.

(** The expression of [cleanParameterLine] on a fence inside block
    quotes. *)
Lemma quoted_fence_exec (n : nat) (c : ascii) (s : string) :
  c = "`"%char \/ c = "~"%char ->
  match JS.chars s with x :: _ => x <> c | [] => True end ->
  replace re_quoted_fence (block_quoted n (fence3 c +:+ s))
    (fun mt => group_or_empty mt 1)
  = fence3 c +:+ s.
Proof.
  intros Hc Hs. unfold replace, re_quoted_fence.
  change (Cat [Bol; Star true (Cat [Lit1 ">"; Star true (Chr JS.is_space)]);
               Group 1 re_fence])
    with (Seq Bol
            (Seq (Star true (Cat [Lit1 ">"; Star true (Chr JS.is_space)]))
               (Seq (Group 1 re_fence) Eps))).
  rewrite exec_anchored, m_seq.
  change (m (Star true ?q) ?st ?k0)
    with (star_loop true (m q) k0 (length (after st)) st).
  cbn [after].
  destruct (star_quote_marks
              (fun st' => m (Seq (Group 1 re_fence) Eps) st' Some)
              (fence3 c +:+ s) [] (JS.chars s) [(1%nat, [c; c; c])])
    with (n := n) (bef := @nil ascii)
         (fuel := length (JS.chars (block_quoted n (fence3 c +:+ s))))
    as (x & Hx & HA & HC).
  - change (JS.chars (fence3 c +:+ s)) with (c :: c :: c :: JS.chars s).
    destruct Hc as [-> | ->]; split; (discriminate || reflexivity).
  - intros bef'. eexists. split; [|split].
    + change (JS.chars (fence3 c +:+ s)) with (c :: c :: c :: JS.chars s).
      rewrite m_seq. cbn [m].
      apply m_fence3; [exact Hc | exact Hs | reflexivity].
    + reflexivity.
    + unfold set_cap. cbn [after caps length].
      replace (S (S (S (length (JS.chars s)))) - length (JS.chars s))%nat
        with 3%nat by lia.
      reflexivity.
  - lia.
  - rewrite Hx, HA, HC. unfold group_or_empty, group. simpl.
    change (EmptyString +:+ ?y) with y.
    by rewrite str_chars.
Qed.

(** The block quote test finds the marker before the fence. *)
Lemma quote_test_some (c : ascii) (s : string) :
  c = "`"%char \/ c = "~"%char ->
  forall (n : nat) (bef : list ascii),
    is_Some (exec_from re_quote_then_fence bef
               (JS.chars (block_quoted (S n) (fence3 c +:+ s)))).
Proof.
  intros Hc. induction n as [|n IH]; intros bef.
  - change (JS.chars (block_quoted 1 (fence3 c +:+ s)))
      with (">"%char :: [" "%char] ++ c :: c :: c :: JS.chars s).
    cbn [exec_from].
    assert (Hm : is_Some (m re_quote_then_fence
                            (MState bef
                               (">"%char :: [" "%char]
                                  ++ c :: c :: c :: JS.chars s) [])
                            Some)).
    { unfold re_quote_then_fence, Cat; cbn [fold_right].
      rewrite m_seq. unfold Lit1. rewrite m_chr_hit by reflexivity.
      rewrite m_seq.
      change (m (Star true (Chr JS.is_space)) ?st ?k0)
        with (star_loop true (m (Chr JS.is_space)) k0 (length (after st)) st).
      cbn [after].
      erewrite star_loop_class_max; [eauto | reflexivity | | lia |].
      - destruct Hc as [-> | ->]; reflexivity.
      - rewrite m_seq, m_chr_hit; [reflexivity|].
        destruct Hc as [-> | ->]; reflexivity. }
    destruct Hm as [x ->]. eauto.
  - change (JS.chars (block_quoted (S (S n)) (fence3 c +:+ s)))
      with (">"%char :: " "%char
              :: JS.chars (block_quoted (S n) (fence3 c +:+ s))).
    cbn [exec_from].
    destruct (m re_quote_then_fence (MState bef _ []) Some); [eauto|].
    destruct (m re_quote_then_fence (MState (">"%char :: bef) _ []) Some);
      [eauto|].
    apply IH.
Qed.

(** X22. The parameter line of a codeblock inside block quotes: for an
    opening line made of [n] markers [> ], a fence of three and then the
    language and the parameters, with no white space at its ends,
    [cleanParameterLine] returns the line without the markers; the
    language read from it is the one read outside of a block quote; and
    with at least one marker that is what [getParameterLine] hands
    over. *)
Theorem block_quoted_fence_is_cleaned (n : nat) (c : ascii)
  (lang tail : string) (lines : list string)
  (alternativeHighlights : gset string) :
  c = "`"%char \/ c = "~"%char ->
  language_name c lang ->
  tail = EmptyString \/ (exists rest, tail = " " +:+ rest) ->
  JS.trim (block_quoted n (fence3 c +:+ lang +:+ tail))
  = block_quoted n (fence3 c +:+ lang +:+ tail) ->
  cleanParameterLine (block_quoted n (fence3 c +:+ lang +:+ tail))
  = fence3 c +:+ lang +:+ tail
  /\ language
       (parseCodeblockParameters RegExp_new
          (cleanParameterLine (block_quoted n (fence3 c +:+ lang +:+ tail)))
          alternativeHighlights)
     = JS.toLowerCase lang
  /\ ((0 < n)%nat ->
      getOpeningLine lines
      = Some (block_quoted n (fence3 c +:+ lang +:+ tail)) ->
      getParameterLine lines = Some (fence3 c +:+ lang +:+ tail)).
Proof.
  intros Hc Hlang Htail Htrim.
  assert (Hclean : cleanParameterLine
                     (block_quoted n (fence3 c +:+ lang +:+ tail))
                   = fence3 c +:+ lang +:+ tail).
  { unfold cleanParameterLine, trimParameterLine. rewrite Htrim.
    apply quoted_fence_exec; [exact Hc|].
    by apply head_not_fence. }
  split; [exact Hclean|]. split.
  - rewrite Hclean. by apply language_of_stripped.
  - intros Hn Hopen. unfold getParameterLine. rewrite Hopen.
    destruct n as [|n]; [lia|].
    assert (Htest : test re_quote_then_fence
                      (block_quoted (S n) (fence3 c +:+ lang +:+ tail))
                    = true).
    { unfold test, exec.
      by destruct (quote_test_some c (lang +:+ tail) Hc n []) as [x ->]. }
    rewrite Htest, orb_true_r, Hclean.
    change (block_quoted (S n) (fence3 c +:+ lang +:+ tail))
      with (String ">" (String " "
              (block_quoted n (fence3 c +:+ lang +:+ tail)))).
    reflexivity.
Qed.

End ParameterLines.

(** ** Highlights without duplicates *)

Section NoDuplicates.
Import CodeblockParsing.

Variable RegExp_new : string -> option (string -> bool).

Lemma parseHighlightedLines_duplicate_free (s : string) :
  duplicate_free (parseHighlightedLines RegExp_new s).
Proof.
  unfold parseHighlightedLines. apply rules_NoDup.
  split; apply NoDup_nil_2.
Qed.

Lemma token_duplicate_free (token : string) (params : CodeblockParameters)
  (alternativeHighlights : gset string) :
  duplicate_free (highlights_default params)
  /\ map_Forall (fun _ h => duplicate_free h) (highlights_alternative params)
  ->
  duplicate_free
    (highlights_default
       (parseCodeblockParameterString RegExp_new token params
          alternativeHighlights))
  /\ map_Forall (fun _ h => duplicate_free h)
       (highlights_alternative
          (parseCodeblockParameterString RegExp_new token params
             alternativeHighlights)).
Proof.
  intros [Hd Ha].
  unfold parseCodeblockParameterString, manageTitle, manageReference,
    manageFolding, manageLineNumbering, manageWrapping, addHighlights.
  repeat match goal with
         | |- context [if ?b then _ else _] => destruct b
         | |- context [match ?o with Some _ => _ | None => _ end] =>
             destruct o
         | |- context [let (_, _) := ?x in _] => destruct x
         end;
    cbn [highlights_default highlights_alternative set_title set_reference
           set_fold set_lineNumbering set_lineUnwrap set_highlights_default
           set_highlights_alternative set_ignore];
    split; auto using parseHighlightedLines_duplicate_free;
    (apply map_Forall_insert_2;
     [apply parseHighlightedLines_duplicate_free | exact Ha]).
Qed.

(** X23. Whatever the parameter line, the highlights read from it, the
    default ones and those of every alternative, hold no line number
    twice and no plain text twice, however often the rules name them. *)
Theorem highlights_hold_each_value_once (parameterLine : string)
  (alternativeHighlights : gset string) :
  let params :=
    parseCodeblockParameters RegExp_new parameterLine alternativeHighlights in
  duplicate_free (highlights_default params)
  /\ forall name h,
       highlights_alternative params !! name = Some h -> duplicate_free h.
Proof.
  cbv zeta.
  assert (Hfold : forall (tokens : list string) (f : string -> string) params,
             duplicate_free (highlights_default params)
             /\ map_Forall (fun _ h => duplicate_free h)
                  (highlights_alternative params) ->
             let params' :=
               fold_left
                 (fun params token =>
                    parseCodeblockParameterString RegExp_new (f token) params
                      alternativeHighlights)
                 tokens params in
             duplicate_free (highlights_default params')
             /\ map_Forall (fun _ h => duplicate_free h)
                  (highlights_alternative params')).
  { induction tokens as [|t tokens IH]; intros f params H; simpl; [exact H|].
    by apply IH, token_duplicate_free. }
  assert (Hdef : forall l,
             duplicate_free (highlights_default (set_language l default_parameters))
             /\ map_Forall (fun _ h => duplicate_free h)
                  (highlights_alternative (set_language l default_parameters))).
  { intros l. split; [split; apply NoDup_nil_2 | apply map_Forall_empty]. }
  assert (Hall : duplicate_free
                   (highlights_default
                      (parseCodeblockParameters RegExp_new parameterLine
                         alternativeHighlights))
                 /\ map_Forall (fun _ h => duplicate_free h)
                      (highlights_alternative
                         (parseCodeblockParameters RegExp_new parameterLine
                            alternativeHighlights))).
  { unfold parseCodeblockParameters.
    repeat match goal with
           | |- context [if ?b then _ else _] => destruct b
           | |- context [match ?o with Some _ => _ | None => _ end] =>
               destruct o
           end;
      try apply Hfold; try apply Hdef;
      (split; [split; apply NoDup_nil_2 | apply map_Forall_empty]). }
  destruct Hall as [Hd Ha]. split; [exact Hd|].
  intros name h Hh. exact (Ha name h Hh).
Qed.

End NoDuplicates.

(** ** Parameters between spaces *)

Section Tokens.
Import Rx CodeblockParsing.

Variable RegExp_new : string -> option (string -> bool).

(** The characters of a list of plain parameters joined by spaces. *)
Lemma plain_chars (t : string) (c : ascii) :
  plain_parameter t -> c ∈ JS.chars t ->
  JS.is_space c = false /\ JS.is_quote c = false /\ c <> "["%char.
Proof.
  intros (_ & Hall & _) Hc. rewrite forallb_forall in Hall.
  apply list_elem_of_In, Hall in Hc.
  apply negb_true_iff, orb_false_iff in Hc as [Hc H3].
  apply orb_false_iff in Hc as [H1 H2].
  repeat split; auto. by apply Ascii.eqb_neq.
Qed.

(** The first alternative of the parameter expression needs an opening
    bracket. *)
Lemma link_alternative_none (st : mstate) (k : mstate -> option mstate) :
  (forall c, c ∈ rev (before st) ++ after st -> c <> "["%char) ->
  m (Cat [Alt (Lit "ref") (Alt (Lit "reference") (Lit "title"));
          Lit1 ":";
          Alt (Cat [Lit "[["; Star false Dot; Lit "]]"])
              (Cat [Lit1 "["; Star false Dot; Lit "](";
                    Plus true Dot; Lit1 ")"])])
    st k = None.
Proof.
  intros Htext. unfold Cat at 1; cbn [fold_right].
  rewrite m_seq. apply m_none. intros st1 Ht1 _.
  rewrite m_seq. apply m_none. intros st2 Ht2 _.
  assert (Hhead : match after st2 with
                  | c :: _ => JS.is_char "[" c = false
                  | [] => True
                  end).
  { destruct st2 as [b2 a2 c2]. simpl in *.
    eapply (head_class_false (JS.is_char "[") b2 a2); [reflexivity|].
    intros x Hx. unfold JS.is_char. apply Ascii.eqb_neq. intros <-.
    apply (Htext "["%char); [|reflexivity].
    by rewrite <- Ht1, <- Ht2. }
  destruct st2 as [b2 a2 c2]. simpl in Hhead.
  rewrite m_seq. cbn [m]. unfold Cat, Lit; cbn [fold_right JS.chars list_ascii_of_string].
  rewrite !m_seq. unfold Lit1. by rewrite !m_chr_miss.
Qed.


(** One round of a greedy repetition: the body matches once and fails
    where that match ends. *)
Lemma plus_once (r : regex) (st st1 : mstate) :
  (forall k x, k st1 = Some x -> m r st k = Some x) ->
  (forall k, m r st1 k = None) ->
  m (Plus true r) st Some = Some st1.
Proof.
  intros Hrun Hstop.
  change (m (Plus true r) st Some)
    with (m r st (fun st' => star_loop true (m r) Some (length (after st')) st')).
  apply Hrun. destruct (length (after st1)) as [|n]; [reflexivity|].
  rewrite star_loop_S. cbv beta zeta. by rewrite Hstop.
Qed.

(** The parameter expression at the start of a run of plain characters
    that ends at a space or at the end: the match is the run. *)
Lemma m_parameter_run (t rest bef : list ascii) :
  t <> [] ->
  (forall c, c ∈ t ->
             JS.is_space c = false /\ JS.is_quote c = false) ->
  match rest with c :: _ => JS.is_space c = true | [] => True end ->
  (forall c, c ∈ rev bef ++ t ++ rest -> c <> "["%char) ->
  m re_parameter (MState bef (t ++ rest) []) Some
  = Some (MState (rev t ++ bef) rest []).
Proof.
  intros Hne Ht Hrest Htext.
  destruct t as [|c t]; [congruence|].
  assert (Hcls : forall x, x ∈ c :: t ->
                           negb (JS.is_space x || JS.is_quote x) = true).
  { intros x Hx. destruct (Ht x Hx) as [-> ->]. reflexivity. }
  assert (Hend : match rest with
                 | x :: _ => negb (JS.is_space x || JS.is_quote x) = false
                 | [] => True
                 end).
  { destruct rest as [|x rest]; [exact I|]. by rewrite Hrest. }
  unfold re_parameter. apply plus_once.
  - intros k x Hk. cbn [m]. rewrite link_alternative_none by exact Htext.
    unfold Not. change ((c :: t) ++ rest) with (c :: t ++ rest).
    erewrite plus_class_max; [reflexivity | | | exact Hend | exact Hk].
    + apply Hcls. by left.
    + apply forallb_forall. intros x0 Hx. apply Hcls. right.
      by apply list_elem_of_In.
  - intros k. cbn [m]. rewrite link_alternative_none.
    2:{ cbn [before after]. intros x Hx. apply Htext.
        rewrite rev_app_distr, rev_involutive, <- app_assoc in Hx.
        exact Hx. }
    unfold Plus, Not, Cat; cbn [fold_right]. rewrite !m_seq. unfold Lit1.
    destruct rest as [|x rest].
    + by rewrite !m_chr_miss.
    + rewrite m_chr_miss by (by rewrite Hrest).
      assert (Hq : JS.is_char JS.DQ x = false /\ JS.is_char JS.SQ x = false).
      { split; apply Ascii.eqb_neq; intros <-; discriminate Hrest. }
      destruct Hq as [Hd Hs]. by rewrite !m_chr_miss.
Qed.

(** The parameter expression matches nothing at a space or at the end. *)
Lemma m_parameter_stop (rest bef : list ascii)
  (k : mstate -> option mstate) :
  match rest with c :: _ => JS.is_space c = true | [] => True end ->
  (forall c, c ∈ rev bef ++ rest -> c <> "["%char) ->
  m re_parameter (MState bef rest []) k = None.
Proof.
  intros Hrest Htext. unfold re_parameter.
  change (m (Plus true ?r) ?st ?k0)
    with (m r st (fun st' => star_loop true (m r) k0 (length (after st')) st')).
  cbn [m]. rewrite link_alternative_none by exact Htext.
  unfold Plus, Not, Cat; cbn [fold_right]. rewrite !m_seq. unfold Lit1.
  destruct rest as [|x rest].
  - by rewrite !m_chr_miss.
  - rewrite m_chr_miss by (by rewrite Hrest).
    assert (Hq : JS.is_char JS.DQ x = false /\ JS.is_char JS.SQ x = false).
    { split; apply Ascii.eqb_neq; intros <-; discriminate Hrest. }
    destruct Hq as [Hd Hs]. by rewrite !m_chr_miss.
Qed.


(** The search moves on from a position where nothing matches. *)
Lemma match_all_from_skip (fuel : nat) (r : regex) (c : ascii)
  (bef aft : list ascii) :
  m r (MState bef (c :: aft) []) Some = None ->
  match_all_from fuel r bef (c :: aft) = match_all_from fuel r (c :: bef) aft.
Proof. intros H. destruct fuel as [|fuel]; simpl; [reflexivity | by rewrite H]. Qed.

Lemma match_all_from_end (fuel : nat) (r : regex) (bef : list ascii) :
  m r (MState bef [] []) Some = None -> match_all_from fuel r bef [] = [].
Proof.
  intros H. destruct fuel as [|fuel]; [reflexivity|].
  cbn [match_all_from exec_from]. by rewrite H.
Qed.

Lemma exec_from_hit (r : regex) (bef aft : list ascii) (st' : mstate) :
  m r (MState bef aft []) Some = Some st' ->
  exec_from r bef aft
  = Some (RMatch (length bef) (rev bef)
            (take (length aft - length (after st')) aft)
            (after st') (caps st')).
Proof. intros H. destruct aft; cbn [exec_from]; by rewrite H. Qed.

Lemma chars_join_cons (t : string) (ts : list string) :
  JS.chars (JS.join " " (t :: ts))
  = JS.chars t ++ match ts with
                  | [] => []
                  | _ :: _ => " "%char :: JS.chars (JS.join " " ts)
                  end.
Proof.
  destruct ts as [|u ts].
  - simpl. by rewrite app_nil_r.
  - change (JS.join " " (t :: u :: ts))
      with (t +:+ " " +:+ JS.join " " (u :: ts)).
    by rewrite !chars_app.
Qed.

Lemma plain_join_chars (tokens : list string) (c : ascii) :
  Forall plain_parameter tokens -> c ∈ JS.chars (JS.join " " tokens) ->
  c <> "["%char.
Proof.
  induction 1 as [|t ts Ht Hts IH]; [by intros ?%elem_of_nil|].
  rewrite chars_join_cons. intros [Hc | Hc]%elem_of_app.
  - by destruct (plain_chars t c Ht Hc) as (_ & _ & ?).
  - destruct ts as [|u ts]; [by apply elem_of_nil in Hc|].
    apply elem_of_cons in Hc as [-> | Hc]; [discriminate | by apply IH].
Qed.

(** The matches of the parameter expression on plain parameters joined by
    single spaces are the parameters. *)
Lemma match_all_tokens (tokens : list string) :
  Forall plain_parameter tokens ->
  forall (fuel : nat) (bef : list ascii),
    (length tokens < fuel)%nat ->
    (forall c, c ∈ rev bef -> c <> "["%char) ->
    map (fun mt => JS.str (matched mt))
      (match_all_from fuel re_parameter bef (JS.chars (JS.join " " tokens)))
    = tokens.
Proof.
  induction 1 as [|t ts Ht Hts IH]; intros fuel bef Hfuel Hbef.
  - change (JS.chars (JS.join " " [])) with (@nil ascii).
    rewrite match_all_from_end; [reflexivity|].
    apply m_parameter_stop; [exact I|].
    intros c Hc. rewrite app_nil_r in Hc. by apply Hbef.
  - destruct fuel as [|fuel]; [simpl in Hfuel; lia|].
    rewrite chars_join_cons.
    set (rest := match ts with
                 | [] => []
                 | _ :: _ => " "%char :: JS.chars (JS.join " " ts)
                 end).
    assert (Hrest : match rest with
                    | c :: _ => JS.is_space c = true
                    | [] => True
                    end) by (subst rest; by destruct ts).
    assert (Htext : forall c, c ∈ rev bef ++ JS.chars t ++ rest ->
                              c <> "["%char).
    { intros c [Hc | [Hc | Hc]%elem_of_app]%elem_of_app.
      - by apply Hbef.
      - by destruct (plain_chars t c Ht Hc) as (_ & _ & ?).
      - subst rest. destruct ts as [|u ts]; [by apply elem_of_nil in Hc|].
        apply elem_of_cons in Hc as [-> | Hc]; [discriminate|].
        by apply (plain_join_chars (u :: ts)). }
    assert (Hne : JS.chars t <> []).
    { destruct Ht as (Hne & _). destruct t; [congruence | discriminate]. }
    assert (Hrun := m_parameter_run (JS.chars t) rest bef Hne
                      (fun c Hc => match plain_chars t c Ht Hc with
                                   | conj a (conj b _) => conj a b
                                   end) Hrest Htext).
    cbn [match_all_from].
    assert (Hexec : exec_from re_parameter bef (JS.chars t ++ rest)
                    = Some (RMatch (length bef) (rev bef) (JS.chars t) rest [])).
    { rewrite (exec_from_hit _ _ _ _ Hrun). cbn [after caps].
      replace (length (JS.chars t ++ rest) - length rest)%nat
        with (length (JS.chars t)) by (rewrite length_app; lia).
      by rewrite take_app_length. }
    rewrite Hexec. cbn [map matched]. rewrite str_chars. f_equal.
    assert (Hres : resume (RMatch (length bef) (rev bef) (JS.chars t) rest [])
                   = Some (rev (JS.chars t) ++ bef, rest)).
    { unfold resume. cbn [matched suffix_text prefix_text].
      destruct (JS.chars t); [congruence | by rewrite rev_involutive]. }
    rewrite Hres.
    assert (Hbef' : forall c, c ∈ rev (rev (JS.chars t) ++ bef) ->
                              c <> "["%char).
    { intros c Hc. apply Htext. rewrite rev_app_distr, rev_involutive in Hc.
      apply elem_of_app in Hc as [Hc | Hc]; apply elem_of_app.
      - by left.
      - right. apply elem_of_app. by left. }
    subst rest. destruct ts as [|u ts].
    + rewrite match_all_from_end; [reflexivity|].
      apply m_parameter_stop; [exact I|].
      intros c Hc. rewrite app_nil_r in Hc. by apply Hbef'.
    + rewrite match_all_from_skip.
      * apply IH; [simpl in *; lia|].
        intros c Hc. change (rev (" "%char :: ?l)) with (rev l ++ [" "%char]) in Hc.
        apply elem_of_app in Hc as [Hc | Hc]; [by apply Hbef'|].
        apply list_elem_of_singleton in Hc as ->. discriminate.
      * apply m_parameter_stop; [reflexivity|].
        intros c Hc. apply Htext.
        rewrite rev_app_distr, rev_involutive, <- app_assoc in Hc. exact Hc.
Qed.

Lemma join_length (tokens : list string) :
  Forall plain_parameter tokens ->
  (length tokens <= String.length (JS.join " " tokens))%nat.
Proof.
  induction 1 as [|t ts Ht Hts IH]; [simpl; lia|].
  rewrite <- length_chars, chars_join_cons, length_app, length_chars.
  destruct Ht as (Hne & _).
  assert (1 <= String.length t)%nat by (destruct t; [congruence | simpl; lia]).
  destruct ts as [|u ts]; [simpl; lia|].
  cbn [length]. rewrite length_chars. cbn [length] in IH. lia.
Qed.

Lemma match_g_tokens (tokens : list string) :
  Forall plain_parameter tokens ->
  match_g re_parameter (JS.join " " tokens) = tokens.
Proof.
  intros H. unfold match_g, match_all. apply match_all_tokens; [exact H | |].
  - pose proof (join_length tokens H). lia.
  - intros c Hc. by apply elem_of_nil in Hc.
Qed.

(** Nothing is removed from a text with no comma at its ends. *)
Lemma edge_comma_none (t : string) :
  JS.startsWith t "," = false -> JS.endsWith t "," = false ->
  replace_all re_edge_comma t (fun _ => EmptyString) = t.
Proof.
  intros Hs He.
  assert (Hexec : exec_from re_edge_comma [] (JS.chars t) = None).
  { apply exec_from_none. intros bef aft Ht. simpl in Ht.
    unfold re_edge_comma, Cat; cbn [fold_right].
    change (m (Alt ?a ?b) ?st ?k)
      with (match m a st k with Some x => Some x | None => m b st k end).
    assert (H1 : m (Seq Bol (Seq (Lit1 ",") Eps)) (MState bef aft []) Some
                 = None).
    { rewrite m_seq. destruct bef as [|b bef]; [|reflexivity].
      change (m Bol (MState [] aft []) ?k) with (k (MState [] aft [])).
      cbv beta. rewrite m_seq. unfold Lit1. apply m_chr_miss.
      simpl in Ht. subst aft. unfold JS.startsWith in Hs.
      change (JS.chars ",") with [","%char] in Hs.
      destruct (JS.chars t) as [|c l]; [exact I|].
      cbn [JS.starts] in Hs. by rewrite andb_true_r in Hs. }
    rewrite H1, m_seq. unfold Lit1.
    destruct aft as [|c aft]; [by rewrite m_chr_miss|].
    destruct (JS.is_char "," c) eqn:Ec; [|by rewrite m_chr_miss].
    rewrite m_chr_hit by exact Ec. rewrite m_seq.
    destruct aft as [|d aft]; [|reflexivity].
    exfalso. unfold JS.endsWith in He. rewrite <- Ht in He.
    rewrite rev_app_distr in He.
    change (rev (JS.chars ",")) with [","%char] in He.
    change (rev [c]) with [c] in He. cbn [app JS.starts] in He.
    unfold JS.is_char in Ec. rewrite Ec in He. discriminate. }
  unfold replace_all, match_all. cbn [match_all_from]. rewrite Hexec.
  cbn [replace_matches]. rewrite drop_0. apply str_chars.
Qed.


(** X24. After a fence of three characters and a language name, plain
    parameters separated by single spaces are handed one by one, in their
    order and unchanged, to [parseCodeblockParameterString]. *)
Theorem plain_parameters_one_by_one (c : ascii) (lang : string)
  (tokens : list string) (alternativeHighlights : gset string) :
  c = "`"%char \/ c = "~"%char ->
  language_name c lang ->
  Forall plain_parameter tokens ->
  parseCodeblockParameters RegExp_new
    (fence3 c +:+ lang +:+ " " +:+ JS.join " " tokens) alternativeHighlights
  = fold_left
      (fun params parameterString =>
         parseCodeblockParameterString RegExp_new parameterString params
           alternativeHighlights)
      tokens (set_language (JS.toLowerCase lang) default_parameters).
Proof.
  intros Hc Hlang Htokens.
  rewrite (parameters_of_fenced RegExp_new c lang
             (" " +:+ JS.join " " tokens) alternativeHighlights Hc Hlang)
    by (right; by eexists).
  change 1 with (Z.of_nat (String.length " ")).
  rewrite sslice_after_prefix, match_g_tokens by exact Htokens.
  generalize (set_language (JS.toLowerCase lang) default_parameters).
  induction Htokens as [|t ts Ht Hts IH]; intros p; [reflexivity|].
  cbn [fold_left]. destruct Ht as (_ & _ & Hs & He).
  rewrite edge_comma_none by assumption. apply IH.
Qed.

End Tokens.

(** ** The cache and the references by file *)

Section ReferencesByFile.
Import ReferenceParsing Referencing.

Lemma lists_reference_add (r : ReferenceByFile) (sp id d i : string) :
  lists_reference (add_reference r sp id) d i
  <-> lists_reference r d i \/ (d = sp /\ i = id).
Proof.
  unfold lists_reference. induction r as [|[key ids] r IH]; simpl.
  - split.
    + intros (ids & Hin & Hi). apply list_elem_of_singleton in Hin.
      injection Hin as -> ->. apply list_elem_of_singleton in Hi. by right.
    + intros [(ids & Hin & _) | [-> ->]]; [by apply elem_of_nil in Hin|].
      exists [id]. split; apply list_elem_of_singleton; reflexivity.
  - destruct (String.eqb_spec key sp) as [-> | Hne].
    + split.
      * intros (ids' & Hin & Hi). apply elem_of_cons in Hin as [Heq | Hin].
        -- injection Heq as -> ->. apply elem_of_app in Hi as [Hi | Hi].
           ++ left. exists ids. split; [by left | exact Hi].
           ++ apply list_elem_of_singleton in Hi. by right.
        -- left. exists ids'. split; [by right | exact Hi].
      * intros [(ids' & Hin & Hi) | [-> ->]].
        -- apply elem_of_cons in Hin as [Heq | Hin].
           ++ injection Heq as -> ->. exists (ids ++ [id]).
              split; [by left | apply elem_of_app; by left].
           ++ exists ids'. split; [by right | exact Hi].
        -- exists (ids ++ [id]). split; [by left|].
           apply elem_of_app. right. by apply list_elem_of_singleton.
    + split.
      * intros (ids' & Hin & Hi). apply elem_of_cons in Hin as [Heq | Hin].
        -- injection Heq as -> ->. left. exists ids. split; [by left | exact Hi].
        -- destruct (proj1 IH (ex_intro _ ids' (conj Hin Hi)))
             as [(ids2 & Hin2 & Hi2) | H]; [|by right].
           left. exists ids2. split; [by right | exact Hi2].
      * intros [(ids' & Hin & Hi) | H].
        -- apply elem_of_cons in Hin as [Heq | Hin].
           ++ injection Heq as -> ->. exists ids. split; [by left | exact Hi].
           ++ destruct (proj2 IH (or_introl (ex_intro _ ids' (conj Hin Hi))))
                as (ids2 & Hin2 & Hi2).
              exists ids2. split; [by right | exact Hi2].
        -- destruct (proj2 IH (or_intror H)) as (ids2 & Hin2 & Hi2).
           exists ids2. split; [by right | exact Hi2].
Qed.

Lemma lists_reference_paths (paths : list string) (r : ReferenceByFile)
  (id d i : string) :
  lists_reference
    (fold_left (fun result sp => add_reference result sp id) paths r) d i
  <-> lists_reference r d i \/ (d ∈ paths /\ i = id).
Proof.
  revert r. induction paths as [|sp paths IH]; intros r; simpl.
  - split; [by left | intros [H | [H _]]; [exact H|]].
    by apply elem_of_nil in H.
  - rewrite IH, lists_reference_add, elem_of_cons. tauto.
Qed.

(** The references by file hold exactly the edges of the cache: a note
    lists a reference when the entry of the reference lists the note. *)
Lemma cacheToReferencesByFile_edges (entries : list (string * IdCache))
  (d i : string) :
  lists_reference (cacheToReferencesByFile entries) d i
  <-> exists e, (i, e) ∈ entries /\ d ∈ sourcePaths e.
Proof.
  unfold cacheToReferencesByFile.
  assert (H : forall r,
             lists_reference
               (fold_left
                  (fun result '(id, entry) =>
                     fold_left
                       (fun result sourcePath =>
                          add_reference result sourcePath id)
                       (sourcePaths entry) result)
                  entries r) d i
             <-> lists_reference r d i
                 \/ exists e, (i, e) ∈ entries /\ d ∈ sourcePaths e).
  { induction entries as [|[id e] entries IH]; intros r; simpl.
    - split; [by left | intros [H | (e & He & _)]; [exact H|]].
      by apply elem_of_nil in He.
    - rewrite IH, lists_reference_paths. split.
      + intros [[H | [Hd ->]] | (e' & He' & Hd)].
        * by left.
        * right. exists e. split; [by left | exact Hd].
        * right. exists e'. split; [by right | exact Hd].
      + intros [H | (e' & He' & Hd)]; [by left; left|].
        apply elem_of_cons in He' as [Heq | He'].
        * injection Heq as -> ->. left. right. by split.
        * right. exists e'. by split. }
  rewrite H. split; [intros [(ids & Hin & _) | H0]; [|exact H0] | by right].
  by apply elem_of_nil in Hin.
Qed.

End ReferencesByFile.

Section NewCache.
Import ReferenceParsing Referencing.

Lemma built_from_ext (cache newCache : gmap string IdCache)
  (P Q : string -> string -> Prop) :
  (forall d i, P d i <-> Q d i) ->
  built_from cache newCache P -> built_from cache newCache Q.
Proof.
  intros Heq H i. specialize (H i).
  destruct (newCache !! i) as [e'|].
  - destruct H as (H1 & H2 & H3 & H4). repeat split; auto.
    + intros Hd. apply Heq, H3, Hd.
    + intros Hd. apply H3, Heq, Hd.
  - intros d Hd. apply (H d), Heq, Hd.
Qed.

Lemma add_sourcePath_built (cache acc acc' : gmap string IdCache)
  (sp id : string) (P : string -> string -> Prop) :
  add_sourcePath cache sp acc id = Ok acc' ->
  built_from cache acc P ->
  built_from cache acc' (fun d j => P d j \/ (d = sp /\ j = id)).
Proof.
  unfold add_sourcePath. intros Hadd Hinv j.
  pose proof (Hinv id) as Hid. pose proof (Hinv j) as Hj.
  destruct (acc !! id) as [e'|] eqn:Hacc.
  - destruct Hid as (Hnd & Hne & Hmem & Hpar).
    destruct (bool_decide (sp ∈ sourcePaths e')) eqn:Hsp; simpl in Hadd;
      injection Hadd as <-.
    + apply bool_decide_eq_true in Hsp.
      destruct (acc !! j) as [ej|] eqn:Haccj.
      * destruct Hj as (H1 & H2 & H3 & H4). repeat split; auto.
        -- intros Hd. left. by apply H3.
        -- intros [Hd | [-> ->]]; [by apply H3|].
           rewrite Hacc in Haccj. by injection Haccj as <-.
      * intros d [Hd | [-> ->]]; [by apply (Hj d)|].
        rewrite Hacc in Haccj. discriminate.
    + apply bool_decide_eq_false in Hsp.
      destruct (decide (j = id)) as [-> | Hneq].
      * rewrite lookup_insert_eq. cbn [push_sourcePath sourcePaths extRefParams].
        repeat split.
        -- apply NoDup_app. split; [exact Hnd|].
           split; [|apply NoDup_singleton].
           intros x Hx Hx'. apply list_elem_of_singleton in Hx'. by subst.
        -- by destruct (sourcePaths e').
        -- intros Hd. apply elem_of_app in Hd as [Hd | Hd].
           ++ left. by apply Hmem.
           ++ apply list_elem_of_singleton in Hd. by right.
        -- intros [Hd | [-> _]]; apply elem_of_app.
           ++ left. by apply Hmem.
           ++ right. by apply list_elem_of_singleton.
        -- exact Hpar.
      * rewrite lookup_insert_ne by congruence.
        destruct (acc !! j) as [ej|].
        -- destruct Hj as (H1 & H2 & H3 & H4). repeat split; auto.
           ++ intros Hd. left. by apply H3.
           ++ intros [Hd | [_ ->]]; [by apply H3 | congruence].
        -- intros d [Hd | [_ ->]]; [by apply (Hj d) | congruence].
  - destruct (cache !! id) as [entry|] eqn:Hc; [|discriminate].
    injection Hadd as <-.
    destruct (decide (j = id)) as [-> | Hneq].
    + rewrite lookup_insert_eq. cbn [sourcePaths extRefParams].
      repeat split.
      * apply NoDup_singleton.
      * discriminate.
      * intros Hd. apply list_elem_of_singleton in Hd. by right.
      * intros [Hd | [-> _]]; [by apply Hid in Hd|].
        by apply list_elem_of_singleton.
      * by exists entry.
    + rewrite lookup_insert_ne by congruence.
      destruct (acc !! j) as [ej|].
      * destruct Hj as (H1 & H2 & H3 & H4). repeat split; auto.
        -- intros Hd. left. by apply H3.
        -- intros [Hd | [_ ->]]; [by apply H3 | congruence].
      * intros d [Hd | [_ ->]]; [by apply (Hj d) | congruence].
Qed.

Lemma add_sourcePaths_built (cache : gmap string IdCache) (sp : string)
  (ids : list string) :
  forall (acc acc' : gmap string IdCache) (P : string -> string -> Prop),
    foldM (add_sourcePath cache sp) ids acc = Ok acc' ->
    built_from cache acc P ->
    built_from cache acc' (fun d j => P d j \/ (d = sp /\ j ∈ ids)).
Proof.
  induction ids as [|id ids IH]; intros acc acc' P Hfold Hinv; simpl in Hfold.
  - injection Hfold as <-. eapply built_from_ext; [|exact Hinv].
    intros d i. split; [by left | intros [H | [_ H]]; [exact H|]].
    by apply elem_of_nil in H.
  - destruct (add_sourcePath cache sp acc id) as [acc1|] eqn:Hadd;
      [|discriminate].
    cbn [mbind result_bind] in Hfold.
    eapply built_from_ext;
      [|exact (IH _ _ _ Hfold (add_sourcePath_built _ _ _ _ _ _ Hadd Hinv))].
    intros d i. cbn beta. rewrite elem_of_cons. tauto.
Qed.

(** The cache built from the references by file holds exactly their
    edges. *)
Lemma refsByFileToCache_built (refsByFile : ReferenceByFile)
  (cache newCache : gmap string IdCache) :
  refsByFileToCache refsByFile cache = Ok newCache ->
  built_from cache newCache (lists_reference refsByFile).
Proof.
  unfold refsByFileToCache.
  assert (H : forall acc acc' P,
             foldM
               (fun newCache '(sourcePath, ids) =>
                  foldM (add_sourcePath cache sourcePath) ids newCache)
               refsByFile acc = Ok acc' ->
             built_from cache acc P ->
             built_from cache acc'
               (fun d j => P d j \/ lists_reference refsByFile d j)).
  { induction refsByFile as [|[sp ids] r IH]; intros acc acc' P Hfold Hinv;
      simpl in Hfold.
    - injection Hfold as <-. eapply built_from_ext; [|exact Hinv].
      intros d i. split; [by left | intros [H | (x & H & _)]; [exact H|]].
      by apply elem_of_nil in H.
    - destruct (foldM (add_sourcePath cache sp) ids acc) as [acc1|] eqn:Hin;
        [|discriminate].
      cbn [mbind result_bind] in Hfold.
      eapply built_from_ext;
        [|exact (IH _ _ _ Hfold (add_sourcePaths_built _ _ _ _ _ _ Hin Hinv))].
      intros d i. cbn beta. unfold lists_reference. split.
      + intros [[H | [-> Hi]] | (x & Hx & Hi)].
        * by left.
        * right. exists ids. split; [by left | exact Hi].
        * right. exists x. split; [by right | exact Hi].
      + intros [H | (x & Hx & Hi)]; [by left; left|].
        apply elem_of_cons in Hx as [Heq | Hx].
        * injection Heq as -> ->. left. right. by split.
        * right. by exists x. }
  intros Hfold.
  eapply built_from_ext; [|apply (H ∅ newCache (fun _ _ => False) Hfold)].
  - intros d i. tauto.
  - intros i. rewrite lookup_empty. tauto.
Qed.

End NewCache.

(** ** Collecting the cache *)

Section Collection.
Import ReferenceParsing Referencing.

Variable parseYaml : string -> result yaml.
Variable URL_after_scheme : string -> string -> option (string * string * string).
Variable refContentPath : string -> string.
Variable getFirstLinkpathDest : string -> string -> option string.
Variable normalizePath : string -> string.
Variable extname : string -> string.
Variable RegExp_new : string -> option (string -> bool).
Variable refMetadataPath : string -> string.
Variable sections : string -> list SectionCache.
Variable Object_entries : gmap string IdCache -> list (string * IdCache).

(** [Object.keys] lists the keys of the cache, whatever their order. *)
Hypothesis Object_entries_spec :
  forall (cache : gmap string IdCache) (id : string) (e : IdCache),
    (id, e) ∈ Object_entries cache <-> cache !! id = Some e.

Abbreviation scan :=
  (getFileExtRefParams parseYaml URL_after_scheme refContentPath
     getFirstLinkpathDest normalizePath extname RegExp_new sections).
Abbreviation rescan' :=
  (rescan parseYaml URL_after_scheme refContentPath getFirstLinkpathDest
     normalizePath extname RegExp_new sections).
Abbreviation sweep' := (sweep refContentPath refMetadataPath).
Abbreviation clean :=
  (cleanExternalReferencedFiles parseYaml URL_after_scheme refContentPath
     getFirstLinkpathDest normalizePath extname RegExp_new refMetadataPath
     sections Object_entries).

(** Reading a note changes nothing, and fails when the note is missing. *)
Lemma scan_world (d : string) (w : World) : snd (scan d w) = w.
Proof.
  unfold getFileExtRefParams, getFileContentLines, adapter_read,
    mbind, M_bind, mret, M_ret, get, throw, lift.
  destruct (vault w !! d); reflexivity.
Qed.

Lemma scan_missing (d : string) (w : World) :
  vault w !! d = None -> exists e, scan d w = (Throw e, w).
Proof.
  intros H.
  unfold getFileExtRefParams, getFileContentLines, adapter_read,
    mbind, M_bind, mret, M_ret, get, throw, lift.
  rewrite H. eauto.
Qed.

Lemma rescan_world (r : ReferenceByFile) (w : World) :
  snd (rescan' r w) = w.
Proof.
  induction r as [|[sp ids] r IH]; [reflexivity|].
  cbn [rescan]. unfold mbind, M_bind.
  pose proof (scan_world sp w) as Hs.
  destruct (scan sp w) as [[ps|e] w1]; simpl in Hs; subst w1; [|reflexivity].
  destruct (rescan' r w) as [[r'|e] w2]; simpl in IH; subst w2; reflexivity.
Qed.

Lemma rescan_edges (r r' : ReferenceByFile) (w w' : World) :
  rescan' r w = (Ok r', w') ->
  forall d i,
    lists_reference r' d i
    <-> lists_reference r d i
        /\ exists ps, scan d w = (Ok ps, w) /\ i ∈ map id ps.
Proof.
  revert r' w'. induction r as [|[sp ids] r IH]; intros r' w' Hrun d i.
  - injection Hrun as <- <-. unfold lists_reference.
    split; [intros (x & H & _) | intros [(x & H & _) _]];
      by apply elem_of_nil in H.
  - cbn [rescan] in Hrun. unfold mbind, M_bind in Hrun.
    pose proof (scan_world sp w) as Hs.
    destruct (scan sp w) as [[ps|e] w1] eqn:Hscan; simpl in Hs; subst w1;
      [|discriminate].
    pose proof (rescan_world r w) as Hr.
    destruct (rescan' r w) as [[r1|e] w2] eqn:Hrest; simpl in Hr; subst w2;
      [|discriminate].
    injection Hrun as <- <-.
    specialize (IH r1 w eq_refl d i).
    unfold lists_reference in *. split.
    + intros (x & Hx & Hi). apply elem_of_cons in Hx as [Heq | Hx].
      * injection Heq as -> ->.
        apply list_elem_of_In, filter_In in Hi as [Hi Hin].
        apply bool_decide_eq_true in Hin. split.
        -- exists ids. split; [by left | by apply list_elem_of_In].
        -- by exists ps.
      * destruct (proj1 IH (ex_intro _ x (conj Hx Hi)))
          as [(y & Hy & Hiy) Hps].
        split; [|exact Hps]. exists y. split; [by right | exact Hiy].
    + intros [(x & Hx & Hi) (ps' & Hps' & Hin)].
      apply elem_of_cons in Hx as [Heq | Hx].
      * injection Heq as -> ->. rewrite Hscan in Hps'. injection Hps' as <-.
        eexists. split; [by left|].
        apply list_elem_of_In, filter_In. split.
        -- by apply list_elem_of_In.
        -- by apply bool_decide_eq_true.
      * destruct (proj2 IH (conj (ex_intro _ x (conj Hx Hi))
                              (ex_intro _ ps' (conj Hps' Hin))))
          as (y & Hy & Hiy).
        exists y. split; [by right | exact Hiy].
Qed.

(** A note that cannot be read stops the first loop. *)
Lemma rescan_missing (r : ReferenceByFile) (w : World) (d i : string) :
  lists_reference r d i -> vault w !! d = None ->
  exists e, rescan' r w = (Throw e, w).
Proof.
  intros (x & Hx & _) Hv. induction r as [|[sp ids] r IH].
  - by apply elem_of_nil in Hx.
  - cbn [rescan]. unfold mbind, M_bind.
    pose proof (scan_world sp w) as Hs.
    destruct (scan sp w) as [[ps|e] w1] eqn:Hscan; simpl in Hs; subst w1;
      [|eauto].
    apply elem_of_cons in Hx as [Heq | Hx].
    + injection Heq as -> ->.
      destruct (scan_missing sp w Hv) as (e & He). congruence.
    + destruct (IH Hx) as (e & ->). eauto.
Qed.

(** The second loop deletes the two files of each reference that the new
    cache has not, and nothing else. *)
Lemma sweep_files (ids : list string) (newCache : gmap string IdCache) :
  forall w : World,
  exists w',
    sweep' ids newCache w = (Ok tt, w')
    /\ cacheFile w' = cacheFile w /\ sent w' = sent w
    /\ (forall path, vault w !! path = None -> vault w' !! path = None)
    /\ (forall path, metadataFiles w !! path = None ->
                     metadataFiles w' !! path = None)
    /\ (forall id, id ∈ ids -> newCache !! id = None ->
          vault w' !! refContentPath id = None
          /\ metadataFiles w' !! refMetadataPath id = None)
    /\ (forall path,
          (forall id, id ∈ ids -> newCache !! id = None ->
                      path <> refContentPath id /\ path <> refMetadataPath id) ->
          vault w' !! path = vault w !! path
          /\ metadataFiles w' !! path = metadataFiles w !! path).
Proof.
  induction ids as [|id ids IH]; intros w.
  - exists w. split; [reflexivity|]. split; [reflexivity|].
    split; [reflexivity|]. split; [auto|]. split; [auto|]. split.
    + intros id Hid. by apply elem_of_nil in Hid.
    + intros path _. by split.
  - cbn [sweep]. unfold mbind, M_bind.
    destruct (newCache !! id) as [e|] eqn:Hid.
    + replace (bool_decide (is_Some (Some e))) with true
        by (symmetry; apply bool_decide_eq_true; eauto).
      unfold mret at 1, M_ret at 1.
      destruct (IH w) as (w' & Hrun & Hc & Hs & Hv & Hm & Hdel & Hkeep).
      exists w'. rewrite Hrun. split; [reflexivity|].
      split; [exact Hc|]. split; [exact Hs|]. split; [exact Hv|].
      split; [exact Hm|]. split.
      * intros id' Hid' Hn. apply elem_of_cons in Hid' as [-> | Hid'];
          [congruence|].
        by apply Hdel.
      * intros path Hpath. apply Hkeep.
        intros id' Hid' Hn. apply Hpath; [by right | exact Hn].
    + replace (bool_decide (is_Some (@None IdCache))) with false
        by (symmetry; apply bool_decide_eq_false; by intros [? ?]).
      unfold plugin_delete, modify, mbind, M_bind. 
      set (w1 := mkWorld _ _ _ _).
      destruct (IH w1) as (w' & Hrun & Hc & Hs & Hv & Hm & Hdel & Hkeep).
      exists w'. rewrite Hrun. split; [reflexivity|].
      split; [exact Hc|]. split; [exact Hs|].
      assert (Hv1 : forall path, vault w !! path = None ->
                                 vault w1 !! path = None).
      { intros path Hp. subst w1. cbn [vault].
        rewrite !lookup_delete_None. auto. }
      assert (Hm1 : forall path, metadataFiles w !! path = None ->
                                 metadataFiles w1 !! path = None).
      { intros path Hp. subst w1. cbn [metadataFiles].
        rewrite !lookup_delete_None. auto. }
      split; [auto|]. split; [auto|]. split.
      * intros id' Hid' Hn. apply elem_of_cons in Hid' as [-> | Hid'].
        -- split.
           ++ apply Hv. subst w1. cbn [vault].
              rewrite !lookup_delete_None. auto.
           ++ apply Hm. subst w1. cbn [metadataFiles].
              rewrite !lookup_delete_None. auto.
        -- by apply Hdel.
      * intros path Hpath.
        destruct (Hkeep path) as [Hk1 Hk2].
        { intros id' Hid' Hn. apply Hpath; [by right | exact Hn]. }
        destruct (Hpath id (list_elem_of_here _ _) Hid) as [Hp1 Hp2].
        rewrite Hk1, Hk2. subst w1. cbn [vault metadataFiles].
        rewrite !lookup_delete_ne by congruence. by split.
Qed.


Lemma clean_run (w w' : World) :
  clean w = (Ok tt, w') ->
  exists (r' : ReferenceByFile) (newCache : gmap string IdCache) (w1 : World),
    rescan' (cacheToReferencesByFile (Object_entries (cache_of w))) w
    = (Ok r', w)
    /\ refsByFileToCache r' (cache_of w) = Ok newCache
    /\ sweep' (map fst (Object_entries (cache_of w))) newCache w = (Ok tt, w1)
    /\ w' = mkWorld (vault w1) (metadataFiles w1) (Some newCache) (sent w1).
Proof.
  unfold cleanExternalReferencedFiles, readCache.
  unfold mbind at 1, M_bind at 1. unfold mbind at 1, M_bind at 1.
  unfold get at 1, mret at 1, M_ret at 1. fold (cache_of w).
  unfold mbind at 1, M_bind at 1.
  pose proof (rescan_world
                (cacheToReferencesByFile (Object_entries (cache_of w))) w)
    as Hw.
  destruct (rescan' _ w) as [[r'|e] w0]; simpl in Hw; subst w0;
    [|discriminate].
  unfold mbind at 1, M_bind at 1, lift at 1.
  destruct (refsByFileToCache r' (cache_of w)) as [newCache|e] eqn:Hnew;
    [|discriminate].
  unfold mbind at 1, M_bind at 1.
  destruct (sweep_files (map fst (Object_entries (cache_of w))) newCache w)
    as (w1 & Hsweep & _).
  rewrite Hsweep. unfold writeCache, modify. intros [= <-].
  by exists r', newCache, w1.
Qed.

Lemma entries_keys (cache : gmap string IdCache) (i : string) :
  i ∈ map fst (Object_entries cache) <-> is_Some (cache !! i).
Proof.
  split.
  - intros H. apply list_elem_of_In, in_map_iff in H as ([i' e] & <- & H).
    apply list_elem_of_In, Object_entries_spec in H. eauto.
  - intros [e He]. apply list_elem_of_In, in_map_iff. exists (i, e).
    split; [reflexivity|]. by apply list_elem_of_In, Object_entries_spec.
Qed.

(** X25. When the collection of the cache returns, the cache file holds
    the new cache, and no request was sent. An entry of the new cache is
    the entry of a reference the old cache had, with its parameters, and
    lists, once each, the notes that the old entry listed and that, read
    again, still hold a block for the reference: at least one. A reference
    of the old cache none of whose notes still holds a block for it has no
    entry. *)
Theorem collection_keeps_live_references (w w' : World) :
  clean w = (Ok tt, w') ->
  cacheFile w' = Some (cache_of w')
  /\ sent w' = sent w
  /\ forall i,
       match cache_of w' !! i with
       | Some e' =>
           exists e,
             cache_of w !! i = Some e
             /\ extRefParams e' = extRefParams e
             /\ NoDup (sourcePaths e')
             /\ sourcePaths e' <> []
             /\ forall d,
                  d ∈ sourcePaths e'
                  <-> d ∈ sourcePaths e
                      /\ exists ps, scan d w = (Ok ps, w) /\ i ∈ map id ps
       | None =>
           forall e d,
             cache_of w !! i = Some e -> d ∈ sourcePaths e ->
             ~ exists ps, scan d w = (Ok ps, w) /\ i ∈ map id ps
       end.
Proof.
  intros Hrun.
  destruct (clean_run w w' Hrun) as (r' & newCache & w1 & Hscan & Hnew
                                      & Hsweep & ->).
  destruct (sweep_files (map fst (Object_entries (cache_of w))) newCache w)
    as (w1' & Hsweep' & _ & Hsent & _).
  rewrite Hsweep in Hsweep'. injection Hsweep' as <-.
  split; [reflexivity|]. split; [exact Hsent|].
  change (cache_of (mkWorld (vault w1) (metadataFiles w1) (Some newCache)
                      (sent w1))) with newCache.
  pose proof (refsByFileToCache_built r' (cache_of w) newCache Hnew) as Hb.
  pose proof (rescan_edges _ _ _ _ Hscan) as Hedges.
  intros i. specialize (Hb i).
  assert (HP : forall d,
             lists_reference r' d i
             <-> (exists e, cache_of w !! i = Some e /\ d ∈ sourcePaths e)
                 /\ exists ps, scan d w = (Ok ps, w) /\ i ∈ map id ps).
  { intros d. rewrite Hedges, cacheToReferencesByFile_edges.
    by setoid_rewrite Object_entries_spec. }
  destruct (newCache !! i) as [e'|].
  - destruct Hb as (Hnd & Hne & Hmem & e & He & Hpar).
    exists e. split; [exact He|]. split; [exact Hpar|].
    split; [exact Hnd|]. split; [exact Hne|].
    intros d. rewrite Hmem, HP. split.
    + intros [(e0 & He0 & Hd) Hps]. split; [|exact Hps].
      rewrite He in He0. by injection He0 as <-.
    + intros [Hd Hps]. split; [by exists e | exact Hps].
  - intros e d He Hd Hps. apply (Hb d), HP. split; [by exists e | exact Hps].
Qed.

(** X26. When the collection of the cache returns, the content file and
    the metadata file of every reference that lost its entry are gone, and
    every other file of the vault is as it was. *)
Theorem collection_deletes_dropped_files (w w' : World) :
  clean w = (Ok tt, w') ->
  (forall i, is_Some (cache_of w !! i) -> cache_of w' !! i = None ->
             vault w' !! refContentPath i = None
             /\ metadataFiles w' !! refMetadataPath i = None)
  /\ (forall path,
        (forall i, is_Some (cache_of w !! i) -> cache_of w' !! i = None ->
                   path <> refContentPath i /\ path <> refMetadataPath i) ->
        vault w' !! path = vault w !! path
        /\ metadataFiles w' !! path = metadataFiles w !! path).
Proof.
  intros Hrun.
  destruct (clean_run w w' Hrun) as (r' & newCache & w1 & Hscan & Hnew
                                      & Hsweep & ->).
  destruct (sweep_files (map fst (Object_entries (cache_of w))) newCache w)
    as (w1' & Hsweep' & _ & _ & _ & _ & Hdel & Hkeep).
  rewrite Hsweep in Hsweep'. injection Hsweep' as <-.
  change (cache_of (mkWorld (vault w1) (metadataFiles w1) (Some newCache)
                      (sent w1))) with newCache.
  cbn [vault metadataFiles].
  split.
  - intros i Hi Hn. apply Hdel; [by apply entries_keys | exact Hn].
  - intros path Hpath. apply Hkeep. intros i Hi Hn.
    apply Hpath; [by apply entries_keys | exact Hn].
Qed.

(** X27. When a note that the cache lists for some reference is no
    longer in the vault, the collection of the cache throws, and leaves
    the cache file and every other file as they were. *)
Theorem collection_stops_at_missing_note (w : World) (i d : string)
  (e : IdCache) :
  cache_of w !! i = Some e -> d ∈ sourcePaths e -> vault w !! d = None ->
  exists err, clean w = (Throw err, w).
Proof.
  intros He Hd Hv.
  assert (Hedge : lists_reference
                    (cacheToReferencesByFile (Object_entries (cache_of w)))
                    d i).
  { apply cacheToReferencesByFile_edges. exists e.
    split; [by apply Object_entries_spec | exact Hd]. }
  destruct (rescan_missing _ w d i Hedge Hv) as (err & Hscan).
  exists err.
  unfold cleanExternalReferencedFiles, readCache.
  unfold mbind at 1, M_bind at 1. unfold mbind at 1, M_bind at 1.
  unfold get at 1, mret at 1, M_ret at 1. fold (cache_of w).
  unfold mbind at 1, M_bind at 1. by rewrite Hscan.
Qed.

End Collection.

(** ** Reference blocks *)

Section ReferenceBlocks.
Import ReferenceParsing Referencing.

Variable parseYaml : string -> result yaml.
Variable URL_after_scheme : string -> string -> option (string * string * string).
Variable refContentPath : string -> string.
Variable getFirstLinkpathDest : string -> string -> option string.
Variable normalizePath : string -> string.
Variable extname : string -> string.
Variable RegExp_new : string -> option (string -> bool).
Variable requestUrl_json : Request -> result (gmap string string).
Variable request_text : string -> result string.
Variable decodeContent : option string -> result string.
Variable timeStamp : string.
Variable refMetadataPath : string -> string.
Variable REF_CODEBLOCK : string.

Abbreviation getRef' :=
  (getRef parseYaml URL_after_scheme refContentPath getFirstLinkpathDest
     normalizePath extname RegExp_new requestUrl_json request_text
     decodeContent timeStamp refMetadataPath REF_CODEBLOCK).
Abbreviation parse :=
  (parseRefParams parseYaml URL_after_scheme refContentPath
     getFirstLinkpathDest normalizePath extname RegExp_new).

(** X28. [getRef] never throws. Its result is either a codeblock, whose
    text starts with a fence, or a notice: the text [> [!error] ] and
    the message of what was thrown, with line 1 for its start, no language,
    no path and no external reference. When it is the body of the block
    that cannot be parsed, the notice carries the message of the parser
    and nothing is changed. *)
Theorem getRef_never_throws (lines : list string) (sourcePath : string)
  (w : World) :
  (exists ref w',
      getRef' lines sourcePath w = (Ok ref, w')
      /\ (JS.startsWith (code ref) "```" = true
          \/ exists message,
               ref = mkRef
                       ("> [!error] "
                          +:+ Rx.replace_all (Rx.Lit1 JS.LF) message
                                (fun _ => String JS.LF ">"))
                       1 EmptyString EmptyString None))
  /\ (forall e,
        parse (JS.join (String JS.LF EmptyString)
                 (JS.slice lines 1 (Some (-1)))) sourcePath = Throw e ->
        getRef' lines sourcePath w
        = (Ok (mkRef
                 ("> [!error] "
                    +:+ Rx.replace_all (Rx.Lit1 JS.LF) (exn_message e)
                          (fun _ => String JS.LF ">"))
                 1 EmptyString EmptyString None), w)).
Proof.
  split.
  - unfold getRef, try_catch.
    match goal with
    | |- context [match ?c w with _ => _ end] => set (body := c)
    end.
    destruct (body w) as [[ref|e] w1] eqn:Hbody.
    + exists ref, w1. split; [reflexivity|]. left.
      subst body.
      unfold mbind, M_bind, lift, mret, M_ret, throw in Hbody.
      repeat match type of Hbody with
             | context [match ?x with _ => _ end] =>
                 destruct x; try discriminate
             end;
        injection Hbody as <- _; reflexivity.
    + eexists _, w1. split; [reflexivity|]. right. by exists (exn_message e).
  - intros e He. unfold getRef, try_catch, mbind, M_bind, lift.
    by rewrite He.
Qed.

End ReferenceBlocks.

(** ** Refreshing the references *)

Section Refresh.
Import ReferenceParsing Referencing.

Variable parseYaml : string -> result yaml.
Variable URL_after_scheme : string -> string -> option (string * string * string).
Variable refContentPath : string -> string.
Variable getFirstLinkpathDest : string -> string -> option string.
Variable normalizePath : string -> string.
Variable extname : string -> string.
Variable RegExp_new : string -> option (string -> bool).
Variable requestUrl_json : Request -> result (gmap string string).
Variable request_text : string -> result string.
Variable decodeContent : option string -> result string.
Variable timeStamp : string.
Variable refMetadataPath : string -> string.
Variable sections : string -> list SectionCache.
Variable Object_entries : gmap string IdCache -> list (string * IdCache).

Hypothesis Object_entries_spec :
  forall (cache : gmap string IdCache) (id : string) (e : IdCache),
    (id, e) ∈ Object_entries cache <-> cache !! id = Some e.

Abbreviation clean :=
  (cleanExternalReferencedFiles parseYaml URL_after_scheme refContentPath
     getFirstLinkpathDest normalizePath extname RegExp_new refMetadataPath
     sections Object_entries).
Abbreviation update :=
  (updateExtRef requestUrl_json request_text decodeContent timeStamp
     refMetadataPath).
Abbreviation refresh' :=
  (refresh requestUrl_json request_text decodeContent timeStamp
     refMetadataPath).
Abbreviation updateAll :=
  (updateExternalReferencedFiles parseYaml URL_after_scheme refContentPath
     getFirstLinkpathDest normalizePath extname RegExp_new requestUrl_json
     request_text decodeContent timeStamp refMetadataPath sections
     Object_entries None).

(** A fetch hands back the store path it was given. *)
Lemma fetch_storePath (p : ExtRefParams) (sent sent' : list Request)
  (ref : ExtRef) :
  _fetchExtRef requestUrl_json request_text decodeContent timeStamp p sent
  = (Ok ref, sent') ->
  ext_storePath (params ref) = ext_storePath p.
Proof.
  intros H.
  by destruct (fetch_parameters _ _ _ _ _ _ _ _ H) as (_ & _ & _ & _ & Hs & _).
Qed.

(** [updateExtRef] writes the content it fetched at the store path. *)
Lemma update_writes (p : ExtRefParams) (w w' : World) (ref : ExtRef) :
  update p w = (Ok ref, w') ->
  vault w' = <[ext_storePath p := content ref]> (vault w)
  /\ cacheFile w' = cacheFile w
  /\ ext_storePath (params ref) = ext_storePath p.
Proof.
  unfold updateExtRef, network, update_content, update_metadata,
    mbind, M_bind, mret, M_ret, modify.
  destruct (_fetchExtRef _ _ _ _ p (sent w)) as [[r|e] s'] eqn:Hf;
    simpl; [|discriminate].
  intros [= <- <-]. cbn [vault cacheFile]. repeat split.
  by eapply fetch_storePath.
Qed.

Lemma refresh_spec (refs : list ExtRefParams) :
  forall (cache cache' : gmap string IdCache) (w w' : World),
    refresh' refs cache w = (Ok cache', w') ->
    cacheFile w' = cacheFile w
    /\ (forall path, is_Some (vault w !! path) -> is_Some (vault w' !! path))
    /\ (forall r, r ∈ refs -> is_Some (vault w' !! ext_storePath r))
    /\ (forall i, sourcePaths <$> cache' !! i = sourcePaths <$> cache !! i)
    /\ (forall i e',
          cache' !! i = Some e' ->
          (exists e, cache !! i = Some e /\ extRefParams e' = extRefParams e)
          \/ exists r, r ∈ refs
                       /\ ext_storePath (extRefParams e') = ext_storePath r).
Proof.
  induction refs as [|ref refs IH]; intros cache cache' w w' Hrun.
  - injection Hrun as <- <-. split; [reflexivity|]. split; [auto|].
    split; [intros r Hr; by apply elem_of_nil in Hr|].
    split; [reflexivity|]. intros i e' He'. left. by exists e'.
  - cbn [refresh] in Hrun. unfold mbind at 1, M_bind at 1 in Hrun.
    destruct (update ref w) as [[fetched|e] w1] eqn:Hup; [|discriminate].
    destruct (update_writes ref w w1 fetched Hup) as (Hv & Hc & Hsp).
    destruct (cache !! id ref) as [entry|] eqn:Hentry; [|discriminate].
    destruct (IH _ _ _ _ Hrun) as (Hc' & Hkeep & Hrefs & Hpaths & Hpar).
    split; [congruence|].
    assert (Hkeep1 : forall path, is_Some (vault w !! path) ->
                                  is_Some (vault w1 !! path)).
    { intros path Hp. rewrite Hv.
      destruct (decide (path = ext_storePath ref)) as [-> | Hne].
      - rewrite lookup_insert_eq. eauto.
      - by rewrite lookup_insert_ne by congruence. }
    split; [auto|]. split.
    + intros r Hr. apply elem_of_cons in Hr as [-> | Hr]; [|by apply Hrefs].
      apply Hkeep. rewrite Hv, lookup_insert_eq. eauto.
    + split.
      * intros i. rewrite Hpaths.
        destruct (decide (i = id ref)) as [-> | Hne].
        -- by rewrite lookup_insert_eq, Hentry.
        -- by rewrite lookup_insert_ne by congruence.
      * intros i e' He'. destruct (Hpar i e' He') as [(e & He & Heq) | H].
        -- destruct (decide (i = id ref)) as [-> | Hne].
           ++ rewrite lookup_insert_eq in He. injection He as <-.
              right. exists ref. split; [by left|].
              rewrite Heq. exact Hsp.
           ++ rewrite lookup_insert_ne in He by congruence.
              left. by exists e.
        -- destruct H as (r & Hr & Hsame). right. exists r.
           split; [by right | exact Hsame].
Qed.

(** X29. When the refresh of all the references returns, the cache
    lists for every reference the notes that the collection done first
    left to it, and every reference of the cache has its content file in
    the vault. *)
Theorem refresh_all_stores_every_reference (w w' : World) :
  updateAll w = (Ok tt, w') ->
  exists w1,
    clean w = (Ok tt, w1)
    /\ (forall i, sourcePaths <$> cache_of w' !! i
                  = sourcePaths <$> cache_of w1 !! i)
    /\ (forall i e, cache_of w' !! i = Some e ->
                    is_Some (vault w' !! ext_storePath (extRefParams e))).
Proof.
  unfold updateExternalReferencedFiles.
  unfold mbind at 1, M_bind at 1.
  destruct (clean w) as [[[]|e] w1] eqn:Hclean; [|discriminate].
  unfold readCache.
  unfold mbind at 1, M_bind at 1. unfold mbind at 1, M_bind at 1.
  unfold get at 1, mret at 1, M_ret at 1. fold (cache_of w1).
  unfold mbind at 1, M_bind at 1. unfold mret at 1, M_ret at 1.
  unfold mbind at 1, M_bind at 1.
  destruct (refresh' _ (cache_of w1) w1) as [[cache'|e] w2] eqn:Hrun;
    [|discriminate].
  unfold writeCache, modify. intros [= <-]. exists w1.
  split; [reflexivity|].
  change (cache_of (mkWorld (vault w2) (metadataFiles w2) (Some cache')
                      (sent w2))) with cache'.
  cbn [vault].
  destruct (refresh_spec _ _ _ _ _ Hrun) as (_ & _ & Hrefs & Hpaths & Hpar).
  split; [exact Hpaths|].
  intros i e' He'. destruct (Hpar i e' He') as [(e & He & Heq) | H].
  - rewrite Heq. apply Hrefs.
    apply list_elem_of_In, in_map_iff. exists (i, e).
    split; [reflexivity|]. by apply list_elem_of_In, Object_entries_spec.
  - destruct H as (r & Hr & ->). by apply Hrefs.
Qed.

End Refresh.

(** ** The [id] of an external reference *)

Section Ids.
Import ReferenceParsing.

Variable parseYaml : string -> result yaml.
Variable URL_after_scheme : string -> string -> option (string * string * string).
Variable refContentPath : string -> string.
Variable getFirstLinkpathDest : string -> string -> option string.
Variable normalizePath : string -> string.
Variable extname : string -> string.
Variable RegExp_new : string -> option (string -> bool).

Abbreviation parse :=
  (parseRefParams parseYaml URL_after_scheme refContentPath
     getFirstLinkpathDest normalizePath extname RegExp_new).

(** Splitting at the slashes and joining with dashes turns each slash into
    a dash. *)
Lemma join_split_dashed (s : string) : JS.join "-" (JS.split s "/") = dashed s.
Proof.
  unfold JS.split, dashed.
  induction (JS.chars s) as [|c l IH]; [reflexivity|].
  destruct (Ascii.eqb_spec c "/") as [-> | Hne].
  - simpl. destruct (JS.split_chars "/" l) as [|w ws] eqn:E.
    + destruct l as [|a l']; simpl in E; [discriminate|].
      destruct (Ascii.eqb a "/"); [discriminate|].
      destruct (JS.split_chars "/" l'); discriminate.
    + cbn [map] in *.
      change (JS.join "-" (JS.str [] :: JS.str w :: map JS.str ws))
        with (String "-" (JS.join "-" (JS.str w :: map JS.str ws))).
      by rewrite IH.
  - apply Ascii.eqb_neq in Hne.
    destruct (split_chars_cons_head "/" c l Hne) as (w & ws & E1 & E2).
    rewrite E2. rewrite E1 in IH. cbn [map] in *.
    rewrite join_cons_char, IH, Hne. reflexivity.
Qed.

Lemma id_of_URL_dashed (u : URL) :
  id_of_URL u = url_hostname u +:+ "-" +:+ dashed (pathname u +:+ search u).
Proof.
  unfold id_of_URL. rewrite <- join_split_dashed.
  pose proof (split_nonempty (pathname u +:+ search u) "/") as Hne.
  destruct (JS.split (pathname u +:+ search u) "/"); [congruence|].
  reflexivity.
Qed.

(** What [parseRefParams] returns for an external reference. *)
Lemma parseRefParams_stores (source sourcePath : string) (rp : RefParams)
  (p : ExtRefParams) :
  parse source sourcePath = Ok rp ->
  external rp = Some p ->
  exists u, new_URL URL_after_scheme (path rp) = Some u
            /\ id p = id_of_URL u
            /\ hostname p = url_hostname u
            /\ rawUrl p = path rp
            /\ storePath rp = refContentPath (id p)
            /\ ext_storePath p = refContentPath (id p).
Proof.
  unfold parseRefParams.
  destruct (parseYaml _) as [parsed|]; [|discriminate]. cbn [mbind result_bind].
  match goal with
  | |- context [match parsed with _ => _ end] =>
      destruct (match parsed with
                | YNull => Throw (Error "YAML Parse Error")
                | YString s =>
                    if String.eqb s (prepare_source source)
                    then Throw (Error "YAML Parse Error") else Ok no_params
                | YMapping p0 => Ok p0
                | YOther => Ok no_params
                end) as [params|]; [|discriminate]
  end.
  cbn [mbind result_bind].
  destruct (orElse _ _) as [pth|]; [|discriminate].
  destruct (String.eqb pth EmptyString); [discriminate|].
  destruct (new_URL URL_after_scheme pth) as [u|] eqn:Hu; [|discriminate].
  destruct (_ || _).
  - cbn [mbind result_bind].
    destruct (getLineIdentifier RegExp_new (pp_end params)); [|discriminate].
    cbn [mbind result_bind].
    destruct (getLineIdentifier RegExp_new (pp_start params)); [|discriminate].
    cbn [mbind result_bind].
    intros [= <-]. cbn [external path storePath]. intros [= <-].
    cbn [id rawUrl hostname ext_storePath].
    exists u. repeat split; auto.
  - destruct (resolveLocalPath _ _ pth sourcePath); [|discriminate].
    cbn [mbind result_bind].
    destruct (getLineIdentifier RegExp_new (pp_end params)); [|discriminate].
    cbn [mbind result_bind].
    destruct (getLineIdentifier RegExp_new (pp_start params)); [|discriminate].
    cbn [mbind result_bind].
    intros [= <-]. cbn [external]. discriminate.
Qed.

(** X30. The [id] of an external reference is the host name of its
    address, a dash, and the path and query of the address with every
    slash turned into a dash; its content is stored at the path the plugin
    derives from the [id]. So two references whose addresses have the same
    host and differ only by dashes for slashes have one [id] and one
    content file. *)
Theorem reference_id_is_dashed_address :
  (forall source sourcePath rp p,
      parse source sourcePath = Ok rp ->
      external rp = Some p ->
      exists u,
        new_URL URL_after_scheme (path rp) = Some u
        /\ id p = url_hostname u +:+ "-"
                    +:+ dashed (pathname u +:+ search u)
        /\ storePath rp = refContentPath (id p))
  /\ (forall source1 source2 doc1 doc2 rp1 rp2 p1 p2 u1 u2,
        parse source1 doc1 = Ok rp1 -> external rp1 = Some p1 ->
        parse source2 doc2 = Ok rp2 -> external rp2 = Some p2 ->
        new_URL URL_after_scheme (path rp1) = Some u1 ->
        new_URL URL_after_scheme (path rp2) = Some u2 ->
        url_hostname u1 = url_hostname u2 ->
        dashed (pathname u1 +:+ search u1)
        = dashed (pathname u2 +:+ search u2) ->
        id p1 = id p2 /\ storePath rp1 = storePath rp2).
Proof.
  split.
  - intros source sourcePath rp p Hp He.
    destruct (parseRefParams_stores _ _ _ _ Hp He)
      as (u & Hu & Hid & _ & _ & Hs & _).
    exists u. split; [exact Hu|]. split; [|exact Hs].
    by rewrite Hid, id_of_URL_dashed.
  - intros source1 source2 doc1 doc2 rp1 rp2 p1 p2 u1 u2
      Hp1 He1 Hp2 He2 Hu1 Hu2 Hhost Hdash.
    destruct (parseRefParams_stores _ _ _ _ Hp1 He1)
      as (u1' & Hu1' & Hid1 & _ & _ & Hs1 & _).
    destruct (parseRefParams_stores _ _ _ _ Hp2 He2)
      as (u2' & Hu2' & Hid2 & _ & _ & Hs2 & _).
    rewrite Hu1 in Hu1'. injection Hu1' as <-.
    rewrite Hu2 in Hu2'. injection Hu2' as <-.
    assert (Hid : id p1 = id p2).
    { by rewrite Hid1, Hid2, !id_of_URL_dashed, Hhost, Hdash. }
    split; [exact Hid|]. by rewrite Hs1, Hs2, Hid.
Qed.

End Ids.

(* ================================================================= *)
(** * Sample runs *)


(** X3, witness: the first line of the sample file that holds [def g] is
    the fourth. *)
Lemma line_limits_text_start_witness :
  ReferenceParsing.getLineLimits def_pattern sample_content
    (ReferenceParsing.mkRefParams "lib/util.py" "lib/util.py" "py"
       (ReferenceParsing.LStr "def g") ReferenceParsing.LNull None)
  = Ok (ReferenceParsing.mkLineLimits
          (JS.join (String JS.LF EmptyString) (drop 3 sample_lines)) 4).
Proof.
  apply (proj1 (line_limits_text_start def_pattern sample_content
                  "lib/util.py" "lib/util.py" "py" "def g" None eq_refl)
           3%nat "def g():").
  - reflexivity.
  - vm_compute. reflexivity.
  - intros [|[|[|j]]] l' Hj; [| | | lia]; intros [= <-]; reflexivity.
Defined.

(** X4, witness: from a note two directories deep, one [../] stays in the
    vault and three leave it. *)
Lemma relative_path_stays_in_vault_witness :
  ReferenceParsing.getRelativePath (fun p => p) "../lib/x.py"
    "notes/sub/doc.md"
  = Ok "notes/lib/x.py"
  /\ ReferenceParsing.getRelativePath (fun p => p) "../../../lib/x.py"
       "notes/sub/doc.md"
     = Throw (Error ("Path references outside vault, too many "
                       +:+ quoted "../" +:+ "s used")).
Proof.
  split.
  - apply (relative_path_stays_in_vault (fun p => p) deep_dirs "doc.md"
             "lib/x.py" 1); (repeat constructor) || reflexivity.
  - apply (relative_path_stays_in_vault (fun p => p) deep_dirs "doc.md"
             "lib/x.py" 3); (repeat constructor) || reflexivity.
Defined.

(** X5, witness: the rules [7] and [0]. *)
Lemma numeral_rule_adds_line_witness :
  CodeblockParsing.parseHighlightedLines any_pattern "7"
  = CodeblockParsing.mkHighlights [7] [] []
  /\ CodeblockParsing.parseHighlightedLines any_pattern "0"
     = CodeblockParsing.mkHighlights [0] [] [].
Proof.
  split.
  - assert (Hn : numeral "7") by (split; [discriminate | reflexivity]).
    assert (Hs : value "7" <= 2 ^ 53) by (by vm_compute).
    apply (proj2 (numeral_rule_adds_line any_pattern "7"
                    (CodeblockParsing.mkHighlights [] [] []) Hn Hs)).
  - assert (Hn : numeral "0") by (split; [discriminate | reflexivity]).
    assert (Hs : value "0" <= 2 ^ 53) by (by vm_compute).
    apply (proj2 (numeral_rule_adds_line any_pattern "0"
                    (CodeblockParsing.mkHighlights [] [] []) Hn Hs)).
Defined.

(** X6, witness: the pattern [foo.*] and the text [bar] between their
    delimiters. *)
Lemma delimited_rules_witness :
  CodeblockParsing.addHighlightRule any_pattern
    (CodeblockParsing.mkHighlights [] [] []) "/foo.*/"
  = CodeblockParsing.mkHighlights [] [] ["foo.*"]
  /\ CodeblockParsing.addHighlightRule def_pattern
       (CodeblockParsing.mkHighlights [] [] []) "/foo.*/"
     = CodeblockParsing.mkHighlights [] [] []
  /\ CodeblockParsing.addHighlightRule any_pattern
       (CodeblockParsing.mkHighlights [] [] []) (quoted "bar")
     = CodeblockParsing.mkHighlights [] ["bar"] [].
Proof.
  split; [|split].
  - apply (proj1 (delimited_rules any_pattern "foo.*"
                    (CodeblockParsing.mkHighlights [] [] []) eq_refl)).
    reflexivity.
  - apply (proj1 (delimited_rules def_pattern "foo.*"
                    (CodeblockParsing.mkHighlights [] [] []) eq_refl)).
    reflexivity.
  - apply (proj2 (delimited_rules any_pattern "bar"
                    (CodeblockParsing.mkHighlights [] [] []) eq_refl)).
    reflexivity.
Defined.

(** X7, witness: the values [12], [/^def /] and ["def"] of [start]. *)
Lemma line_identifier_kinds_witness :
  ReferenceParsing.getLineIdentifier def_pattern
    (Some (ReferenceParsing.SStr "12"))
  = Ok (ReferenceParsing.LNum 12)
  /\ ReferenceParsing.getLineIdentifier def_pattern
       (Some (ReferenceParsing.SStr "/^def /"))
     = Ok (ReferenceParsing.LRegExp "^def ")
  /\ ReferenceParsing.getLineIdentifier def_pattern
       (Some (ReferenceParsing.SStr "/x/"))
     = Throw (Error "Invalid Regular Expression")
  /\ ReferenceParsing.getLineIdentifier def_pattern
       (Some (ReferenceParsing.SStr (quoted "def")))
     = Ok (ReferenceParsing.LStr "def").
Proof.
  destruct (line_identifier_kinds def_pattern) as (_ & _ & H1 & H2 & H3).
  split; [|split; [|split]].
  - apply (H1 "12"); [split; [discriminate | reflexivity] | by vm_compute].
  - apply (H2 "^def "). reflexivity.
  - apply (H2 "x"). reflexivity.
  - apply (H3 "def"). reflexivity.
Defined.

(** X8, witness: the pattern [/^def /] as [start], on the sample file. *)
Lemma pattern_start_is_type_error_witness :
  exists message,
    ReferenceParsing.getLineLimits def_pattern sample_content
      (ReferenceParsing.mkRefParams "lib/util.py" "lib/util.py" "py"
         (ReferenceParsing.LRegExp "^def ") ReferenceParsing.LNull None)
    = Throw (TypeError message).
Proof.
  apply (pattern_start_is_type_error def_pattern "^def " sample_content
           "lib/util.py" "lib/util.py" "py"
           (ReferenceParsing.LRegExp "^def ") ReferenceParsing.LNull None);
    reflexivity.
Defined.

(** X10, witness: a closed codeblock between two lines of text. *)
Lemma closed_block_is_first_group_witness :
  fst <$> CodeblockParsing.parseCodeblockSource
            ["intro"; "```python title:x"; "print(1)"; "```"; "tail"] false
  = cons ["intro"; "```python title:x"; "print(1)"; "```"]
      <$> (fst <$> CodeblockParsing.parseCodeblockSource ["tail"] false).
Proof.
  apply (closed_block_is_first_group ["intro"] ["print(1)"] ["tail"]
           "```python title:x" "```" "```" false).
  - repeat constructor.
  - reflexivity.
  - left. reflexivity.
  - repeat constructor.
  - reflexivity.
Defined.

(** X11, witness: a codeblock that no line closes. *)
Lemma unclosed_block_ends_at_opening_witness :
  fst <$> CodeblockParsing.parseCodeblockSource ["```python"; "print(1)"]
            false
  = cons ["```python"]
      <$> (fst <$> CodeblockParsing.parseCodeblockSource ["print(1)"] false).
Proof.
  apply (unclosed_block_ends_at_opening [] ["print(1)"] "```python" "```"
           false).
  - constructor.
  - reflexivity.
  - left. reflexivity.
  - repeat constructor.
Defined.

(** X12, witness: an admonition that holds a codeblock. *)
Lemma admonition_body_is_segmented_witness :
  exists inner outer n1 n2,
    CodeblockParsing.parseCodeblockSource ["~~~js"; "x"; "~~~"] true
    = Some (inner, n1)
    /\ CodeblockParsing.parseCodeblockSource ["tail"] true = Some (outer, n2)
    /\ CodeblockParsing.parseCodeblockSource
         (["intro"] ++ "```ad-note" :: ["~~~js"; "x"; "~~~"]
            ++ "```" :: ["tail"]) true
       = Some (inner ++ outer, true).
Proof.
  apply (admonition_body_is_segmented ["intro"] ["~~~js"; "x"; "~~~"]
           ["tail"] "```ad-note" "```" "```").
  - repeat constructor.
  - reflexivity.
  - reflexivity.
  - repeat constructor.
  - reflexivity.
Defined.

(** X13, witness: a fetch from a host that is not [gitlab.com] returns
    the parameters it was given. *)
Lemma fetch_outcome_witness :
  exists ref sent',
    quiet_fetch example_ext = (Ok ref, sent')
    /\ ReferenceParsing.ref_id ref = ReferenceParsing.id example_ext
    /\ ReferenceParsing.params ref = example_ext.
Proof.
  pose proof (fetch_outcome (fun _ => Ok ∅) (fun _ => Ok EmptyString)
                (fun _ => Ok EmptyString) "2026-01-01 00:00" example_ext [])
    as H.
  change (ReferenceParsing._fetchExtRef (fun _ => Ok ∅)
            (fun _ => Ok EmptyString) (fun _ => Ok EmptyString)
            "2026-01-01 00:00" example_ext [])
    with (quiet_fetch example_ext) in H.
  destruct (quiet_fetch example_ext) as [[ref|e] sent'] eqn:E.
  - exists ref, sent'. destruct H as (H1 & _ & _ & _ & _ & H2).
    split; [reflexivity|]. split; [exact H1|]. apply H2. discriminate.
  - vm_compute in E. discriminate E.
Defined.

(** X14, witness: the one request of a fetch from [example.com]. *)
Lemma other_hosts_one_plain_request_witness :
  quiet_fetch example_ext
  = (Ok (ReferenceParsing.mkExtRef (ReferenceParsing.id example_ext)
           EmptyString {["datetime" := "2026-01-01 00:00"]} example_ext),
     [ReferenceParsing.mkRequest "https://example.com/a/b.py?raw=1" "GET" ∅]).
Proof.
  apply (other_hosts_one_plain_request (fun _ => Ok ∅)
           (fun _ => Ok EmptyString) (fun _ => Ok EmptyString)
           "2026-01-01 00:00" example_ext []); discriminate.
Defined.

(** X15, witness: a reference to a file on GitHub. *)
Lemma github_requests_witness :
  exists new,
    snd (ReferenceParsing._fetchExtRef (fun _ => Ok ∅)
           (fun _ => Ok EmptyString) (fun _ => Ok EmptyString)
           "2026-01-01 00:00" no_header [])
    = [] ++ new
    /\ (length new <= 2)%nat
    /\ Forall (fun r =>
                 JS.startsWith (ReferenceParsing.url r)
                   "https://api.github.com/repos/" = true
                 /\ ReferenceParsing.method r = "GET") new.
Proof.
  apply (proj1 (github_requests (fun _ => Ok ∅) (fun _ => Ok EmptyString)
                  (fun _ => Ok EmptyString) "2026-01-01 00:00" no_header []
                  (or_introl eq_refl))).
Defined.

(** X16, witness: the second of the two runs returns what the first
    returned, and sends no request. *)
Lemma fetched_once_then_served_witness :
  exists w2,
    second_run = (fst first_run, w2)
    /\ Referencing.sent w2 = Referencing.sent (snd first_run).
Proof.
  destruct (proj2 (fetched_once_then_served (fun _ => Ok ∅)
                     (fun _ => Ok "print(1)") (fun _ => Ok EmptyString)
                     "2026-01-01 00:00" toy_refMetadataPath example_ext
                     "notes/a.md" empty_world)
              (ok_or example_ref (fst first_run)) (snd first_run)
              "notes/b.md")
    as (w2 & H1 & H2).
  - vm_compute. reflexivity.
  - exists w2. split; [|exact H2].
    vm_compute in H1. vm_compute. exact H1.
Defined.

(** X17, witness: the first run, from a world with no cache, creates the
    entry with the path of the note. *)
Lemma fetch_adds_note_once_witness :
  cache_of (snd first_run)
  = <[ReferenceParsing.id example_ext
        := Referencing.mkIdCache ["notes/a.md"] example_ext]> ∅.
Proof.
  apply (proj1 (fetch_adds_note_once (fun _ => Ok ∅)
                  (fun _ => Ok "print(1)") (fun _ => Ok EmptyString)
                  "2026-01-01 00:00" toy_refMetadataPath example_ext
                  "notes/a.md" empty_world (snd first_run)
                  (ok_or example_ref (fst first_run))
                  ltac:(vm_compute; reflexivity))).
Defined.

(** X19, witness: [ln:5] numbers the first line 5. *)
Lemma line_number_start_witness :
  CodeblockParsing.parseCodeblockParameterString any_pattern "ln:5"
    CodeblockParsing.default_parameters ∅
  = CodeblockParsing.set_lineNumbering
      (CodeblockParsing.mkLineNumbers true false 4)
      CodeblockParsing.default_parameters.
Proof.
  apply (line_number_start any_pattern ":" "5"
           CodeblockParsing.default_parameters ∅).
  - left. reflexivity.
  - split; [discriminate | reflexivity].
  - by vm_compute.
Defined.

(** X20, witness: the language of [```Python title:x]. *)
Lemma language_is_first_word_lowercase_witness :
  CodeblockParsing.language
    (CodeblockParsing.parseCodeblockParameters any_pattern "```Python" ∅)
  = "python"
  /\ CodeblockParsing.language
       (CodeblockParsing.parseCodeblockParameters any_pattern
          "```Python title:x" ∅)
     = "python".
Proof.
  apply (language_is_first_word_lowercase any_pattern "`" "Python" "title:x"
           ∅).
  - left. reflexivity.
  - split; [reflexivity | split; discriminate].
Defined.

(** X21, witness: a fence after two spaces, on the first line. *)
Lemma indented_first_fence_has_no_parameters_witness :
  CodeblockParsing.getParameterLine ["  ```python fold"; "x"; "  ```"]
  = Some "  ```python fold"
  /\ CodeblockParsing.parseCodeblockParameters any_pattern
       "  ```python fold" ∅
     = CodeblockParsing.default_parameters.
Proof.
  apply (indented_first_fence_has_no_parameters any_pattern
           ["  ```python fold"; "x"; "  ```"] "  ```python fold" ∅).
  - reflexivity.
  - reflexivity.
  - intros c Hc ->. apply list_elem_of_In in Hc. simpl in Hc.
    intuition discriminate.
  - exists " "%char, (JS.chars " ```python fold"). split; reflexivity.
Defined.

(** X22, witness: the codeblock of the sample note that stands in a
    block quote. *)
Lemma block_quoted_fence_is_cleaned_witness :
  CodeblockParsing.cleanParameterLine "> ~~~js" = "~~~js"
  /\ CodeblockParsing.getParameterLine ["> ~~~js"; "> x"; "> ~~~"]
     = Some "~~~js".
Proof.
  destruct (block_quoted_fence_is_cleaned any_pattern 1 "~" "js" EmptyString
              ["> ~~~js"; "> x"; "> ~~~"] ∅) as (H1 & _ & H2).
  - right. reflexivity.
  - split; [reflexivity | split; discriminate].
  - left. reflexivity.
  - reflexivity.
  - split; [exact H1|]. apply H2; [lia | reflexivity].
Defined.

(** X23, witness: rules that name the line 1 twice. *)
Lemma highlights_hold_each_value_once_witness :
  duplicate_free
    (CodeblockParsing.highlights_default
       (CodeblockParsing.parseCodeblockParameters any_pattern
          "```python hl:1,1,2" ∅)).
Proof.
  apply (proj1 (highlights_hold_each_value_once any_pattern
                  "```python hl:1,1,2" ∅)).
Defined.

(** X24, witness: two parameters after the language. *)
Lemma plain_parameters_one_by_one_witness :
  CodeblockParsing.parseCodeblockParameters any_pattern
    "```python fold ln:5" ∅
  = CodeblockParsing.parseCodeblockParameterString any_pattern "ln:5"
      (CodeblockParsing.parseCodeblockParameterString any_pattern "fold"
         (CodeblockParsing.set_language "python"
            CodeblockParsing.default_parameters) ∅) ∅.
Proof.
  apply (plain_parameters_one_by_one any_pattern "`" "python"
           ["fold"; "ln:5"] ∅).
  - left. reflexivity.
  - split; [reflexivity | split; discriminate].
  - repeat constructor; discriminate.
Defined.

(** The keys of the cache in the order of the map. *)
Lemma map_to_list_entries (cache : gmap string Referencing.IdCache)
  (id : string) (e : Referencing.IdCache) :
  (id, e) ∈ map_to_list cache <-> cache !! id = Some e.
Proof. apply elem_of_map_to_list. Qed.

(** X25, witness: the note still holds its block, and the entry stays. *)
Lemma collection_keeps_live_references_witness :
  Referencing.cacheFile (snd (toy_clean listed_world))
  = Some (cache_of (snd (toy_clean listed_world)))
  /\ Referencing.sent (snd (toy_clean listed_world)) = [].
Proof.
  destruct (collection_keeps_live_references toy_parseYaml
              toy_URL_after_scheme toy_refContentPath (fun _ _ => None)
              (fun p => p) (fun _ => ".py") any_pattern toy_refMetadataPath
              toy_sections map_to_list map_to_list_entries listed_world
              (snd (toy_clean listed_world)))
    as (H1 & H2 & _).
  - vm_compute. reflexivity.
  - split; [exact H1 | exact H2].
Defined.

(** X26, witness: the note lost its block; the entry and the content
    file of the reference are gone. *)
Lemma collection_deletes_dropped_files_witness :
  Referencing.vault (snd (toy_clean stale_world))
    !! toy_refContentPath (ReferenceParsing.id example_ext) = None
  /\ Referencing.metadataFiles (snd (toy_clean stale_world))
       !! toy_refMetadataPath (ReferenceParsing.id example_ext) = None.
Proof.
  apply (proj1 (collection_deletes_dropped_files toy_parseYaml
                  toy_URL_after_scheme toy_refContentPath (fun _ _ => None)
                  (fun p => p) (fun _ => ".py") any_pattern
                  toy_refMetadataPath toy_sections map_to_list
                  map_to_list_entries stale_world
                  (snd (toy_clean stale_world))
                  ltac:(vm_compute; reflexivity))).
  - vm_compute. eexists. reflexivity.
  - vm_compute. reflexivity.
Defined.

(** X27, witness: the cache lists a note that is gone. *)
Lemma collection_stops_at_missing_note_witness :
  exists err, toy_clean orphan_world = (Throw err, orphan_world).
Proof.
  apply (collection_stops_at_missing_note toy_parseYaml
           toy_URL_after_scheme toy_refContentPath (fun _ _ => None)
           (fun p => p) (fun _ => ".py") any_pattern toy_refMetadataPath
           toy_sections map_to_list map_to_list_entries orphan_world
           (ReferenceParsing.id example_ext) "notes/gone.md"
           (Referencing.mkIdCache ["notes/gone.md"] example_ext)).
  - vm_compute. reflexivity.
  - apply list_elem_of_here.
  - reflexivity.
Defined.

(** X28, witness: a block whose body the host does not read. *)
Lemma getRef_never_throws_witness :
  toy_getRef broken_block "notes/a.md" empty_world
  = (Ok (Referencing.mkRef "> [!error] unsupported YAML" 1 EmptyString
           EmptyString None),
     empty_world).
Proof.
  apply (proj2 (getRef_never_throws toy_parseYaml toy_URL_after_scheme
                  toy_refContentPath (fun _ _ => None) (fun p => p)
                  (fun _ => ".py") any_pattern (fun _ => Ok ∅)
                  (fun _ => Ok "print(1)") (fun _ => Ok EmptyString)
                  "2026-01-01 00:00" toy_refMetadataPath "reference"
                  broken_block "notes/a.md" empty_world)
           (Error "unsupported YAML")).
  reflexivity.
Defined.

(** X29, witness: after the refresh the content of the reference that
    the note holds is in the vault. *)
Lemma refresh_all_stores_every_reference_witness :
  exists w1,
    toy_clean listed_world = (Ok tt, w1)
    /\ is_Some (Referencing.vault (snd (toy_updateAll listed_world))
                  !! ReferenceParsing.ext_storePath example_ext).
Proof.
  destruct (refresh_all_stores_every_reference toy_parseYaml
              toy_URL_after_scheme toy_refContentPath (fun _ _ => None)
              (fun p => p) (fun _ => ".py") any_pattern (fun _ => Ok ∅)
              (fun _ => Ok "print(1)") (fun _ => Ok EmptyString)
              "2026-01-01 00:00" toy_refMetadataPath toy_sections
              map_to_list map_to_list_entries listed_world
              (snd (toy_updateAll listed_world)))
    as (w1 & H1 & _ & H2).
  - vm_compute. reflexivity.
  - exists w1. split; [exact H1|].
    apply (H2 (ReferenceParsing.id example_ext)
             (Referencing.mkIdCache ["notes/a.md"] example_ext)).
    vm_compute. reflexivity.
Defined.

(** X30, witness: the [id] of the address of the examples. *)
Lemma reference_id_is_dashed_address_witness :
  exists u,
    ReferenceParsing.new_URL toy_URL_after_scheme
      "https://example.com/a/b.py?raw=1" = Some u
    /\ ReferenceParsing.id example_ext
       = ReferenceParsing.url_hostname u +:+ "-"
           +:+ dashed (ReferenceParsing.pathname u
                         +:+ ReferenceParsing.search u)
    /\ ReferenceParsing.storePath example_ref_params
       = toy_refContentPath (ReferenceParsing.id example_ext).
Proof.
  apply (proj1 (reference_id_is_dashed_address toy_parseYaml
                  toy_URL_after_scheme toy_refContentPath (fun _ _ => None)
                  (fun p => p) (fun _ => ".py") any_pattern)
           "path: https://example.com/a/b.py?raw=1" "notes/a.md"
           example_ref_params example_ext).
  - vm_compute. reflexivity.
  - reflexivity.
Defined.
